(** * Cue-sheet tooling: tracklist generator and track post-processor

    A shallow embedding of [cue_generator.py] and
    [postprocess_cue_tracks.py], followed by the properties of the
    repository's specification that were checked against it.

    Text is modelled as lists of 8-bit characters: a Python [str] whose
    code points are all below 256.  The Python built-ins used by the two
    scripts ([str.split], [str.strip], [str.isdigit], [int], [str.zfill],
    [shlex.split], the [re] patterns, [Path.stem]) are modelled on that
    range.  Integers are unbounded ([Z], [N]); the interpreter's limit
    on the number of digits converted between text and integer (4300, its
    default) is modelled: [int], [str] and the formatting of an integer
    raise [ValueError] beyond it. *)

From Stdlib Require Import List Ascii ZArith NArith Arith Bool Lia.
From Stdlib Require String.
Import ListNotations String.StringSyntax.

#[local] Delimit Scope string_scope with string.

#[local] Open Scope char_scope.
#[local] Open Scope list_scope.

(* ================================================================== *)
(** * Python built-ins *)
(* ================================================================== *)

Module Py.

Definition str := list ascii.

Definition lit (s : String.string) : str := String.list_ascii_of_string s.
Arguments lit s%_string.

Definition code (c : ascii) : N := N_of_ascii c.

(** Named characters that cannot be written inside a literal. *)
Definition dquote : ascii := "034".
Definition squote : ascii := "039".
Definition backslash : ascii := "092".
Definition newline : ascii := "010".
Definition creturn : ascii := "013".
Definition tab : ascii := "009".

Definition str_eqb (a b : str) : bool :=
  if list_eq_dec ascii_dec a b then true else false.

(** [c.isspace()]: the white space of [str.strip], [str.split] and [\s]. *)
Definition isspace (c : ascii) : bool :=
  let n := code c in
  ((9 <=? n) && (n <=? 13) || (28 <=? n) && (n <=? 32)
   || (n =? 133) || (n =? 160))%N.

(** [\d] and the digits accepted by [int]: the decimal digits. *)
Definition isdecimal (c : ascii) : bool :=
  let n := code c in ((48 <=? n) && (n <=? 57))%N.

(** [c.isdigit()]: the decimal digits and the superscripts one, two and
    three, which are digits for [isdigit] but not for [int]. *)
Definition isdigit (c : ascii) : bool :=
  let n := code c in
  (isdecimal c || (n =? 178) || (n =? 179) || (n =? 185))%N.

(** ** Exceptions *)

Inductive exn : Type :=
| ValueError
| IndexError
| OSError
| Exception (msg : str).

Inductive result (A : Type) : Type :=
| Ok (a : A)
| Raise (e : exn).
Arguments Ok {A} a.
Arguments Raise {A} e.

Definition bind {A B} (r : result A) (k : A -> result B) : result B :=
  match r with
  | Ok a => k a
  | Raise e => Raise e
  end.

Definition is_ok {A} (r : result A) : bool :=
  match r with Ok _ => true | Raise _ => false end.

(** ** Slicing, searching *)

Fixpoint dropwhile (p : ascii -> bool) (s : str) : str :=
  match s with
  | [] => []
  | c :: s' => if p c then dropwhile p s' else s
  end.

Definition lstrip_by (p : ascii -> bool) (s : str) : str := dropwhile p s.
Definition rstrip_by (p : ascii -> bool) (s : str) : str :=
  rev (dropwhile p (rev s)).
Definition strip_by (p : ascii -> bool) (s : str) : str :=
  rstrip_by p (lstrip_by p s).

(** [s.strip()] and [s.strip(chars)] for a one-character [chars]. *)
Definition strip (s : str) : str := strip_by isspace s.
Definition strip_char (c : ascii) (s : str) : str := strip_by (Ascii.eqb c) s.

Fixpoint startswith (p s : str) : bool :=
  match p, s with
  | [], _ => true
  | _ :: _, [] => false
  | a :: p', b :: s' => Ascii.eqb a b && startswith p' s'
  end.

(** [needle in hay]. *)
Fixpoint contains (needle hay : str) : bool :=
  startswith needle hay ||
  match hay with
  | [] => false
  | _ :: hay' => contains needle hay'
  end.

(** [c in s] for one character. *)
Definition mem_char (c : ascii) (s : str) : bool := existsb (Ascii.eqb c) s.

(** [s.split(sep)] for a non-empty [sep]: a left-to-right scan; [skip]
    counts the characters of a separator just recognised that are still
    to be passed over, [cur] holds the current field reversed. *)
Fixpoint split_go (sep : str) (skip : nat) (cur : str) (s : str) : list str :=
  match s with
  | [] => [rev cur]
  | c :: s' =>
      match skip with
      | S k => split_go sep k cur s'
      | O =>
          if startswith sep s
          then rev cur :: split_go sep (length sep - 1) [] s'
          else split_go sep 0 (c :: cur) s'
      end
  end.

Definition split (sep s : str) : list str := split_go sep 0 [] s.

(** [s.split(maxsplit=k)]: split on runs of white space; after [k]
    splits the rest of the text, leading white space skipped, is the last
    field.  [cur] is the word being read (reversed), if any. *)
Fixpoint split_ws_go (k : nat) (cur : option str) (s : str) : list str :=
  match s with
  | [] => match cur with Some w => [rev w] | None => [] end
  | c :: s' =>
      match cur with
      | None =>
          if isspace c then split_ws_go k None s'
          else match k with
               | O => [s]
               | S _ => split_ws_go k (Some [c]) s'
               end
      | Some w =>
          if isspace c then rev w :: split_ws_go (k - 1) None s'
          else split_ws_go k (Some (c :: w)) s'
      end
  end.

Definition split_ws (maxsplit : nat) (s : str) : list str :=
  split_ws_go maxsplit None s.

(** [s.partition(' ')[2]]: the text after the first [sep], empty when
    [sep] does not occur. *)
Fixpoint partition_after (sep : ascii) (s : str) : str :=
  match s with
  | [] => []
  | c :: s' => if Ascii.eqb sep c then s' else partition_after sep s'
  end.

(** [s[n:]]. *)
Definition slice_from (n : nat) (s : str) : str := skipn n s.

(** [l[-1]] on a list of fields ([split] never returns an empty list). *)
Definition last_field (l : list str) : str := last l [].

(** [sep.join(l)]. *)
Fixpoint join (sep : str) (l : list str) : str :=
  match l with
  | [] => []
  | [x] => x
  | x :: l' => x ++ sep ++ join sep l'
  end.

(** [s.replace(c, '')]: every occurrence of [c] is deleted. *)
Definition remove_char (c : ascii) (s : str) : str :=
  filter (fun x => negb (Ascii.eqb c x)) s.

(** [s.upper()].  ASCII and Latin-1 letters are mapped to their capitals
    and the sharp s to [SS]; the two remaining cased characters of this
    range (micro sign, y with diaeresis) have capitals above 255 and are
    left in place, which no comparison with an ASCII keyword can see. *)
Definition upper_char (c : ascii) : str :=
  let n := code c in
  if ((97 <=? n) && (n <=? 122))%N then [ascii_of_N (n - 32)]
  else if ((224 <=? n) && (n <=? 254) && negb (n =? 247))%N
       then [ascii_of_N (n - 32)]
  else if (n =? 223)%N then lit "SS"
  else [c].

Definition upper (s : str) : str := flat_map upper_char s.

(** ** Numbers and text *)

Definition digit_char (d : N) : ascii := ascii_of_N (48 + d).
Definition digit_val (c : ascii) : N := code c - 48.

Fixpoint to_digits (fuel : nat) (n : N) (acc : str) : str :=
  match fuel with
  | O => acc
  | S f =>
      let acc' := digit_char (n mod 10) :: acc in
      if (n / 10 =? 0)%N then acc' else to_digits f (n / 10) acc'
  end.

(** The decimal digits of a natural number. *)
Definition str_of_N (n : N) : str :=
  to_digits (S (N.to_nat (N.log2 n))) n [].

(** The decimal text of an integer: what [str(z)] and ['%d' % z] return
    when they return. *)
Definition str_of_Z (z : Z) : str :=
  if (z <? 0)%Z then "-" :: str_of_N (Z.abs_N z) else str_of_N (Z.abs_N z).

(** [sys.get_int_max_str_digits()]: the most digits a conversion between
    text and integer accepts. *)
Definition max_str_digits : nat := 4300.

(** [str(z)]: [ValueError] for an integer of more digits than the limit,
    the sign not counted. *)
Definition str_of_int (z : Z) : result str :=
  if (max_str_digits <? length (str_of_N (Z.abs_N z)))%nat
  then Raise ValueError
  else Ok (str_of_Z z).

(** [s.zfill(width)]: zeros are inserted after a leading sign. *)
Definition zfill (width : nat) (s : str) : str :=
  let pad := repeat "0" (width - length s) in
  match s with
  | c :: s' =>
      if Ascii.eqb c "-" || Ascii.eqb c "+" then c :: pad ++ s' else pad ++ s
  | [] => pad
  end.

(** [format(z, '02d')]: at least two characters, the sign included. *)
Definition format_02d (z : Z) : str :=
  if (z <? 0)%Z
  then "-" :: repeat "0" (1 - length (str_of_N (Z.abs_N z)))
           ++ str_of_N (Z.abs_N z)
  else repeat "0" (2 - length (str_of_N (Z.abs_N z)))
           ++ str_of_N (Z.abs_N z).

(** The body of an integer literal: decimal digits, single underscores
    allowed between digits. *)
Fixpoint int_body (after_digit : bool) (acc : N) (s : str) : option N :=
  match s with
  | [] => if after_digit then Some acc else None
  | c :: s' =>
      if isdecimal c then int_body true (10 * acc + digit_val c) s'
      else if Ascii.eqb c "_" && after_digit then int_body false acc s'
      else None
  end.

(** White space that [int] strips: the C white space and, above ASCII,
    the Unicode spaces. *)
Definition int_space (c : ascii) : bool :=
  let n := code c in
  ((9 <=? n) && (n <=? 13) || (n =? 32) || (n =? 133) || (n =? 160))%N.

(** [int(s)]: [ValueError] for a text that is no integer literal, and
    for a literal of more digits than the limit (leading zeros count,
    underscores, sign and white space do not). *)
Definition int (s : str) : result Z :=
  let t := strip_by int_space s in
  let '(neg, body) :=
    match t with
    | c :: r =>
        if Ascii.eqb c "-" then (true, r)
        else if Ascii.eqb c "+" then (false, r)
        else (false, t)
    | [] => (false, t)
    end in
  match int_body false 0 body with
  | Some n =>
      if (max_str_digits <? length (filter isdecimal body))%nat
      then Raise ValueError
      else Ok (if neg then (- Z.of_N n)%Z else Z.of_N n)
  | None => Raise ValueError
  end.

End Py.

(* ================================================================== *)
(** * [shlex.split] *)
(* ================================================================== *)

(** The POSIX-mode tokenizer behind [shlex.split(line)]: white space is
    space, tab, carriage return and line feed; both quote characters open
    a quoted stretch; the backslash escapes, and inside double quotes it
    escapes only the double quote and itself; comments are off and
    [whitespace_split] is on, so every other character is part of a
    token. *)

Module Shlex.
Import Py.

Definition whitespace (c : ascii) : bool :=
  Ascii.eqb c " " || Ascii.eqb c tab || Ascii.eqb c creturn
  || Ascii.eqb c newline.

Definition quotes (c : ascii) : bool :=
  Ascii.eqb c squote || Ascii.eqb c dquote.

Definition escape (c : ascii) : bool := Ascii.eqb c backslash.

Definition escapedquotes (c : ascii) : bool := Ascii.eqb c dquote.

(** The lexer's [state]: [' '], ['a'], a quote character, or the escape
    character together with [escapedstate] ([None] stands for ['a']). *)
Inductive lex_state : Type :=
| Blank
| Word
| InQuote (q : ascii)
| Escaped (escapedstate : option ascii).

(** What [read_token] returns when it leaves its loop with [tok]: the
    token, or the end-of-input mark when the token is empty and no quote
    was seen. *)
Definition finish (tok : str) (quoted : bool) : list str :=
  match tok with
  | [] => if quoted then [tok] else []
  | _ :: _ => [tok]
  end.

Definition emits (tok : str) (quoted : bool) : bool :=
  match tok with [] => quoted | _ :: _ => true end.

Fixpoint tokens (st : lex_state) (tok : str) (quoted : bool) (s : str)
  : result (list str) :=
  match s with
  | [] =>
      match st with
      | Blank | Word => Ok (finish tok quoted)
      | InQuote _ => Raise ValueError     (* No closing quotation *)
      | Escaped _ => Raise ValueError     (* No escaped character *)
      end
  | c :: s' =>
      match st with
      | Blank =>
          if whitespace c then
            if emits tok quoted
            then bind (tokens Blank [] false s') (fun r => Ok (tok :: r))
            else tokens Blank tok quoted s'
          else if escape c then tokens (Escaped None) tok quoted s'
          else if quotes c then tokens (InQuote c) tok quoted s'
          else tokens Word [c] quoted s'
      | InQuote q =>
          if Ascii.eqb c q then tokens Word tok true s'
          else if escape c && escapedquotes q
               then tokens (Escaped (Some q)) tok true s'
          else tokens (InQuote q) (tok ++ [c]) true s'
      | Escaped es =>
          match es with
          | Some q =>
              let tok' :=
                if negb (escape c) && negb (Ascii.eqb c q)
                then tok ++ [backslash] else tok in
              tokens (InQuote q) (tok' ++ [c]) quoted s'
          | None => tokens Word (tok ++ [c]) quoted s'
          end
      | Word =>
          if whitespace c then
            if emits tok quoted
            then bind (tokens Blank [] false s') (fun r => Ok (tok :: r))
            else tokens Blank tok quoted s'
          else if quotes c then tokens (InQuote c) tok quoted s'
          else if escape c then tokens (Escaped None) tok quoted s'
          else tokens Word (tok ++ [c]) quoted s'
      end
  end.

Definition split (s : str) : result (list str) := tokens Blank [] false s.

End Shlex.

(* ================================================================== *)
(** * The [re] patterns *)
(* ================================================================== *)

(** The patterns of the script are sequences of greedy repetitions of a
    character class.  [match_items] is the backtracking matcher for
    such a sequence: each repetition first tries to take one more
    character and gives characters back, one at a time, when the rest of
    the pattern fails.  It returns the text matched by each repetition
    and what is left of the subject. *)

Module Re.
Import Py.

Record item : Type := Rep {
  cls : ascii -> bool;
  lo : nat;
  hi : option nat
}.

Definition more (hi : option nat) : bool :=
  match hi with Some O => false | _ => true end.

Fixpoint greedy {A : Type} (p : ascii -> bool) (lo : nat) (hi : option nat)
  (s : str) (seg : str) (k : str -> str -> option A) : option A :=
  let stop := match lo with O => k seg s | S _ => None end in
  match s with
  | [] => stop
  | c :: s' =>
      if p c && more hi then
        match greedy p (pred lo) (option_map pred hi) s' (seg ++ [c]) k with
        | Some r => Some r
        | None => stop
        end
      else stop
  end.

Fixpoint match_items (items : list item) (final : str -> bool) (s : str)
  : option (list str * str) :=
  match items with
  | [] => if final s then Some ([], s) else None
  | it :: rest =>
      greedy (cls it) (lo it) (hi it) s []
        (fun seg s' =>
           match match_items rest final s' with
           | Some (segs, r) => Some (seg :: segs, r)
           | None => None
           end)
  end.

(** [re.search]: the match at the leftmost position that has one. *)
Fixpoint search (items : list item) (final : str -> bool) (s : str)
  : option (list str * str) :=
  match match_items items final s with
  | Some m => Some m
  | None =>
      match s with
      | [] => None
      | _ :: s' => search items final s'
      end
  end.

(** [re.sub(pattern, '', s)] for a pattern anchored by [^] that cannot
    match the empty text: the match at the start, if any, is deleted. *)
Definition sub_prefix (items : list item) (s : str) : str :=
  match match_items items (fun _ => true) s with
  | Some (_, r) => r
  | None => s
  end.

Definition star (p : ascii -> bool) : item := Rep p 0 None.
Definition plus (p : ascii -> bool) : item := Rep p 1 None.
Definition one (c : ascii) : item := Rep (Ascii.eqb c) 1 (Some 1).
Definition literal (s : str) : list item := map one s.

(** [$]: the end of the text, or just before a final line feed. *)
Definition at_end (s : str) : bool :=
  match s with
  | [] => true
  | [c] => Ascii.eqb c newline
  | _ => false
  end.

(** [.]: any character but the line feed. *)
Definition dot (c : ascii) : bool := negb (Ascii.eqb c newline).

(** [[-_.\s]]. *)
Definition separator (c : ascii) : bool :=
  Ascii.eqb c "-" || Ascii.eqb c "_" || Ascii.eqb c "." || isspace c.

End Re.

(* ================================================================== *)
(** * [pathlib] names *)
(* ================================================================== *)

(** [Path(s).stem] and [Path(s).suffix] for a text [s] without a slash:
    the name is [s] itself, the empty text for the empty text and for a
    lone dot; the suffix
    starts at the last dot unless that dot is the first or the last
    character of the name. *)

Module Pathlib.
Import Py.

Definition name (s : str) : str :=
  if str_eqb s [] || str_eqb s (lit ".") then [] else s.

(** [s.rfind('.')]: [None] stands for -1. *)
Fixpoint rfind_dot (i : nat) (s : str) : option nat :=
  match s with
  | [] => None
  | c :: s' =>
      match rfind_dot (S i) s' with
      | Some j => Some j
      | None => if Ascii.eqb c "." then Some i else None
      end
  end.

Definition split_at_suffix (n : str) : str * str :=
  match rfind_dot 0 n with
  | Some i =>
      if (0 <? i)%nat && (i <? length n - 1)%nat
      then (firstn i n, skipn i n)
      else (n, [])
  | None => (n, [])
  end.

Definition stem (s : str) : str := fst (split_at_suffix (name s)).
Definition suffix (s : str) : str := snd (split_at_suffix (name s)).

(** A component of a path that counts: neither empty nor a lone dot. *)
Definition proper_component (x : str) : bool :=
  negb (str_eqb x []) && negb (str_eqb x (lit ".")).

(** [found.with_name(name)] for a path [found] that has a name: the new
    name is returned, to stand in the directory of [found], unless it is
    refused with [ValueError]: an empty name, a name that begins or ends
    with a slash, and a name that does not consist of exactly one
    component, empty components and lone dots apart. *)
Definition with_name (name : str) : result str :=
  if str_eqb name []
     || startswith (lit "/") name
     || Ascii.eqb (last name " ") "/"
     || negb (length (filter proper_component (split (lit "/") name)) =? 1)%nat
  then Raise ValueError
  else Ok name.

End Pathlib.

(* ================================================================== *)
(** * [cue_generator.py] *)
(* ================================================================== *)

Module CueGenerator.
Import Py.

Definition is_timestamp (string : str) : bool :=
  forallb (fun character => isdigit character || Ascii.eqb character ":")
          string.

Definition invalid_timestamp (timestamp_string : str) : exn :=
  Exception (lit "Invalid timestamp: " ++ timestamp_string).

Definition get_min_sec_from_timestamp (timestamp_string : str)
  : result (Z * Z) :=
  let digits := split (lit ":") timestamp_string in
  match digits with
  | [d0; d1] =>
      bind (int d0) (fun a => bind (int d1) (fun b => Ok (a, b)))
  | [d0; d1; d2] =>
      bind (int d0) (fun a =>
      bind (int d1) (fun b =>
      bind (int d2) (fun c => Ok ((a * 60 + b)%Z, c))))
  | _ => Raise (invalid_timestamp timestamp_string)
  end.

Definition get_string1 (full_line : str) : str :=
  slice_from 3
    (last_field (split (lit ":") (hd [] (split (lit " - ") full_line)))).

Definition get_string2 (full_line : str) : str :=
  match split (lit " - ") full_line with
  | _ :: second :: _ => second
  | _ => lit "UNKNOWN"
  end.

(** The texts appended to [return_string]; the numbers come as the
    texts [str] has made of them. *)
Definition title_line (title : str) : str :=
  lit "TITLE " ++ [dquote] ++ title ++ [dquote] ++ [newline].

Definition track_header (counter_text : str) : str :=
  lit "  TRACK " ++ zfill 2 counter_text ++ lit " AUDIO".

Definition index_time (minutes_text seconds_text : str) : str :=
  zfill 2 minutes_text ++ lit ":" ++ zfill 2 seconds_text.

Definition track_block (counter_text title artist : str)
  (minutes_text seconds_text : str) : str :=
  track_header counter_text ++ [newline]
  ++ lit "    TITLE " ++ [dquote] ++ title ++ [dquote] ++ [newline]
  ++ lit "    PERFORMER " ++ [dquote] ++ artist ++ [dquote] ++ [newline]
  ++ lit "    INDEX 01 " ++ index_time minutes_text seconds_text ++ [newline].

Definition is_title_line (line : str) : bool :=
  startswith (lit "Title:") line || startswith (lit "# Title:") line.

(** The loop's state: [track_counter] and [return_string]. *)
Definition gen_state : Type := (Z * str)%type.

(** One turn of the loop of [parse_input_file]; [order_artist_first] is
    the module-level flag [ORDER_ARTIST_FIRST].  The three calls of [str]
    are made in the order of the lines that hold them; what was appended
    before one of them raises is lost with [return_string]. *)
Definition parse_line (order_artist_first : bool) (st : gen_state)
  (line : str) : result gen_state :=
  let '(track_counter, return_string) := st in
  if is_title_line line then
    Ok (track_counter,
        return_string ++ title_line (last_field (split (lit "Title: ") line)))
  else if str_eqb line [] then Ok st
  else
    let first_substring := hd [] (split (lit " ") line) in
    if is_timestamp first_substring then
      let s1 := get_string1 line in
      let s2 := get_string2 line in
      let artist := if order_artist_first then s1 else s2 in
      let title := if order_artist_first then s2 else s1 in
      bind (get_min_sec_from_timestamp first_substring)
        (fun '(minutes, seconds) =>
      bind (str_of_int track_counter) (fun counter_text =>
      bind (str_of_int minutes) (fun minutes_text =>
      bind (str_of_int seconds) (fun seconds_text =>
        Ok ((track_counter + 1)%Z,
            return_string
            ++ track_block counter_text title artist
                           minutes_text seconds_text)))))
    else Ok st.

Fixpoint parse_lines (order_artist_first : bool) (st : gen_state)
  (contents : list str) : result gen_state :=
  match contents with
  | [] => Ok st
  | line :: rest =>
      bind (parse_line order_artist_first st line)
           (fun st' => parse_lines order_artist_first st' rest)
  end.

Definition parse_input_file (order_artist_first : bool)
  (contents : list str) : result str :=
  bind (parse_lines order_artist_first (1%Z, []) contents)
       (fun st => Ok (snd st)).

(** ** The script's entry point *)

(** Reading a text file: line ends are translated to a line feed, and
    [readline] returns the text up to and including the next one. *)
Fixpoint universal_newlines (s : str) : str :=
  match s with
  | [] => []
  | c :: s' =>
      if Ascii.eqb c creturn then
        newline ::
        match s' with
        | d :: s'' =>
            if Ascii.eqb d newline then universal_newlines s''
            else universal_newlines s'
        | [] => []
        end
      else c :: universal_newlines s'
  end.

Fixpoint readlines_go (cur : str) (s : str) : list str :=
  match s with
  | [] => match cur with [] => [] | _ :: _ => [cur] end
  | c :: s' =>
      if Ascii.eqb c newline then (cur ++ [c]) :: readlines_go [] s'
      else readlines_go (cur ++ [c]) s'
  end.

Definition readlines (text : str) : list str :=
  readlines_go [] (universal_newlines text).

Definition lines_of_text (text : str) : list str :=
  map (remove_char newline) (readlines text).

Definition construct_output_file_path (input_path : str) : str :=
  join (lit ".") (removelast (split (lit ".") input_path)) ++ lit ".cue".

(** The file system, as far as the script sees it, and what it prints:
    the text of each file that can be read, the paths that exist but
    that [open] refuses (directories), and the standard output. *)
Inductive printed : Type :=
| PrintText (s : str)
| PrintError (e : exn).

Record world : Type := World {
  files : str -> option str;
  directories : str -> bool;
  stdout : list printed
}.

(** [os.path.exists(path)]. *)
Definition exists_path (path : str) (w : world) : bool :=
  match files w path with
  | Some _ => true
  | None => directories w path
  end.

(** [open(path, 'w+')] and [write(text)]. *)
Definition write_file (path text : str) (w : world) : result world :=
  if directories w path then Raise OSError
  else Ok (World (fun p => if str_eqb p path then Some text else files w p)
                 (directories w) (stdout w)).

Definition print (p : printed) (w : world) : world :=
  World (files w) (directories w) (stdout w ++ [p]).

Definition read_input_file (path : str) (w : world) : result (list str) :=
  match files w path with
  | Some text => Ok (lines_of_text text)
  | None => Raise OSError
  end.

Definition get_tracklist_input_file (argv1 : option str) (w : world)
  : result str :=
  match argv1 with
  | None => Raise (Exception (lit "Missing file path as argument!"))
  | Some file_path =>
      if exists_path file_path w then Ok file_path
      else Raise (Exception (lit "Can't find input file :("))
  end.

(** The [__main__] block: the final world and the exit status. *)
Definition main (argv1 : option str) (w : world) : world * Z :=
  match get_tracklist_input_file argv1 w with
  | Raise e => (print (PrintError e) w, 1%Z)
  | Ok in_file_path =>
      let order_artist_first :=
        negb (contains (lit "_title_artist.") in_file_path) in
      match read_input_file in_file_path w with
      | Raise e => (print (PrintError e) w, 1%Z)
      | Ok in_file =>
          match parse_input_file order_artist_first in_file with
          | Raise e => (print (PrintError e) w, 1%Z)
          | Ok parse_result =>
              let w' := print (PrintText parse_result) w in
              match write_file (construct_output_file_path in_file_path)
                               parse_result w' with
              | Raise e => (print (PrintError e) w', 1%Z)
              | Ok w'' => (w'', 0%Z)
              end
          end
      end
  end.

End CueGenerator.

(* ================================================================== *)
(** * [postprocess_cue_tracks.py] *)
(* ================================================================== *)

Module Postprocess.
Import Py.

(** [TRACK_PREFIX_RE]: [^\s*0*(\d{1,3})\s*[-_.\s]+\s*(.+)$]. *)
Definition TRACK_PREFIX_RE : list Re.item :=
  [ Re.star isspace;
    Re.star (Ascii.eqb "0");
    Re.Rep isdecimal 1 (Some 3);
    Re.star isspace;
    Re.plus Re.separator;
    Re.star isspace;
    Re.plus Re.dot ].

(** [int(m.group(1))] for [m = TRACK_PREFIX_RE.match(name)], when there
    is a match. *)
Definition prefix_number (name : str) : option Z :=
  match Re.match_items TRACK_PREFIX_RE Re.at_end name with
  | Some (segs, _) =>
      match int (nth 2 segs []) with
      | Ok z => Some z
      | Raise _ => None
      end
  | None => None
  end.

(** ** The sheet *)

Record album_info : Type := Album {
  album_PERFORMER : option str;
  album_TITLE : option str;
  album_REM : list (str * str);
  album_FILE : option str
}.

Record track_info : Type := Track {
  number : Z;
  track_TITLE : option str;
  track_PERFORMER : option str;
  track_INDEX : option (list str)
}.

Record cue : Type := Cue {
  album : album_info;
  tracks : list track_info
}.

(** [d[k] = v] on a dictionary kept in insertion order. *)
Fixpoint dict_set (k v : str) (d : list (str * str)) : list (str * str) :=
  match d with
  | [] => [(k, v)]
  | (k', v') :: d' =>
      if str_eqb k' k then (k, v) :: d' else (k', v') :: dict_set k v d'
  end.

Fixpoint dict_get (k : str) (d : list (str * str)) : option str :=
  match d with
  | [] => None
  | (k', v) :: d' => if str_eqb k' k then Some v else dict_get k d'
  end.

(** [l[i]] with its [IndexError]. *)
Definition index {A} (l : list A) (i : nat) : result A :=
  match nth_error l i with
  | Some a => Ok a
  | None => Raise IndexError
  end.

(** [line.partition(' ')[2].strip()], then stripped of double quotes. *)
Definition field_text (line : str) : str :=
  strip_char dquote (strip (partition_after " " line)).

(** Group 1 of the search for a double quote, one or more characters
    other than a double quote, and a double quote. *)
Definition quoted_name (line : str) : option str :=
  match Re.search
          [ Re.one dquote;
            Re.plus (fun c => negb (Ascii.eqb c dquote));
            Re.one dquote ]
          (fun _ => true) line with
  | Some (segs, _) => Some (nth 1 segs [])
  | None => None
  end.

(** The state of the loop of [parse_cue]: [album], [tracks],
    [current_track]. *)
Record cue_state : Type := CueState {
  st_album : album_info;
  st_tracks : list track_info;
  st_current : option track_info
}.

Definition cue_start : cue_state :=
  CueState (Album None None [] None) [] None.

Definition tokenize (line : str) : result (list str) :=
  if mem_char dquote line then Shlex.split line else Ok (split_ws 2 line).

(** One turn of the loop of [parse_cue] on the line [raw]. *)
Definition cue_line (st : cue_state) (raw : str) : result cue_state :=
  let line := strip raw in
  if str_eqb line [] then Ok st
  else
    bind (tokenize line) (fun parts =>
    bind (index parts 0) (fun p0 =>
    let key := upper p0 in
    let a := st_album st in
    if str_eqb key (lit "REM") then
      match parts with
      | _ :: p1 :: p2 :: _ =>
          Ok (CueState
                (Album (album_PERFORMER a) (album_TITLE a)
                       (dict_set p1 (strip_char dquote p2) (album_REM a))
                       (album_FILE a))
                (st_tracks st) (st_current st))
      | _ => Ok st
      end
    else
      match st_current st with
      | None =>
          if str_eqb key (lit "PERFORMER") then
            Ok (CueState
                  (Album (Some (field_text line)) (album_TITLE a)
                         (album_REM a) (album_FILE a))
                  (st_tracks st) None)
          else if str_eqb key (lit "TITLE") then
            Ok (CueState
                  (Album (album_PERFORMER a) (Some (field_text line))
                         (album_REM a) (album_FILE a))
                  (st_tracks st) None)
          else if str_eqb key (lit "FILE") then
            bind (match quoted_name line with
                  | Some g => Ok g
                  | None =>
                      bind (index parts 1)
                           (fun p1 => Ok (strip_char dquote p1))
                  end)
                 (fun f =>
                    Ok (CueState
                          (Album (album_PERFORMER a) (album_TITLE a)
                                 (album_REM a) (Some f))
                          (st_tracks st) None))
          else if str_eqb key (lit "TRACK") then
            bind (index parts 1) (fun p1 =>
            bind (int p1) (fun num =>
            Ok (CueState a (st_tracks st)
                         (Some (Track num None None None)))))
          else Ok st
      | Some t =>
          if str_eqb key (lit "FILE") then
            bind (match quoted_name line with
                  | Some g => Ok g
                  | None =>
                      bind (index parts 1)
                           (fun p1 => Ok (strip_char dquote p1))
                  end)
                 (fun f =>
                    Ok (CueState
                          (Album (album_PERFORMER a) (album_TITLE a)
                                 (album_REM a) (Some f))
                          (st_tracks st) (Some t)))
          else if str_eqb key (lit "TRACK") then
            bind (index parts 1) (fun p1 =>
            bind (int p1) (fun num =>
            Ok (CueState a (st_tracks st ++ [t])
                         (Some (Track num None None None)))))
          else if str_eqb key (lit "PERFORMER") then
            Ok (CueState a (st_tracks st)
                  (Some (Track (number t) (track_TITLE t)
                               (Some (field_text line)) (track_INDEX t))))
          else if str_eqb key (lit "TITLE") then
            Ok (CueState a (st_tracks st)
                  (Some (Track (number t) (Some (field_text line))
                               (track_PERFORMER t) (track_INDEX t))))
          else if str_eqb key (lit "INDEX") then
            Ok (CueState a (st_tracks st)
                  (Some (Track (number t) (track_TITLE t)
                               (track_PERFORMER t) (Some (tl parts)))))
          else Ok st
      end)).

Fixpoint cue_lines (st : cue_state) (raws : list str) : result cue_state :=
  match raws with
  | [] => Ok st
  | raw :: rest => bind (cue_line st raw) (fun st' => cue_lines st' rest)
  end.

(** [parse_cue], on the lines of the sheet file as iteration over the
    open file yields them. *)
Definition parse_cue (raws : list str) : result cue :=
  bind (cue_lines cue_start raws) (fun st =>
    Ok (Cue (st_album st)
            (match st_current st with
             | Some t => st_tracks st ++ [t]
             | None => st_tracks st
             end))).

(** ** Matching tracks and files *)

Section Matching.

(** [tracks_dir.glob(pattern)]: the names of the entries of a directory
    that match a pattern, in the order the directory lists them.  The
    matcher returns one of these entries; an entry is identified by its
    name. *)
Variable glob : str -> str -> list str.

Definition number_matches (track_num : Z) (candidate : str) : bool :=
  match prefix_number candidate with
  | Some z => (z =? track_num)%Z
  | None => false
  end.

Definition find_track_file (tracks_dir : str) (track_num : Z)
  (pattern : str) : option str :=
  let padded := format_02d track_num in
  let candidates := glob tracks_dir pattern in
  match find (number_matches track_num) candidates with
  | Some candidate => Some candidate
  | None =>
      match find (contains padded) candidates with
      | Some candidate => Some candidate
      | None =>
          if (length candidates =? 1)%nat
             && (length (glob tracks_dir pattern) =? 1)%nat
          then nth_error candidates 0
          else None
      end
  end.

(** [sanitize_filename]: every run of characters of the class
    (slash, question mark, percent, colon, star, bar, double quote, angle
    brackets, control characters) is deleted, then the text is stripped. *)
Definition problematic (c : ascii) : bool :=
  existsb (Ascii.eqb c) (lit "/?%:*|<>") || Ascii.eqb c dquote
  || (code c <=? 31)%N.

Definition sanitize_filename (name : str) : str :=
  strip (filter (fun c => negb (problematic c)) name).

(** [re.sub(r'^\s*0*%d\s*[-_.\s]+' % tn, '', name)]. *)
Definition strip_number_and_separator (tn : Z) (name : str) : str :=
  Re.sub_prefix
    ([Re.star isspace; Re.star (Ascii.eqb "0")]
     ++ Re.literal (str_of_Z tn)
     ++ [Re.star isspace; Re.plus Re.separator])
    name.

(** [re.sub(r'^\s*0*%d\s+' % tn, '', name)]. *)
Definition strip_number_and_space (tn : Z) (name : str) : str :=
  Re.sub_prefix
    ([Re.star isspace; Re.star (Ascii.eqb "0")]
     ++ Re.literal (str_of_Z tn)
     ++ [Re.plus isspace])
    name.

Definition base_title (tn : Z) (found_name : str) : str :=
  strip_number_and_space tn (strip_number_and_separator tn found_name).

(** [t.get('TITLE') or f'Track {tn}']. *)
Definition title_or_default (t : track_info) : str :=
  match track_TITLE t with
  | Some (c :: s) => c :: s
  | _ => lit "Track " ++ str_of_Z (number t)
  end.

Definition out_ext (output_format found_name : str) : str :=
  if startswith (lit ".") output_format then output_format
  else match output_format with
       | _ :: _ => lit "." ++ output_format
       | [] => Pathlib.suffix found_name
       end.

(** The name of the file written for a track whose file is
    [found_name]. *)
Definition out_name (tn : Z) (ttitle found_name output_format : str) : str :=
  let b := base_title tn found_name in
  let stem := match Pathlib.stem b with
              | _ :: _ => Pathlib.stem b
              | [] => ttitle
              end in
  let stem := sanitize_filename
                (match stem with _ :: _ => stem | [] => ttitle end) in
  stem ++ out_ext output_format found_name.

(** What the loop of [process] decides for one track: no file, or the
    file found and the name to write. *)
Inductive outcome : Type :=
| NoFile (tn : Z)
| Convert (tn : Z) (found : str) (out : str).

(** One turn of the loop of [process], up to the point where the
    transcoder would be run.  The track numbers come from [int] in
    [parse_cue] and stay within the digit limit, so that their
    conversions to text do not fail. *)
Definition process_track (cue_dirname tracks_dir pattern output_format : str)
  (t : track_info) : result outcome :=
  let tn := number t in
  let ttitle := title_or_default t in
  let found :=
    match find_track_file tracks_dir tn pattern with
    | Some f => Some f
    | None => find_track_file (cue_dirname ++ lit "/tracks") tn pattern
    end in
  match found with
  | None => Ok (NoFile tn)
  | Some f =>
      bind (Pathlib.with_name (out_name tn ttitle f output_format))
           (fun output_name => Ok (Convert tn f output_name))
  end.

Fixpoint process_tracks (cue_dirname tracks_dir pattern output_format : str)
  (ts : list track_info) : result (list outcome) :=
  match ts with
  | [] => Ok []
  | t :: rest =>
      bind (process_track cue_dirname tracks_dir pattern output_format t)
        (fun o =>
      bind (process_tracks cue_dirname tracks_dir pattern output_format rest)
        (fun os => Ok (o :: os)))
  end.

(** [process] with [dry_run] on, for a sheet file that exists: what it
    decides for each track, or the first error raised. *)
Definition process (cue_lines_read : list str)
  (cue_dirname tracks_dir pattern output_format : str)
  : result (list outcome) :=
  bind (parse_cue cue_lines_read) (fun meta =>
    process_tracks cue_dirname tracks_dir pattern output_format
                   (tracks meta)).

End Matching.

End Postprocess.

(* ================================================================== *)
(** * Vocabulary of the properties *)
(* ================================================================== *)

Module Notions.
Import Py CueGenerator Postprocess.

(** The number a text of decimal digits denotes. *)
Definition decimal_value (s : str) : Z :=
  Z.of_N (fold_left (fun acc c => (10 * acc + digit_val c)%N) s 0%N).

(** A text of ASCII decimal digits and colons. *)
Definition decimal_or_colon (s : str) : bool :=
  forallb (fun c => isdecimal c || Ascii.eqb c ":") s.

(** The text before the first space of a line. *)
Definition first_substring (line : str) : str :=
  hd [] (split (lit " ") line).

(** The lines [parse_input_file] turns into a track: not a title line,
    not empty, and starting with a timestamp-like text. *)
Definition is_track_entry (line : str) : bool :=
  negb (is_title_line line) && negb (str_eqb line [])
  && is_timestamp (first_substring line).

(** A track entry whose timestamp converts. *)
Definition well_formed_entry (line : str) : bool :=
  is_ok (get_min_sec_from_timestamp (first_substring line)).

(** An integer that [str] can write: fewer than 4301 digits. *)
Definition within_limit (z : Z) : bool :=
  (Z.abs z <? 10 ^ Z.of_nat max_str_digits)%Z.

(** A field of a timestamp that [int] converts: one to 4300 ASCII
    decimal digits. *)
Definition timestamp_field (f : str) : bool :=
  negb (str_eqb f []) && forallb isdecimal f
  && (length f <=? max_str_digits)%nat.

(** A well-formed timestamp: two or three colon-separated fields of one
    to 4300 ASCII decimal digits each and, with three fields, minutes
    (sixty times the first plus the second) of at most 4300 digits. *)
Definition well_timed (tok : str) : bool :=
  match split (lit ":") tok with
  | [f0; f1] => timestamp_field f0 && timestamp_field f1
  | [f0; f1; f2] =>
      timestamp_field f0 && timestamp_field f1 && timestamp_field f2
      && within_limit (decimal_value f0 * 60 + decimal_value f1)
  | _ => false
  end.

Definition no_newline (s : str) : bool :=
  forallb (fun c => negb (Ascii.eqb c newline)) s.

(** The [TRACK] lines of a generated sheet. *)
Definition track_headers (text : str) : list str :=
  filter (startswith (lit "  TRACK ")) (split [newline] text).

(** [start], [start + 1], ..., [n] numbers in all. *)
Definition count_from (start : Z) (n : nat) : list Z :=
  map (fun i => (start + Z.of_nat i)%Z) (seq 0 n).

(** Lines, each ended by a line feed. *)
Definition unlines (ls : list str) : str :=
  flat_map (fun l => l ++ [newline]) ls.

(** The lines of one track block. *)
Definition block_lines (k : Z) (title artist : str) (m sec : Z) : list str :=
  [ lit "  TRACK " ++ zfill 2 (str_of_Z k) ++ lit " AUDIO";
    lit "    TITLE " ++ [dquote] ++ title ++ [dquote];
    lit "    PERFORMER " ++ [dquote] ++ artist ++ [dquote];
    lit "    INDEX 01 " ++ zfill 2 (str_of_Z m) ++ lit ":"
      ++ zfill 2 (str_of_Z sec) ].

(** No proper suffix of [sep] begins [sep]: two occurrences of [sep]
    never overlap. *)
Definition unbordered (sep : str) : bool :=
  forallb (fun d => negb (startswith (skipn d sep) sep))
          (seq 1 (length sep - 1)).

(** ** Reading a pattern declaratively *)

(** [seg] is a run the repetition [it] may take. *)
Definition fits (it : Re.item) (seg : str) : Prop :=
  forallb (Re.cls it) seg = true
  /\ Re.lo it <= length seg
  /\ match Re.hi it with Some h => length seg <= h | None => True end.

(** The text [s] reads as one run per repetition, then [rest]. *)
Definition reads_as (items : list Re.item) (final : str -> bool)
  (s : str) (segs : list str) (rest : str) : Prop :=
  s = concat segs ++ rest /\ Forall2 fits items segs /\ final rest = true.

(** What [(.+)$] takes: a non-empty text without line feed, up to the
    end or to a single final line feed. *)
Definition remainder (rest : str) : Prop :=
  exists body tail,
    rest = body ++ tail /\ body <> []
    /\ forallb Re.dot body = true /\ Re.at_end tail = true.

(** The file names [TRACK_PREFIX_RE] accepts with leading number [n]:
    optional white space, optional zeros, one to three decimal digits
    that denote [n], one or more separators (hyphen, underscore, dot,
    white space), and a remainder. *)
Definition prefix_form (name : str) (n : Z) : Prop :=
  exists ws zeros digits seps rest,
    name = ws ++ zeros ++ digits ++ seps ++ rest
    /\ forallb isspace ws = true
    /\ forallb (Ascii.eqb "0") zeros = true
    /\ forallb isdecimal digits = true
    /\ 1 <= length digits <= 3
    /\ seps <> [] /\ forallb Re.separator seps = true
    /\ remainder rest
    /\ decimal_value digits = n.


(** ** Lines the Sheet Parser gets through *)

Definition known_key (key : str) : bool :=
  existsb (str_eqb key)
    [lit "REM"; lit "PERFORMER"; lit "TITLE"; lit "FILE"; lit "TRACK";
     lit "INDEX"].

(** Where a reading of a line from left to right stands: outside any
    quotation, between single quotes, or between double quotes. *)
Inductive quoting : Type :=
| Outside
| InSingle
| InDouble.

(** No quotation is left open and no backslash is left dangling.  A
    single quote opens a stretch that the next single quote closes; a
    double quote opens a stretch that the next double quote closes,
    unless a backslash stands before it; outside single quotes a
    backslash takes the character after it along, and is left dangling
    when there is none. *)
Fixpoint quoting_closed (q : quoting) (s : str) : bool :=
  match s with
  | [] => match q with Outside => true | _ => false end
  | c :: s' =>
      match q with
      | Outside =>
          if Ascii.eqb c backslash then
            match s' with
            | [] => false
            | _ :: s'' => quoting_closed Outside s''
            end
          else if Ascii.eqb c squote then quoting_closed InSingle s'
          else if Ascii.eqb c dquote then quoting_closed InDouble s'
          else quoting_closed Outside s'
      | InSingle =>
          if Ascii.eqb c squote then quoting_closed Outside s'
          else quoting_closed InSingle s'
      | InDouble =>
          if Ascii.eqb c dquote then quoting_closed Outside s'
          else if Ascii.eqb c backslash then
            match s' with
            | [] => false
            | _ :: s'' => quoting_closed InDouble s''
            end
          else quoting_closed InDouble s'
      end
  end.

(** A group of an integer literal: one or more ASCII decimal digits. *)
Definition digit_group (g : str) : bool :=
  negb (str_eqb g []) && forallb isdecimal g.

(** The text of an integer: white space around it apart, an optional
    sign, then groups of decimal digits joined by single underscores, of
    at most 4300 digits in all. *)
Definition integer_literal (s : str) : bool :=
  let t := strip_by int_space s in
  let body :=
    match t with
    | c :: r => if Ascii.eqb c "-" || Ascii.eqb c "+" then r else t
    | [] => t
    end in
  forallb digit_group (split (lit "_") body)
  && (length (filter isdecimal body) <=? max_str_digits)%nat.

(** The line holds a name between double quotes: a double quote, one or
    more characters other than a double quote, and a double quote. *)
Definition holds_quoted_name (line : str) : Prop :=
  exists a b c,
    line = a ++ dquote :: b ++ dquote :: c
    /\ b <> []
    /\ forallb (fun x => negb (Ascii.eqb x dquote)) b = true.

(** What the keyword asks of the fields of a line: after [TRACK], in any
    capitals, a second field that is the text of an integer; after
    [FILE] a second field, unless the line holds a quoted name. *)
Definition keyword_met (line : str) (parts : list str) : Prop :=
  (upper (hd [] parts) = lit "TRACK" ->
   exists p1, nth_error parts 1 = Some p1 /\ integer_literal p1 = true)
  /\ (upper (hd [] parts) = lit "FILE" ->
      1 < length parts \/ holds_quoted_name line).

(** A line of a sheet is tolerated when it is blank or when, stripped,
    it leaves no quotation open and no backslash dangling if it holds a
    double quote, and its fields have what its keyword asks. *)
Definition tolerated (raw : str) : Prop :=
  let line := strip raw in
  line = []
  \/ ((mem_char dquote line = true -> quoting_closed Outside line = true)
      /\ forall parts, tokenize line = Ok parts -> keyword_met line parts).

(** ** Sheets written and read back *)






(** Neither line feed nor carriage return. *)
Definition inline_char (c : ascii) : bool :=
  negb (Ascii.eqb c newline) && negb (Ascii.eqb c creturn).





(** The tracks of a sheet read so far, the open one included. *)
Definition closed_tracks (st : cue_state) : list track_info :=
  st_tracks st
  ++ match st_current st with Some t => [t] | None => [] end.




(** A tracklist file, for the examples. *)
Definition sample_path : str := lit "album/tracklist.txt".

Definition sample_text : str :=
  lit "# Title: Demo" ++ [newline]
  ++ lit "00:00 Artist A - Track One" ++ [newline]
  ++ lit "1:2:3:4 Artist B - Track Two" ++ [newline].

Definition sample_lines : list str :=
  [ lit "# Title: Demo";
    lit "00:00 Artist A - Track One";
    lit "REM Genre Ambient";
    lit "03:15 Artist B - Track Two" ].

Definition sample_world : world :=
  World (fun p => if str_eqb p sample_path then Some sample_text else None)
        (fun _ => false) [].

End Notions.

(* ================================================================== *)
(** * [postprocess_cue_tracks.py]: the transcoder command *)
(* ================================================================== *)

Module Commands.
Import Py.

(** The [tags] dictionary: keys in insertion order, a value or [None]. *)
Definition tag_dict : Type := list (str * option str).

(** The loop over [tags.items()]: a tag without value is passed over,
    the others add two arguments to [cmd]. *)
Definition add_tag (cmd : list str) (tag : str * option str) : list str :=
  match snd tag with
  | None => cmd
  | Some value => cmd ++ [lit "-metadata"; fst tag ++ lit "=" ++ value]
  end.

Definition build_ffmpeg_command (input_path output_path : str)
  (tags : tag_dict) (copy_audio : bool) : list str :=
  let cmd := [lit "ffmpeg"; lit "-y"; lit "-i"; input_path] in
  let cmd := fold_left add_tag tags cmd in
  let cmd := if copy_audio then cmd ++ [lit "-c"; lit "copy"]
             else cmd ++ [lit "-c:a"; lit "alac"] in
  cmd ++ [output_path].

(** The command [process] builds by hand after a failed copy. *)
Definition fallback_command (found output_path : str) (tags : tag_dict)
  : list str :=
  let fallback := [lit "ffmpeg"; lit "-y"; lit "-i"; found] in
  let fallback := fold_left add_tag tags fallback in
  fallback ++ [lit "-c:a"; lit "alac"; output_path].

End Commands.

(* ================================================================== *)
(** * Vocabulary of the further properties *)
(* ================================================================== *)

Module Survey.
Import Py CueGenerator Postprocess Commands Notions.

(** The lines [parse_input_file] does not pass over. *)
Definition consumed (line : str) : bool :=
  is_title_line line || is_track_entry line.

(** The fields of a sheet line, when it is not blank and splits. *)
Definition line_fields (raw : str) : option (list str) :=
  let line := strip raw in
  if str_eqb line [] then None
  else match tokenize line with
       | Ok parts => Some parts
       | Raise _ => None
       end.

(** The number a [TRACK] line declares. *)
Definition declared_number (raw : str) : option Z :=
  match line_fields raw with
  | Some (p0 :: p1 :: _) =>
      if str_eqb (upper p0) (lit "TRACK")
      then match int p1 with Ok z => Some z | Raise _ => None end
      else None
  | _ => None
  end.

Fixpoint declared_numbers (raws : list str) : list Z :=
  match raws with
  | [] => []
  | raw :: rest =>
      match declared_number raw with
      | Some z => z :: declared_numbers rest
      | None => declared_numbers rest
      end
  end.

(** The tags that carry a value. *)
Fixpoint valued (tags : tag_dict) : list (str * str) :=
  match tags with
  | [] => []
  | (key, Some value) :: rest => (key, value) :: valued rest
  | (_, None) :: rest => valued rest
  end.

Definition metadata_args (tags : tag_dict) : list str :=
  flat_map (fun kv => [lit "-metadata"; fst kv ++ lit "=" ++ snd kv])
           (valued tags).

(** A world with a tracklist whose entries are all well formed. *)
Definition good_text : str :=
  lit "# Title: Demo" ++ [creturn; newline]
  ++ lit "00:00 Artist A - Track One" ++ [newline]
  ++ lit "REM Genre Ambient" ++ [newline]
  ++ lit "03:15 Artist B - Track Two".

Definition good_world : world :=
  World (fun p => if str_eqb p sample_path then Some good_text else None)
        (fun p => str_eqb p (lit "album")) [].

End Survey.

(* ================================================================== *)
(** * Properties *)
(* ================================================================== *)

Section PyFacts.
Import Py.

Lemma str_eqb_eq (a b : str) : str_eqb a b = true <-> a = b.
Proof.
  unfold str_eqb. destruct (list_eq_dec ascii_dec a b); split; congruence.
Qed.

Lemma str_eqb_neq (a b : str) : str_eqb a b = false <-> a <> b.
Proof.
  unfold str_eqb. destruct (list_eq_dec ascii_dec a b); split; congruence.
Qed.

Lemma str_eqb_refl (a : str) : str_eqb a a = true.
Proof. now apply str_eqb_eq. Qed.

Lemma startswith_app (p r : str) : startswith p (p ++ r) = true.
Proof.
  induction p as [|a p IH]; simpl; [reflexivity|].
  now rewrite Ascii.eqb_refl, IH.
Qed.

Lemma startswith_inv (p s : str) :
  startswith p s = true -> exists r, s = p ++ r.
Proof.
  revert s. induction p as [|a p IH]; intros s H.
  - now exists s.
  - destruct s as [|b s]; simpl in H; [discriminate|].
    apply andb_prop in H as [Hab Hps].
    apply Ascii.eqb_eq in Hab. subst b.
    destruct (IH _ Hps) as [r ->]. now exists r.
Qed.

(** Skipping the rest of a recognised separator. *)
Lemma split_go_skip (sep : str) (k : nat) (cur s : str) :
  k <= length s ->
  split_go sep k cur s = split_go sep 0 cur (skipn k s).
Proof.
  revert k. induction s as [|c s IH]; intros k Hk.
  - destruct k; [reflexivity | simpl in Hk; lia].
  - destruct k; [reflexivity|]. simpl in Hk.
    change (split_go sep (S k) cur (c :: s)) with (split_go sep k cur s).
    rewrite IH by lia. reflexivity.
Qed.

Lemma split_go_match (sep cur r : str) :
  sep <> [] ->
  split_go sep 0 cur (sep ++ r) = rev cur :: split_go sep 0 [] r.
Proof.
  intros Hsep. destruct sep as [|a sep]; [congruence|].
  change ((a :: sep) ++ r) with (a :: (sep ++ r)).
  cbn [split_go].
  change (a :: sep ++ r) with ((a :: sep) ++ r).
  rewrite startswith_app.
  rewrite split_go_skip by (simpl; rewrite length_app; lia).
  f_equal. f_equal. simpl. rewrite Nat.sub_0_r.
  rewrite skipn_app, skipn_all, Nat.sub_diag. reflexivity.
Qed.

Lemma split_go_step (sep cur : str) (c : ascii) (s : str) :
  startswith sep (c :: s) = false ->
  split_go sep 0 cur (c :: s) = split_go sep 0 (c :: cur) s.
Proof. intros H. cbn [split_go]. now rewrite H. Qed.

(** The field being read only prefixes the first field. *)
Lemma split_go_cur (sep : str) (k : nat) (cur s : str) :
  exists h t,
    split_go sep k [] s = h :: t /\
    split_go sep k cur s = (rev cur ++ h) :: t.
Proof.
  revert k cur. induction s as [|c s IH]; intros k cur.
  - exists [], []. simpl. now rewrite app_nil_r.
  - destruct k as [|k].
    + cbn [split_go]. destruct (startswith sep (c :: s)).
      * exists [], (split_go sep (length sep - 1) [] s).
        simpl. now rewrite app_nil_r.
      * destruct (IH 0 [c]) as (h & t & E1 & E2).
        destruct (IH 0 (c :: cur)) as (h' & t' & E1' & E2').
        rewrite E1 in E1'. injection E1' as <- <-.
        exists (rev [c] ++ h), t. split; [exact E2|].
        rewrite E2'. simpl. now rewrite <- app_assoc.
    + cbn [split_go]. apply IH.
Qed.

(** Every character of every field comes from the text. *)
Lemma split_go_chars (P : ascii -> Prop) (sep : str) (k : nat) (cur s : str) :
  Forall P cur -> Forall P s ->
  Forall (Forall P) (split_go sep k cur s).
Proof.
  revert k cur. induction s as [|c s IH]; intros k cur Hc Hs.
  - simpl. constructor; [|constructor]. now apply Forall_rev.
  - inversion Hs; subst. destruct k as [|k]; cbn [split_go].
    + destruct (startswith sep (c :: s)).
      * constructor; [now apply Forall_rev|]. apply IH; auto.
      * apply IH; auto.
    + apply IH; auto.
Qed.

Lemma split_chars (P : ascii -> Prop) (sep s : str) :
  Forall P s -> Forall (Forall P) (split sep s).
Proof. intros H. apply split_go_chars; auto. Qed.

Lemma split_nonempty (sep s : str) : split sep s <> [].
Proof.
  unfold split. destruct (split_go_cur sep 0 [] s) as (h & t & E & _).
  rewrite E. discriminate.
Qed.

(** A text without the separator is one field. *)
Lemma split_go_absent (sep cur s : str) :
  contains sep s = false ->
  split_go sep 0 cur s = [rev cur ++ s].
Proof.
  revert cur. induction s as [|c s IH]; intros cur H.
  - simpl. now rewrite app_nil_r.
  - simpl in H. apply orb_false_iff in H as [H1 H2].
    rewrite split_go_step by exact H1.
    rewrite IH by exact H2. simpl. now rewrite <- app_assoc.
Qed.

Lemma split_absent (sep s : str) :
  contains sep s = false -> split sep s = [s].
Proof. intros H. unfold split. now rewrite split_go_absent. Qed.

Lemma contains_app_l (sep a b : str) :
  contains sep a = true -> contains sep (a ++ b) = true.
Proof.
  induction a as [|c a IH]; simpl.
  - rewrite orb_false_r. intros H.
    destruct sep; [|discriminate]. destruct b; reflexivity.
  - intros H. apply orb_true_iff in H as [H|H].
    + apply startswith_inv in H as [r E].
      change (c :: a ++ b) with ((c :: a) ++ b). rewrite E, <- app_assoc.
      now rewrite startswith_app.
    + rewrite (IH H). apply orb_true_r.
Qed.

End PyFacts.

Section NumberFacts.
Import Py Notions.

Lemma dropwhile_none (p : ascii -> bool) (s : str) :
  forallb (fun c => negb (p c)) s = true -> dropwhile p s = s.
Proof.
  destruct s as [|c s]; simpl; [reflexivity|].
  intros H. apply andb_prop in H as [H _].
  now destruct (p c).
Qed.

Lemma forallb_rev (p : ascii -> bool) (s : str) :
  forallb p (rev s) = forallb p s.
Proof.
  induction s as [|c s IH]; simpl; [reflexivity|].
  rewrite forallb_app, IH. simpl. rewrite andb_true_r. apply andb_comm.
Qed.

Lemma strip_by_none (p : ascii -> bool) (s : str) :
  forallb (fun c => negb (p c)) s = true -> strip_by p s = s.
Proof.
  intros H. unfold strip_by, rstrip_by, lstrip_by.
  rewrite (dropwhile_none p s H).
  rewrite dropwhile_none by now rewrite forallb_rev.
  apply rev_involutive.
Qed.

Lemma forallb_impl (p q : ascii -> bool) (s : str) :
  (forall c, p c = true -> q c = true) ->
  forallb p s = true -> forallb q s = true.
Proof.
  intros Hpq. induction s as [|c s IH]; simpl; [reflexivity|].
  intros H. apply andb_prop in H as [H1 H2].
  now rewrite (Hpq _ H1), IH.
Qed.

Lemma isdecimal_plain (c : ascii) :
  isdecimal c = true ->
  int_space c = false /\ Ascii.eqb c "-" = false /\ Ascii.eqb c "+" = false
  /\ isdigit c = true /\ Ascii.eqb c ":" = false /\ Ascii.eqb c newline = false.
Proof.
  destruct c as [[|] [|] [|] [|] [|] [|] [|] [|]];
    vm_compute; intros H; try discriminate H; repeat split.
Qed.

Lemma int_body_decimal (s : str) (b : bool) (acc : N) :
  forallb isdecimal s = true ->
  int_body b acc s =
  match s with
  | [] => if b then Some acc else None
  | _ :: _ => Some (fold_left (fun a c => (10 * a + digit_val c)%N) s acc)
  end.
Proof.
  revert b acc. induction s as [|c s IH]; intros b acc H; [reflexivity|].
  simpl in H. apply andb_prop in H as [Hc Hs].
  cbn [int_body]. rewrite Hc, (IH _ _ Hs).
  destruct s; reflexivity.
Qed.

(** [int] on a non-empty text of decimal digits: its decimal value
    within the digit limit, [ValueError] beyond. *)
Lemma int_digits (s : str) :
  s <> [] -> forallb isdecimal s = true ->
  int s = if (max_str_digits <? length s)%nat then Raise ValueError
          else Ok (decimal_value s).
Proof.
  intros Hne Hd. unfold int.
  rewrite strip_by_none.
  2:{ eapply forallb_impl; [|exact Hd]. intros c Hc.
      now destruct (isdecimal_plain c Hc) as (-> & _). }
  destruct s as [|c s]; [congruence|].
  pose proof Hd as Hd'. simpl in Hd'. apply andb_prop in Hd' as [Hc _].
  destruct (isdecimal_plain c Hc) as (_ & -> & -> & _).
  rewrite (int_body_decimal _ _ _ Hd), (forallb_filter_id _ _ Hd).
  reflexivity.
Qed.

Lemma int_decimal (s : str) :
  s <> [] -> forallb isdecimal s = true -> length s <= max_str_digits ->
  int s = Ok (decimal_value s).
Proof.
  intros Hne Hd Hl. rewrite (int_digits s Hne Hd).
  destruct (max_str_digits <? length s)%nat eqn:E; [|reflexivity].
  apply Nat.ltb_lt in E. lia.
Qed.

Lemma int_long (s : str) :
  forallb isdecimal s = true -> max_str_digits < length s ->
  int s = Raise ValueError.
Proof.
  intros Hd Hl.
  assert (Hne : s <> []).
  { intros ->. cbn in Hl. lia. }
  rewrite (int_digits s Hne Hd).
  apply Nat.ltb_lt in Hl. now rewrite Hl.
Qed.

(** A text of [n] decimal digits denotes a number below the [n]-th
    power of ten. *)
Lemma decimal_value_bound (s : str) :
  forallb isdecimal s = true ->
  (0 <= decimal_value s < 10 ^ Z.of_nat (length s))%Z.
Proof.
  intros Hd. unfold decimal_value.
  assert (G : forall acc : N,
             (fold_left (fun a c => 10 * a + digit_val c) s acc
              < (acc + 1) * 10 ^ N.of_nat (length s))%N).
  { induction s as [|c s IH]; intros acc.
    - cbn. lia.
    - cbn [forallb] in Hd. apply andb_prop in Hd as [Hc Hs].
      cbn [fold_left length]. specialize (IH Hs (10 * acc + digit_val c)%N).
      rewrite Nat2N.inj_succ, N.pow_succ_r'.
      assert (Hv : (digit_val c < 10)%N).
      { unfold isdecimal in Hc. apply andb_prop in Hc as [H1 H2].
        apply N.leb_le in H1, H2. unfold digit_val. lia. }
      eapply N.lt_le_trans; [exact IH|].
      rewrite N.mul_assoc. apply N.mul_le_mono_r. lia. }
  specialize (G 0%N). split; [lia|].
  rewrite <- nat_N_Z. change 10%Z with (Z.of_N 10).
  rewrite <- N2Z.inj_pow. lia.
Qed.

Lemma int_empty : int [] = Raise ValueError.
Proof. reflexivity. Qed.

(** What [int] makes of a field of decimal digits. *)
Lemma int_field (f : str) :
  forallb isdecimal f = true ->
  int f = if timestamp_field f then Ok (decimal_value f)
          else Raise ValueError.
Proof.
  intros Hd. destruct f as [|c f]; [reflexivity|].
  rewrite (int_digits (c :: f) ltac:(discriminate) Hd).
  unfold timestamp_field. rewrite Hd.
  assert (N : str_eqb (c :: f) [] = false) by now apply str_eqb_neq.
  rewrite N. cbn [negb andb]. rewrite Nat.ltb_antisym.
  now destruct (length (c :: f) <=? max_str_digits)%nat.
Qed.

Lemma timestamp_field_spec (f : str) :
  timestamp_field f = true <->
  f <> [] /\ forallb isdecimal f = true /\ length f <= max_str_digits.
Proof.
  unfold timestamp_field. rewrite !andb_true_iff, negb_true_iff.
  rewrite str_eqb_neq, Nat.leb_le. tauto.
Qed.

Lemma decimal_fields (s : str) :
  decimal_or_colon s = true ->
  Forall (fun f => forallb isdecimal f = true) (split (lit ":") s).
Proof.
  intros H. unfold decimal_or_colon in H.
  assert (Hs : Forall (fun c => Ascii.eqb c ":" = false -> isdecimal c = true) s).
  { apply Forall_forall. intros c Hc.
    rewrite forallb_forall in H. specialize (H c Hc).
    intros E. now rewrite E, orb_false_r in H. }
  clear H. unfold split. change (lit ":") with [":"].
  assert (G : forall cur,
             forallb isdecimal cur = true ->
             Forall (fun f => forallb isdecimal f = true)
                    (split_go [":"] 0 cur s)).
  { induction Hs as [|c s Hc Hs IH]; intros cur Hcur.
    - simpl. constructor; [|constructor]. now rewrite forallb_rev.
    - cbn [split_go startswith]. rewrite andb_true_r.
      destruct (Ascii.eqb ":" c) eqn:E.
      + constructor; [now rewrite forallb_rev|]. now apply IH.
      + apply IH. simpl. rewrite Hcur, andb_true_r. apply Hc.
        now rewrite Ascii.eqb_sym. }
  now apply G.
Qed.

End NumberFacts.

Section TimestampProperties.
Import Py CueGenerator Notions.

(** C3, as stated, fails: the text [":5"] consists of digits and colons
    and splits into exactly two fields, yet [get_min_sec_from_timestamp]
    returns no pair; the conversion of the empty first field raises
    [ValueError]. *)
Lemma timestamp_empty_field_counterexample :
  is_timestamp (lit ":5") = true
  /\ split (lit ":") (lit ":5") = [[]; lit "5"]
  /\ get_min_sec_from_timestamp (lit ":5") = Raise ValueError
  /\ forall m sec, get_min_sec_from_timestamp (lit ":5") <> Ok (m, sec).
Proof.
  repeat split; try reflexivity. intros m sec H. discriminate H.
Qed.

(** C3, amended: for every text of ASCII decimal digits and colons, two
    non-empty fields of at most 4300 digits each give (minutes = f0,
    seconds = f1), three such fields give (minutes = f0 * 60 + f1,
    seconds = f2), a field count other than two or three fails with the
    invalid-timestamp error, and among two or three fields one that is
    empty or longer than 4300 digits fails with [ValueError]. *)
Theorem timestamp_fields :
  forall s : str,
    decimal_or_colon s = true ->
    (forall f0 f1,
        split (lit ":") s = [f0; f1] -> f0 <> [] -> f1 <> [] ->
        length f0 <= max_str_digits -> length f1 <= max_str_digits ->
        get_min_sec_from_timestamp s
        = Ok (decimal_value f0, decimal_value f1))
    /\ (forall f0 f1 f2,
        split (lit ":") s = [f0; f1; f2] ->
        f0 <> [] -> f1 <> [] -> f2 <> [] ->
        length f0 <= max_str_digits -> length f1 <= max_str_digits ->
        length f2 <= max_str_digits ->
        get_min_sec_from_timestamp s
        = Ok ((decimal_value f0 * 60 + decimal_value f1)%Z,
              decimal_value f2))
    /\ (length (split (lit ":") s) <> 2 ->
        length (split (lit ":") s) <> 3 ->
        get_min_sec_from_timestamp s = Raise (invalid_timestamp s))
    /\ (length (split (lit ":") s) = 2 \/ length (split (lit ":") s) = 3 ->
        Exists (fun f => f = [] \/ max_str_digits < length f)
               (split (lit ":") s) ->
        get_min_sec_from_timestamp s = Raise ValueError).
Proof.
  intros s Hs. pose proof (decimal_fields s Hs) as Hf.
  unfold get_min_sec_from_timestamp.
  assert (Good : forall f, forallb isdecimal f = true -> f <> [] ->
                           length f <= max_str_digits ->
                           int f = Ok (decimal_value f)).
  { intros f D N L. now apply int_decimal. }
  assert (Bad : forall f, forallb isdecimal f = true ->
                          f = [] \/ max_str_digits < length f ->
                          int f = Raise ValueError).
  { intros f D [->|L]; [reflexivity | now apply int_long]. }
  assert (Any : forall f, forallb isdecimal f = true ->
                          int f = Ok (decimal_value f)
                          \/ int f = Raise ValueError).
  { intros f D. rewrite (int_field f D).
    destruct (timestamp_field f); [now left | now right]. }
  repeat split.
  - intros f0 f1 E H0 H1 L0 L1. rewrite E in *.
    inversion Hf as [|? ? D0 Hf']; subst. inversion Hf' as [|? ? D1 _]; subst.
    rewrite (Good f0 D0 H0 L0), (Good f1 D1 H1 L1). reflexivity.
  - intros f0 f1 f2 E H0 H1 H2 L0 L1 L2. rewrite E in *.
    inversion Hf as [|? ? D0 Hf']; subst.
    inversion Hf' as [|? ? D1 Hf'']; subst.
    inversion Hf'' as [|? ? D2 _]; subst.
    rewrite (Good f0 D0 H0 L0), (Good f1 D1 H1 L1), (Good f2 D2 H2 L2).
    reflexivity.
  - intros N2 N3.
    destruct (split (lit ":") s) as [|a [|b [|c [|d l]]]]; simpl in *;
      try reflexivity; congruence.
  - intros HL HEx.
    destruct (split (lit ":") s) as [|a [|b [|c [|d l]]]]; simpl in HL;
      try (destruct HL; discriminate).
    + inversion Hf as [|? ? D0 Hf']; subst. inversion Hf' as [|? ? D1 _]; subst.
      destruct (Any a D0) as [Ea|Ea]; rewrite Ea; [|reflexivity].
      cbn [bind].
      destruct (Any b D1) as [Eb|Eb]; rewrite Eb; [|reflexivity].
      exfalso. inversion HEx as [? ? B|? ? HEx']; subst.
      { rewrite (Bad a D0 B) in Ea. discriminate Ea. }
      inversion HEx' as [? ? B|? ? HEx'']; subst.
      { rewrite (Bad b D1 B) in Eb. discriminate Eb. }
      inversion HEx''.
    + inversion Hf as [|? ? D0 Hf']; subst.
      inversion Hf' as [|? ? D1 Hf'']; subst.
      inversion Hf'' as [|? ? D2 _]; subst.
      destruct (Any a D0) as [Ea|Ea]; rewrite Ea; [|reflexivity].
      cbn [bind].
      destruct (Any b D1) as [Eb|Eb]; rewrite Eb; [|reflexivity].
      cbn [bind].
      destruct (Any c D2) as [Ec|Ec]; rewrite Ec; [|reflexivity].
      exfalso. inversion HEx as [? ? B|? ? HEx']; subst.
      { rewrite (Bad a D0 B) in Ea. discriminate Ea. }
      inversion HEx' as [? ? B|? ? HEx'']; subst.
      { rewrite (Bad b D1 B) in Eb. discriminate Eb. }
      inversion HEx'' as [? ? B|? ? HEx3]; subst.
      { rewrite (Bad c D2 B) in Ec. discriminate Ec. }
      inversion HEx3.
Qed.

Lemma timestamp_fields_witness :
  decimal_or_colon (lit "1:03:15") = true
  /\ get_min_sec_from_timestamp (lit "1:03:15") = Ok (63%Z, 15%Z).
Proof.
  split; [reflexivity|].
  refine (proj1 (proj2 (timestamp_fields (lit "1:03:15") eq_refl))
            (lit "1") (lit "03") (lit "15") eq_refl
            ltac:(discriminate) ltac:(discriminate) ltac:(discriminate)
            _ _ _); apply Nat.leb_le; vm_compute; reflexivity.
Defined.

End TimestampProperties.

Section TracklistFacts.
Import Py CueGenerator Notions.

Lemma first_substring_cons (c : ascii) (s : str) :
  first_substring (c :: s) =
  if Ascii.eqb " " c then [] else c :: first_substring s.
Proof.
  unfold first_substring, split. change (lit " ") with [" "].
  cbn [split_go startswith]. rewrite andb_true_r.
  destruct (Ascii.eqb " " c); [reflexivity|].
  destruct (split_go_cur [" "] 0 [c] s) as (h & t & E1 & E2).
  rewrite E1, E2. reflexivity.
Qed.

Lemma title_line_not_timestamp (line : str) :
  is_title_line line = true -> is_timestamp (first_substring line) = false.
Proof.
  unfold is_title_line. intros H. apply orb_true_iff in H as [H|H];
    apply startswith_inv in H as [r ->];
    cbn [lit String.list_ascii_of_string app];
    rewrite first_substring_cons; reflexivity.
Qed.

Lemma timestamp_not_title_line (line : str) :
  is_timestamp (first_substring line) = true -> is_title_line line = false.
Proof.
  intros H. destruct (is_title_line line) eqn:E; [|reflexivity].
  apply title_line_not_timestamp in E. congruence.
Qed.

(** The three ways a line is treated. *)
Lemma parse_line_title (flag : bool) (k : Z) (text line : str) :
  is_title_line line = true ->
  parse_line flag (k, text) line
  = Ok (k, text ++ title_line (last_field (split (lit "Title: ") line))).
Proof. intros H. unfold parse_line. now rewrite H. Qed.

Lemma parse_line_entry (flag : bool) (k : Z) (text line : str) :
  is_track_entry line = true ->
  parse_line flag (k, text) line
  = bind (get_min_sec_from_timestamp (first_substring line))
      (fun '(minutes, seconds) =>
    bind (str_of_int k) (fun counter_text =>
    bind (str_of_int minutes) (fun minutes_text =>
    bind (str_of_int seconds) (fun seconds_text =>
      Ok ((k + 1)%Z,
          text ++ track_block counter_text
                    (if flag then get_string2 line else get_string1 line)
                    (if flag then get_string1 line else get_string2 line)
                    minutes_text seconds_text))))).
Proof.
  unfold is_track_entry. intros H.
  apply andb_prop in H as [H H3]. apply andb_prop in H as [H1 H2].
  apply negb_true_iff in H1, H2.
  unfold parse_line. fold (first_substring line).
  now rewrite H1, H2, H3.
Qed.

Lemma parse_line_ignored (flag : bool) (st : gen_state) (line : str) :
  is_title_line line = false -> is_track_entry line = false ->
  parse_line flag st line = Ok st.
Proof.
  unfold is_track_entry. intros H1 H. rewrite H1 in H. simpl in H.
  destruct st as [k text]. unfold parse_line. fold (first_substring line).
  rewrite H1. destruct (str_eqb line []); [reflexivity|].
  simpl in H. now rewrite H.
Qed.

Lemma parse_lines_app (flag : bool) (st : gen_state) (a b : list str) :
  parse_lines flag st (a ++ b)
  = bind (parse_lines flag st a) (fun st' => parse_lines flag st' b).
Proof.
  revert st. induction a as [|l a IH]; intros st; [reflexivity|].
  cbn [app parse_lines].
  destruct (parse_line flag st l); cbn [bind]; [apply IH | reflexivity].
Qed.

(** A failing entry anywhere makes the whole loop fail. *)
Lemma parse_lines_failing_entry (flag : bool) (contents : list str) (line : str) :
  In line contents ->
  is_track_entry line = true ->
  well_formed_entry line = false ->
  forall st, exists e, parse_lines flag st contents = Raise e.
Proof.
  intros HIn He Hw. induction contents as [|l rest IH]; [destruct HIn|].
  intros [k text]. cbn [parse_lines].
  destruct (parse_line flag (k, text) l) as [st'|e] eqn:E; cbn [bind].
  - destruct HIn as [->|HIn].
    + rewrite (parse_line_entry _ _ _ _ He) in E.
      unfold well_formed_entry in Hw.
      destruct (get_min_sec_from_timestamp (first_substring line));
        simpl in *; discriminate.
    + apply (IH HIn).
  - now exists e.
Qed.

Lemma contains_colon_digits (s : str) :
  forallb isdigit s = true -> contains [":"] s = false.
Proof.
  induction s as [|c s IH]; [reflexivity|].
  cbn [forallb contains startswith]. intros H.
  apply andb_prop in H as [Hc Hs].
  rewrite (IH Hs), orb_false_r, andb_true_r.
  destruct (Ascii.eqb ":" c) eqn:E; [|reflexivity].
  apply Ascii.eqb_eq in E. subst c. discriminate Hc.
Qed.

Lemma main_aborts (path text : str) (w : world) (e : exn) :
  files w path = Some text ->
  parse_input_file (negb (contains (lit "_title_artist.") path))
                   (lines_of_text text) = Raise e ->
  main (Some path) w = (print (PrintError e) w, 1%Z).
Proof.
  intros Hf Hp.
  unfold main, get_tracklist_input_file, read_input_file, exists_path.
  cbv beta iota zeta. rewrite Hf. cbv beta iota zeta. rewrite Hf.
  cbv beta iota zeta. now rewrite Hp.
Qed.

End TracklistFacts.

Section TracklistErrors.
Import Py CueGenerator Notions.

(** C10: a non-empty line whose first space-delimited text is
    timestamp-like but does not split into two or three colon-separated
    fields is taken as a track entry and raises the invalid-timestamp
    error, which ends [parse_input_file] whatever follows; this covers
    every line whose first text is a bare run of digits, and every line
    that begins with a space, whose first text is empty. *)
Theorem malformed_entry_raises :
  (forall (flag : bool) (pre post : list str) (st : gen_state) (line : str),
      parse_lines flag (1%Z, []) pre = Ok st ->
      line <> [] ->
      is_timestamp (first_substring line) = true ->
      length (split (lit ":") (first_substring line)) <> 2 ->
      length (split (lit ":") (first_substring line)) <> 3 ->
      is_track_entry line = true
      /\ parse_line flag st line
         = Raise (invalid_timestamp (first_substring line))
      /\ parse_input_file flag (pre ++ line :: post)
         = Raise (invalid_timestamp (first_substring line)))
  /\ (forall (flag : bool) (pre post : list str) (st : gen_state) (line : str),
      parse_lines flag (1%Z, []) pre = Ok st ->
      line <> [] ->
      forallb isdigit (first_substring line) = true ->
      parse_input_file flag (pre ++ line :: post)
      = Raise (invalid_timestamp (first_substring line)))
  /\ (forall (flag : bool) (pre post : list str) (st : gen_state) (rest : str),
      parse_lines flag (1%Z, []) pre = Ok st ->
      first_substring (" " :: rest) = []
      /\ parse_input_file flag (pre ++ (" " :: rest) :: post)
         = Raise (invalid_timestamp [])).
Proof.
  assert (G : forall flag pre post st line,
             parse_lines flag (1%Z, []) pre = Ok st ->
             line <> [] ->
             is_timestamp (first_substring line) = true ->
             length (split (lit ":") (first_substring line)) <> 2 ->
             length (split (lit ":") (first_substring line)) <> 3 ->
             is_track_entry line = true
             /\ parse_line flag st line
                = Raise (invalid_timestamp (first_substring line))
             /\ parse_input_file flag (pre ++ line :: post)
                = Raise (invalid_timestamp (first_substring line))).
  { intros flag pre post st line Hpre Hne Hts N2 N3.
    assert (He : is_track_entry line = true).
    { unfold is_track_entry.
      rewrite (timestamp_not_title_line _ Hts), Hts.
      apply str_eqb_neq in Hne. now rewrite Hne. }
    assert (Hg : get_min_sec_from_timestamp (first_substring line)
                 = Raise (invalid_timestamp (first_substring line))).
    { unfold get_min_sec_from_timestamp.
      destruct (split (lit ":") (first_substring line))
        as [|a [|b [|c [|d l]]]]; simpl in *; try reflexivity; congruence. }
    assert (Hl : parse_line flag st line
                 = Raise (invalid_timestamp (first_substring line))).
    { destruct st as [k text].
      rewrite (parse_line_entry _ _ _ _ He), Hg. reflexivity. }
    repeat split; auto.
    unfold parse_input_file. rewrite parse_lines_app, Hpre. simpl.
    now rewrite Hl. }
  assert (D : forall flag pre post st line,
             parse_lines flag (1%Z, []) pre = Ok st ->
             line <> [] ->
             forallb isdigit (first_substring line) = true ->
             parse_input_file flag (pre ++ line :: post)
             = Raise (invalid_timestamp (first_substring line))).
  { intros flag pre post st line Hpre Hne Hd.
    assert (Hsp : split (lit ":") (first_substring line)
                  = [first_substring line]).
    { apply split_absent. now apply contains_colon_digits. }
    apply (G flag pre post st line Hpre Hne).
    - unfold is_timestamp. eapply forallb_impl; [|exact Hd].
      intros c Hc. now rewrite Hc.
    - rewrite Hsp. discriminate.
    - rewrite Hsp. discriminate. }
  split; [exact G|]. split; [exact D|].
  intros flag pre post st rest Hpre.
  assert (E : first_substring (" " :: rest) = [])
    by now rewrite first_substring_cons.
  split; [exact E|].
  pose proof (D flag pre post st (" " :: rest) Hpre) as H.
  rewrite E in H. apply H; [discriminate | reflexivity].
Qed.

Lemma malformed_entry_raises_witness :
  parse_lines true (1%Z, []) [lit "# Title: Demo"]
  = Ok (1%Z, title_line (lit "Demo"))
  /\ lit "1234 foo" <> []
  /\ forallb isdigit (first_substring (lit "1234 foo")) = true
  /\ parse_input_file true
       ([lit "# Title: Demo"] ++ lit "1234 foo" :: [lit "00:10 A - B"])
     = Raise (invalid_timestamp (lit "1234")).
Proof.
  split; [reflexivity|]. split; [discriminate|]. split; [reflexivity|].
  exact (proj1 (proj2 malformed_entry_raises) true
           [lit "# Title: Demo"] [lit "00:10 A - B"]
           (1%Z, title_line (lit "Demo")) (lit "1234 foo")
           eq_refl ltac:(discriminate) eq_refl).
Defined.

(** C9: when the timestamp of any track entry of the input file fails to
    convert, [parse_input_file] raises and returns no text at all, and
    the script prints the error and exits with status 1 without writing
    any file. *)
Theorem failed_timestamp_writes_nothing :
  forall (path text : str) (w : world) (line : str),
    files w path = Some text ->
    In line (lines_of_text text) ->
    is_track_entry line = true ->
    well_formed_entry line = false ->
    exists e,
      parse_input_file (negb (contains (lit "_title_artist.") path))
                       (lines_of_text text) = Raise e
      /\ main (Some path) w = (print (PrintError e) w, 1%Z)
      /\ (forall p, files (fst (main (Some path) w)) p = files w p)
      /\ stdout (fst (main (Some path) w)) = stdout w ++ [PrintError e].
Proof.
  intros path text w line Hf HIn He Hw.
  destruct (parse_lines_failing_entry
              (negb (contains (lit "_title_artist.") path))
              _ _ HIn He Hw (1%Z, [])) as [e E].
  exists e.
  assert (Hp : parse_input_file (negb (contains (lit "_title_artist.") path))
                 (lines_of_text text) = Raise e).
  { unfold parse_input_file. now rewrite E. }
  split; [exact Hp|].
  rewrite (main_aborts _ _ _ _ Hf Hp). repeat split.
Qed.

End TracklistErrors.

Section TracklistWitnesses.
Import Py CueGenerator Notions.

Lemma failed_timestamp_writes_nothing_witness :
  files sample_world sample_path = Some sample_text
  /\ In (lit "1:2:3:4 Artist B - Track Two") (lines_of_text sample_text)
  /\ exists e,
      parse_input_file (negb (contains (lit "_title_artist.") sample_path))
                       (lines_of_text sample_text) = Raise e
      /\ main (Some sample_path) sample_world
         = (print (PrintError e) sample_world, 1%Z)
      /\ (forall p, files (fst (main (Some sample_path) sample_world)) p
                    = files sample_world p)
      /\ stdout (fst (main (Some sample_path) sample_world))
         = stdout sample_world ++ [PrintError e].
Proof.
  split; [reflexivity|].
  split; [right; right; left; reflexivity|].
  exact (failed_timestamp_writes_nothing sample_path sample_text sample_world
           (lit "1:2:3:4 Artist B - Track Two")
           eq_refl (or_intror (or_intror (or_introl eq_refl)))
           eq_refl eq_refl).
Defined.

End TracklistWitnesses.

Section SplitOccurrences.
Import Py Notions.

Lemma startswith_app_long (p a b : str) :
  startswith p (a ++ b) = true -> length p <= length a ->
  startswith p a = true.
Proof.
  revert a. induction p as [|x p IH]; intros a H L; [reflexivity|].
  destruct a as [|y a]; [simpl in L; lia|].
  simpl in *. apply andb_prop in H as [H1 H2].
  rewrite H1. apply IH; [exact H2 | lia].
Qed.

Lemma startswith_common (a b r r' : str) :
  a ++ r = b ++ r' -> length a <= length b -> startswith a b = true.
Proof.
  revert b. induction a as [|x a IH]; intros b E L; [reflexivity|].
  destruct b as [|y b]; [simpl in L; lia|].
  simpl in E. injection E as -> E. simpl.
  rewrite Ascii.eqb_refl. apply (IH b E). simpl in L. lia.
Qed.

Lemma unbordered_no_overlap (sep pre r post : str) :
  unbordered sep = true ->
  sep ++ r = pre ++ sep ++ post ->
  0 < length pre -> length pre < length sep -> False.
Proof.
  intros U E L1 L2.
  assert (E' : skipn (length pre) (sep ++ r)
               = skipn (length pre) (pre ++ sep ++ post)) by now rewrite E.
  rewrite skipn_app in E'.
  replace (length pre - length sep) with 0 in E' by lia.
  rewrite (skipn_app (length pre) pre), skipn_all, Nat.sub_diag in E'.
  cbn [skipn app] in E'.
  assert (S : startswith (skipn (length pre) sep) sep = true).
  { apply (startswith_common _ _ _ _ E'). rewrite length_skipn. lia. }
  unfold unbordered in U. rewrite forallb_forall in U.
  specialize (U (length pre)). rewrite S in U.
  discriminate U. apply in_seq. lia.
Qed.

(** With an unbordered separator, the last field is the text after the
    last occurrence of the separator. *)
Lemma split_go_last_occurrence (sep post : str) :
  sep <> [] -> unbordered sep = true -> contains sep post = false ->
  forall n pre cur,
    length pre <= n ->
    exists init,
      init <> [] /\
      split_go sep 0 cur (pre ++ sep ++ post) = init ++ [post].
Proof.
  intros Hne U Hpost. induction n as [|n IH]; intros pre cur L.
  - destruct pre; [|simpl in L; lia]. cbn [app].
    rewrite split_go_match by exact Hne.
    rewrite split_go_absent by exact Hpost.
    exists [rev cur]. split; [discriminate | reflexivity].
  - destruct (startswith sep (pre ++ sep ++ post)) eqn:S.
    + destruct pre as [|c pre'] eqn:Epre.
      * apply (IH [] cur). simpl. lia.
      * rewrite <- Epre in *.
        destruct (le_lt_dec (length sep) (length pre)) as [Lp|Lp].
        -- pose proof (startswith_app_long _ _ _ S Lp) as S'.
           apply startswith_inv in S' as [pre'' E]. rewrite E.
           rewrite <- app_assoc, split_go_match by exact Hne.
           destruct (IH pre'' [] ) as (init & Hi & Ei).
           { rewrite E, length_app in L.
             destruct sep; [congruence|]. simpl in L. lia. }
           exists (rev cur :: init). split; [discriminate|].
           now rewrite Ei.
        -- exfalso. apply startswith_inv in S as [r E]. symmetry in E.
           apply (unbordered_no_overlap sep pre r post U E);
             [rewrite Epre; simpl; lia | exact Lp].
    + destruct pre as [|c pre'].
      * cbn [app] in S. now rewrite startswith_app in S.
      * cbn [app] in *. rewrite split_go_step by exact S.
        apply IH. simpl in L. lia.
Qed.

Lemma last_field_snoc (init : list str) (x : str) :
  last_field (init ++ [x]) = x.
Proof. unfold last_field. apply last_last. Qed.

Lemma split_last_occurrence (sep pre post : str) :
  sep <> [] -> unbordered sep = true -> contains sep post = false ->
  last_field (split sep (pre ++ sep ++ post)) = post.
Proof.
  intros Hne U Hpost.
  destruct (split_go_last_occurrence sep post Hne U Hpost
              (length pre) pre [] (Nat.le_refl _)) as (init & _ & E).
  unfold split. rewrite E. apply last_field_snoc.
Qed.

End SplitOccurrences.

Section TitleLine.
Import Py CueGenerator Notions.

(** C5, as stated, fails: on a title line in which [Title: ] occurs
    twice, the text after the first occurrence is [A Title: B], but the
    line emitted carries [B]. *)
Lemma title_first_occurrence_counterexample :
  is_title_line (lit "Title: A Title: B") = true
  /\ lit "Title: A Title: B" = [] ++ lit "Title: " ++ lit "A Title: B"
  /\ parse_line true (1%Z, []) (lit "Title: A Title: B")
     = Ok (1%Z, title_line (lit "B"))
  /\ title_line (lit "B") <> title_line (lit "A Title: B").
Proof.
  repeat split; try reflexivity. discriminate.
Qed.

(** C5, amended: a line beginning with [Title:] or [# Title:] appends
    the serialized [TITLE] line at once and leaves the track counter as
    it is; the title is the text after the last occurrence of [Title: ]
    in the line, and the whole line when [Title: ] does not occur. *)
Theorem title_line_emitted :
  forall (flag : bool) (k : Z) (text line : str),
    is_title_line line = true ->
    parse_line flag (k, text) line
    = Ok (k, text ++ title_line (last_field (split (lit "Title: ") line)))
    /\ (forall pre post,
           line = pre ++ lit "Title: " ++ post ->
           contains (lit "Title: ") post = false ->
           last_field (split (lit "Title: ") line) = post)
    /\ (contains (lit "Title: ") line = false ->
        last_field (split (lit "Title: ") line) = line).
Proof.
  intros flag k text line Ht. split; [now apply parse_line_title|]. split.
  - intros pre post -> Hpost.
    apply split_last_occurrence; [discriminate | reflexivity | exact Hpost].
  - intros H. now rewrite split_absent.
Qed.

Lemma title_line_emitted_witness :
  is_title_line (lit "# Title: My Title: Live") = true
  /\ parse_line true (1%Z, []) (lit "# Title: My Title: Live")
     = Ok (1%Z, title_line (lit "Live")).
Proof.
  split; [reflexivity|].
  exact (proj1 (title_line_emitted true 1%Z [] (lit "# Title: My Title: Live")
                  eq_refl)).
Defined.

End TitleLine.

Section NumberText.
Import Py Notions.

Lemma code_digit_char (d : N) : (d < 10)%N -> code (digit_char d) = (48 + d)%N.
Proof.
  intros H. unfold code, digit_char. apply N_ascii_embedding. lia.
Qed.

Lemma isdecimal_digit_char (d : N) :
  (d < 10)%N -> isdecimal (digit_char d) = true.
Proof.
  intros H. unfold isdecimal. rewrite (code_digit_char d H).
  apply andb_true_intro. split; apply N.leb_le; lia.
Qed.


Lemma to_digits_decimal (f : nat) (n : N) (acc : str) :
  forallb isdecimal acc = true ->
  forallb isdecimal (to_digits f n acc) = true.
Proof.
  revert n acc. induction f as [|f IH]; intros n acc H; [exact H|].
  cbn [to_digits].
  assert (H' : forallb isdecimal (digit_char (n mod 10) :: acc) = true).
  { cbn [forallb]. rewrite H, andb_true_r.
    apply isdecimal_digit_char. apply N.mod_lt. discriminate. }
  destruct (n / 10 =? 0)%N; [exact H' | now apply IH].
Qed.


Lemma str_of_N_decimal (n : N) : forallb isdecimal (str_of_N n) = true.
Proof. now apply to_digits_decimal. Qed.




Lemma forallb_repeat (p : ascii -> bool) (c : ascii) (n : nat) :
  p c = true -> forallb p (repeat c n) = true.
Proof. intros H. induction n; simpl; [reflexivity | now rewrite H]. Qed.

Lemma str_of_Z_nonneg (z : Z) :
  (0 <= z)%Z -> str_of_Z z = str_of_N (Z.to_N z).
Proof.
  intros H. unfold str_of_Z.
  destruct (z <? 0)%Z eqn:E; [apply Z.ltb_lt in E; lia|].
  f_equal. destruct z; try reflexivity. lia.
Qed.



(** Characters of the texts produced from numbers. *)
Lemma str_of_Z_chars (p : ascii -> bool) (z : Z) :
  (forall c, isdecimal c = true -> p c = true) -> p "-" = true ->
  forallb p (str_of_Z z) = true.
Proof.
  intros Hd Hm. unfold str_of_Z.
  assert (H : forallb p (str_of_N (Z.abs_N z)) = true).
  { eapply forallb_impl; [exact Hd | apply str_of_N_decimal]. }
  destruct (z <? 0)%Z; [cbn [forallb]; now rewrite Hm | exact H].
Qed.

Lemma zfill_chars (p : ascii -> bool) (w : nat) (s : str) :
  p "0" = true -> forallb p s = true -> forallb p (zfill w s) = true.
Proof.
  intros H0 Hs. unfold zfill. destruct s as [|c s].
  - now apply forallb_repeat.
  - cbn [forallb] in Hs. apply andb_prop in Hs as [Hc Hs].
    destruct (Ascii.eqb c "-" || Ascii.eqb c "+").
    + cbn [forallb]. rewrite Hc, forallb_app, Hs, forallb_repeat; auto.
    + rewrite forallb_app, forallb_repeat by auto. cbn [forallb].
      now rewrite Hc, Hs.
Qed.

(** A number below the [k]-th power of ten has at most [k] digits. *)
Lemma to_digits_length (f : nat) :
  forall (n : N) (acc : str) (k : nat),
    (n < 10 ^ N.of_nat k)%N -> 1 <= k ->
    length (to_digits f n acc) <= k + length acc.
Proof.
  induction f as [|f IH]; intros n acc k Hn Hk; [cbn; lia|].
  cbn [to_digits].
  destruct (n / 10 =? 0)%N eqn:E; [cbn [length]; lia|].
  apply N.eqb_neq in E.
  assert (H10 : (10 <= n)%N).
  { destruct (N.lt_ge_cases n 10) as [L|L]; [|exact L].
    exfalso. apply E. now apply N.div_small. }
  destruct k as [|[|k]]; [lia| |].
  - change (10 ^ N.of_nat 1)%N with 10%N in Hn. lia.
  - specialize (IH (n / 10)%N (digit_char (n mod 10) :: acc) (S k)).
    cbn [length] in IH.
    assert (Hd : (n / 10 < 10 ^ N.of_nat (S k))%N).
    { apply N.Div0.div_lt_upper_bound.
      rewrite (Nat2N.inj_succ (S k)), N.pow_succ_r' in Hn. exact Hn. }
    specialize (IH Hd ltac:(lia)). lia.
Qed.

Lemma max_str_digits_pos : 1 <= max_str_digits.
Proof. apply Nat.leb_le. reflexivity. Qed.

Lemma digits_within (z : Z) :
  within_limit z = true ->
  length (str_of_N (Z.abs_N z)) <= max_str_digits.
Proof.
  unfold within_limit. intros H. apply Z.ltb_lt in H.
  pose proof (to_digits_length (S (N.to_nat (N.log2 (Z.abs_N z))))
                (Z.abs_N z) [] max_str_digits) as G.
  cbn [length] in G. rewrite Nat.add_0_r in G.
  apply G; [|exact max_str_digits_pos].
  apply N2Z.inj_lt. rewrite N2Z.inj_abs_N, N2Z.inj_pow, nat_N_Z.
  exact H.
Qed.

(** Within the digit limit [str] returns the decimal text. *)
Lemma str_of_int_ok (z : Z) :
  within_limit z = true -> str_of_int z = Ok (str_of_Z z).
Proof.
  intros H. pose proof (digits_within z H) as L. unfold str_of_int.
  destruct (max_str_digits <? length (str_of_N (Z.abs_N z)))%nat eqn:E;
    [|reflexivity].
  apply Nat.ltb_lt in E. lia.
Qed.


(** The text [str] returns is the decimal text. *)
Lemma str_of_int_text (z : Z) (t : str) :
  str_of_int z = Ok t -> t = str_of_Z z.
Proof.
  unfold str_of_int.
  destruct (max_str_digits <? length (str_of_N (Z.abs_N z)))%nat;
    [discriminate | now intros [= <-]].
Qed.

Lemma within_limit_spec (z : Z) :
  within_limit z = true <-> (Z.abs z < 10 ^ Z.of_nat max_str_digits)%Z.
Proof. unfold within_limit. apply Z.ltb_lt. Qed.

End NumberText.

Section Numbering.
Import Py CueGenerator Notions.

Lemma no_newline_Forall (s : str) :
  no_newline s = true <-> Forall (fun c => Ascii.eqb c newline = false) s.
Proof.
  unfold no_newline. rewrite forallb_forall, Forall_forall.
  split; intros H c Hc; specialize (H c Hc);
    destruct (Ascii.eqb c newline); simpl in *; congruence.
Qed.

Lemma no_newline_app (a b : str) :
  no_newline (a ++ b) = no_newline a && no_newline b.
Proof. apply forallb_app. Qed.

Lemma Forall_last_field (P : ascii -> Prop) (l : list str) :
  Forall (Forall P) l -> Forall P (last_field l).
Proof.
  unfold last_field. induction 1 as [|x l Hx Hl IH]; [constructor|].
  destruct l; [exact Hx | exact IH].
Qed.

Lemma Forall_hd_field (P : ascii -> Prop) (l : list str) :
  Forall (Forall P) l -> Forall P (hd [] l).
Proof. destruct 1; [constructor | assumption]. Qed.

Lemma Forall_skipn_str (P : ascii -> Prop) (n : nat) (s : str) :
  Forall P s -> Forall P (skipn n s).
Proof.
  revert s. induction n as [|n IH]; intros s H; [exact H|].
  destruct H; [constructor | now apply IH].
Qed.

Lemma no_newline_get_string1 (line : str) :
  no_newline line = true -> no_newline (get_string1 line) = true.
Proof.
  rewrite !no_newline_Forall. intros H. unfold get_string1, slice_from.
  apply Forall_skipn_str, Forall_last_field, split_chars, Forall_hd_field.
  now apply split_chars.
Qed.

Lemma no_newline_get_string2 (line : str) :
  no_newline line = true -> no_newline (get_string2 line) = true.
Proof.
  intros H. unfold get_string2.
  pose proof (split_chars _ (lit " - ") line (proj1 (no_newline_Forall _) H))
    as F.
  destruct (split (lit " - ") line) as [|a [|b l]]; try reflexivity.
  inversion F as [|? ? _ F']; subst. inversion F' as [|? ? Hb _]; subst.
  now apply no_newline_Forall.
Qed.

Lemma no_newline_number (w : nat) (z : Z) :
  no_newline (zfill w (str_of_Z z)) = true.
Proof.
  apply zfill_chars; [reflexivity|].
  apply str_of_Z_chars; [|reflexivity].
  intros c Hc. destruct (isdecimal_plain c Hc) as (_ & _ & _ & _ & _ & ->).
  reflexivity.
Qed.

(** Splitting a text made of ended lines gives the lines back. *)
Lemma split_go_line (cur l rest : str) :
  no_newline l = true ->
  split_go [newline] 0 cur (l ++ newline :: rest)
  = (rev cur ++ l) :: split_go [newline] 0 [] rest.
Proof.
  revert cur. induction l as [|c l IH]; intros cur H.
  - cbn [app split_go startswith]. rewrite Ascii.eqb_refl. cbn [andb length].
    now rewrite app_nil_r.
  - cbn [no_newline forallb] in H. apply andb_prop in H as [Hc Hl].
    apply negb_true_iff in Hc.
    cbn [app split_go startswith]. rewrite Ascii.eqb_sym, Hc. cbn [andb].
    rewrite (IH (c :: cur) Hl). cbn [rev]. now rewrite <- app_assoc.
Qed.

Lemma split_unlines (ls : list str) :
  Forall (fun l => no_newline l = true) ls ->
  split [newline] (unlines ls) = ls ++ [[]].
Proof.
  unfold split. induction 1 as [|l ls Hl Hls IH]; [reflexivity|].
  cbn [unlines flat_map]. rewrite <- app_assoc. cbn [app].
  rewrite (split_go_line [] l _ Hl). cbn [rev app]. f_equal. exact IH.
Qed.

Lemma unlines_app (a b : list str) : unlines (a ++ b) = unlines a ++ unlines b.
Proof. unfold unlines. apply flat_map_app. Qed.

Lemma count_from_succ (k : Z) (n : nat) :
  count_from k (S n) = k :: count_from (k + 1) n.
Proof.
  unfold count_from. cbn [seq map]. f_equal; [lia|].
  rewrite <- seq_shift, map_map. apply map_ext. intros i. lia.
Qed.

Lemma track_block_lines (k : Z) (title artist : str) (m sec : Z) :
  track_block (str_of_Z k) title artist (str_of_Z m) (str_of_Z sec)
  = unlines (block_lines k title artist m sec).
Proof.
  unfold track_block, track_header, index_time, block_lines, unlines.
  cbn [flat_map]. repeat rewrite <- app_assoc. reflexivity.
Qed.

Lemma block_lines_plain (k : Z) (title artist : str) (m sec : Z) :
  no_newline title = true -> no_newline artist = true ->
  Forall (fun l => no_newline l = true) (block_lines k title artist m sec).
Proof.
  intros Ht Ha. unfold block_lines.
  repeat constructor;
    repeat rewrite no_newline_app;
    rewrite ?Ht, ?Ha, ?no_newline_number; reflexivity.
Qed.

Lemma block_lines_headers (k : Z) (title artist : str) (m sec : Z) :
  filter (startswith (lit "  TRACK ")) (block_lines k title artist m sec)
  = [lit "  TRACK " ++ zfill 2 (str_of_Z k) ++ lit " AUDIO"].
Proof.
  unfold block_lines. cbn [filter]. rewrite startswith_app. reflexivity.
Qed.

Lemma pow_limit_mono (n : nat) :
  n <= max_str_digits ->
  (10 ^ Z.of_nat n <= 10 ^ Z.of_nat max_str_digits)%Z.
Proof. intros H. apply Z.pow_le_mono_r; lia. Qed.

(** The value of a timestamp field can be written back. *)
Lemma timestamp_field_value (f : str) :
  timestamp_field f = true ->
  int f = Ok (decimal_value f)
  /\ (0 <= decimal_value f)%Z /\ within_limit (decimal_value f) = true.
Proof.
  intros H. apply timestamp_field_spec in H as (Hne & Hd & Hl).
  pose proof (decimal_value_bound f Hd) as B.
  pose proof (pow_limit_mono _ Hl) as P.
  split; [now apply int_decimal|]. split; [lia|].
  apply within_limit_spec. lia.
Qed.

(** A well-formed timestamp converts to minutes and seconds that can be
    written back. *)
Lemma well_timed_converts (tok : str) :
  well_timed tok = true ->
  exists m sec,
    get_min_sec_from_timestamp tok = Ok (m, sec)
    /\ (0 <= m)%Z /\ within_limit m = true
    /\ (0 <= sec)%Z /\ within_limit sec = true.
Proof.
  unfold well_timed, get_min_sec_from_timestamp.
  destruct (split (lit ":") tok) as [|f0 [|f1 [|f2 [|f3 l]]]];
    try discriminate; intros H.
  - apply andb_prop in H as [H0 H1].
    destruct (timestamp_field_value f0 H0) as (E0 & P0 & W0).
    destruct (timestamp_field_value f1 H1) as (E1 & P1 & W1).
    rewrite E0, E1. cbn [bind]. eauto 8.
  - apply andb_prop in H as [H W]. apply andb_prop in H as [H H2].
    apply andb_prop in H as [H0 H1].
    destruct (timestamp_field_value f0 H0) as (E0 & P0 & W0).
    destruct (timestamp_field_value f1 H1) as (E1 & P1 & W1).
    destruct (timestamp_field_value f2 H2) as (E2 & P2 & W2).
    rewrite E0, E1, E2. cbn [bind].
    exists (decimal_value f0 * 60 + decimal_value f1)%Z, (decimal_value f2).
    repeat split; auto; lia.
Qed.

(** A track entry whose numbers can all be written is turned into its
    block. *)
Lemma parse_line_block (flag : bool) (k : Z) (text line : str) (m sec : Z) :
  is_track_entry line = true ->
  get_min_sec_from_timestamp (first_substring line) = Ok (m, sec) ->
  within_limit k = true -> within_limit m = true ->
  within_limit sec = true ->
  parse_line flag (k, text) line
  = Ok ((k + 1)%Z,
        text ++ track_block (str_of_Z k)
                  (if flag then get_string2 line else get_string1 line)
                  (if flag then get_string1 line else get_string2 line)
                  (str_of_Z m) (str_of_Z sec)).
Proof.
  intros He Hg Wk Wm Ws.
  rewrite (parse_line_entry _ _ _ _ He), Hg. cbn [bind].
  now rewrite (str_of_int_ok k Wk), (str_of_int_ok m Wm),
    (str_of_int_ok sec Ws).
Qed.

(** What the loop appends: ended lines without inner line feeds, whose
    [TRACK] lines carry the numbers from the counter on. *)
Lemma parse_lines_numbering (flag : bool) (contents : list str) :
  Forall (fun l => no_newline l = true) contents ->
  (forall line, In line contents ->
                is_track_entry line = true ->
                well_timed (first_substring line) = true) ->
  forall (k : Z) (text : str),
    (0 <= k)%Z ->
    (k + Z.of_nat (length (filter is_track_entry contents))
     <= 10 ^ Z.of_nat max_str_digits)%Z ->
  exists ls,
    parse_lines flag (k, text) contents
    = Ok ((k + Z.of_nat (length (filter is_track_entry contents)))%Z,
          text ++ unlines ls)
    /\ Forall (fun l => no_newline l = true) ls
    /\ filter (startswith (lit "  TRACK ")) ls
       = map (fun j => lit "  TRACK " ++ zfill 2 (str_of_Z j) ++ lit " AUDIO")
           (count_from k (length (filter is_track_entry contents))).
Proof.
  induction 1 as [|line rest Hl Hrest IH]; intros Hwf k text Hk Hb.
  - exists []. cbn. rewrite app_nil_r, Z.add_0_r. repeat split. constructor.
  - assert (Hwf' : forall l, In l rest -> is_track_entry l = true ->
                             well_timed (first_substring l) = true).
    { intros l Hin. apply Hwf. now right. }
    specialize (IH Hwf'). cbn [parse_lines filter] in *.
    destruct (is_title_line line) eqn:Et.
    + assert (Ee : is_track_entry line = false).
      { unfold is_track_entry. now rewrite Et. }
      rewrite Ee in *. rewrite (parse_line_title _ _ _ _ Et). cbn [bind].
      set (t := last_field (split (lit "Title: ") line)).
      destruct (IH k (text ++ title_line t) Hk Hb) as (ls & E & Hp & Hh).
      exists ((lit "TITLE " ++ [dquote] ++ t ++ [dquote]) :: ls).
      split; [|split].
      * etransitivity; [exact E|].
        f_equal. f_equal. rewrite <- app_assoc. f_equal.
        unfold title_line, unlines. cbn [flat_map].
        repeat rewrite <- app_assoc. reflexivity.
      * constructor; [|exact Hp].
        repeat rewrite no_newline_app.
        assert (Ht : no_newline t = true).
        { apply no_newline_Forall, Forall_last_field, split_chars.
          now apply no_newline_Forall. }
        rewrite Ht. reflexivity.
      * exact Hh.
    + destruct (is_track_entry line) eqn:Ee.
      * cbn [length] in Hb.
        destruct (well_timed_converts _ (Hwf line (or_introl eq_refl) Ee))
          as (m & sec & Eg & _ & Wm & _ & Ws).
        assert (Wk : within_limit k = true).
        { apply within_limit_spec. lia. }
        rewrite (parse_line_block flag k text line m sec Ee Eg Wk Wm Ws).
        cbn [bind].
        set (title := if flag then get_string2 line else get_string1 line).
        set (artist := if flag then get_string1 line else get_string2 line).
        destruct (IH (k + 1)%Z
                    (text ++ track_block (str_of_Z k) title artist
                               (str_of_Z m) (str_of_Z sec))
                    ltac:(lia) ltac:(lia))
          as (ls & E & Hp & Hh).
        exists (block_lines k title artist m sec ++ ls).
        split; [|split].
        -- etransitivity; [exact E|].
           f_equal. f_equal; [cbn [length]; lia|].
           rewrite <- app_assoc, unlines_app, track_block_lines. reflexivity.
        -- apply Forall_app. split; [|exact Hp].
           apply block_lines_plain; subst title artist; destruct flag;
             auto using no_newline_get_string1, no_newline_get_string2.
        -- rewrite filter_app, block_lines_headers, Hh.
           cbn [length]. rewrite count_from_succ. reflexivity.
      * rewrite (parse_line_ignored _ _ _ Et Ee). cbn [bind].
        destruct (IH k text Hk Hb) as (ls & E & Hp & Hh).
        exists ls. split; [exact E | auto].
Qed.

(** C7, as stated, fails: the input below holds one well-formed
    timestamped track line, and a second line whose first text is a bare
    run of digits; that line too is taken as a track entry, its
    timestamp is refused, and the Tracklist Parser emits no [TRACK] line
    at all. *)
Lemma unconverted_line_counterexample :
  well_timed (first_substring (lit "00:00 A - B")) = true
  /\ filter (fun l => well_timed (first_substring l))
            [lit "00:00 A - B"; lit "1234 foo"]
     = [lit "00:00 A - B"]
  /\ parse_input_file true [lit "00:00 A - B"; lit "1234 foo"]
     = Raise (invalid_timestamp (lit "1234"))
  /\ ~ (exists text,
          parse_input_file true [lit "00:00 A - B"; lit "1234 foo"] = Ok text
          /\ track_headers text = [lit "  TRACK 01 AUDIO"]).
Proof.
  assert (E : parse_input_file true [lit "00:00 A - B"; lit "1234 foo"]
              = Raise (invalid_timestamp (lit "1234")))
    by (vm_compute; reflexivity).
  split; [vm_compute; reflexivity|]. split; [vm_compute; reflexivity|].
  split; [exact E|].
  intros (text & H & _). rewrite E in H. discriminate H.
Qed.

(** C7, amended: when the lines given to the Tracklist Parser hold no
    line feed and every track entry among them (a line that is not a
    title line, not empty, and begins with a text of digits and colons)
    has a well-formed timestamp, [parse_input_file] succeeds and the
    [TRACK] lines of its text carry, in order, the numbers 1 to N,
    zero-padded to width 2, where N is the number of track entries (a
    number of at most 4300 digits); whatever else the lines contain. *)
Theorem track_numbers_contiguous :
  forall (flag : bool) (contents : list str),
    Forall (fun l => no_newline l = true) contents ->
    (forall line, In line contents ->
                  is_track_entry line = true ->
                  well_timed (first_substring line) = true) ->
    (Z.of_nat (length (filter is_track_entry contents))
     < 10 ^ Z.of_nat max_str_digits)%Z ->
    exists text,
      parse_input_file flag contents = Ok text
      /\ track_headers text
         = map (fun k => lit "  TRACK " ++ zfill 2 (str_of_Z k) ++ lit " AUDIO")
               (count_from 1 (length (filter is_track_entry contents))).
Proof.
  intros flag contents Hp Hwf Hn.
  destruct (parse_lines_numbering flag contents Hp Hwf 1%Z []
              ltac:(lia) ltac:(lia))
    as (ls & E & Hls & Hh).
  exists (unlines ls). unfold parse_input_file.
  change str with (list ascii) in *. rewrite E. cbn [bind snd app].
  split; [reflexivity|].
  unfold track_headers. rewrite (split_unlines ls Hls), filter_app.
  change str with (list ascii) in *. rewrite Hh.
  cbn [filter startswith lit String.list_ascii_of_string]. apply app_nil_r.
Qed.

End Numbering.

Section NumberingWitness.
Import Py CueGenerator Notions.

Lemma track_numbers_contiguous_witness :
  Forall (fun l => no_newline l = true) sample_lines
  /\ exists text,
      parse_input_file true sample_lines = Ok text
      /\ track_headers text
         = [lit "  TRACK 01 AUDIO"; lit "  TRACK 02 AUDIO"].
Proof.
  split; [repeat constructor|].
  apply (track_numbers_contiguous true sample_lines).
  - repeat constructor.
  - intros line [<-|[<-|[<-|[<-|[]]]]] H; try reflexivity; discriminate H.
  - vm_compute. reflexivity.
Defined.

End NumberingWitness.

Section PatternFacts.
Import Py Notions.

(** Whatever the matcher returns is a reading of the text. *)
Lemma greedy_sound {A : Type} (p : ascii -> bool) (s : str) :
  forall (lo : nat) (hi : option nat) (seg : str)
         (k : str -> str -> option A) (r : A),
    Re.greedy p lo hi s seg k = Some r ->
    exists taken rest,
      s = taken ++ rest /\ forallb p taken = true
      /\ lo <= length taken
      /\ match hi with Some h => length taken <= h | None => True end
      /\ k (seg ++ taken) rest = Some r.
Proof.
  induction s as [|c s IH]; intros lo hi seg k r H.
  - cbn [Re.greedy] in H. destruct lo; [|discriminate].
    exists [], []. rewrite (app_nil_r seg). repeat split; auto.
    destruct hi; [apply Nat.le_0_l | exact I].
  - cbn [Re.greedy] in H.
    assert (Stop : match lo with O => k seg (c :: s) | S _ => None end = Some r ->
                   exists taken rest,
                     c :: s = taken ++ rest /\ forallb p taken = true
                     /\ lo <= length taken
                     /\ match hi with Some h => length taken <= h | None => True end
                     /\ k (seg ++ taken) rest = Some r).
    { intros G. destruct lo; [|discriminate].
      exists [], (c :: s). rewrite (app_nil_r seg). repeat split; auto.
      destruct hi; [apply Nat.le_0_l | exact I]. }
    destruct (p c && Re.more hi) eqn:E; [|now apply Stop].
    apply andb_prop in E as [Hc Hm].
    destruct (Re.greedy p (pred lo) (option_map pred hi) s (seg ++ [c]) k)
      as [r'|] eqn:G; [|now apply Stop].
    injection H as ->.
    destruct (IH _ _ _ _ _ G) as (taken & rest & -> & Hp & Hlo & Hhi & Hk).
    exists (c :: taken), rest. cbn [app forallb length].
    rewrite Hc, Hp. repeat split; auto; [lia| |].
    + destruct hi as [[|h]|]; cbn in *; try discriminate; try exact I. lia.
    + now rewrite <- app_assoc in Hk.
Qed.

(** A reading the continuation accepts makes the matcher succeed. *)
Lemma greedy_complete {A : Type} (p : ascii -> bool) (taken : str) :
  forall (rest : str) (lo : nat) (hi : option nat) (seg : str)
         (k : str -> str -> option A),
    forallb p taken = true ->
    lo <= length taken ->
    match hi with Some h => length taken <= h | None => True end ->
    k (seg ++ taken) rest <> None ->
    Re.greedy p lo hi (taken ++ rest) seg k <> None.
Proof.
  induction taken as [|c taken IH]; intros rest lo hi seg k Hp Hlo Hhi Hk.
  - rewrite app_nil_r in Hk. cbn [length] in Hlo.
    assert (lo = 0) as -> by lia. cbn [app].
    destruct rest as [|c s]; cbn [Re.greedy]; [exact Hk|].
    destruct (p c && Re.more hi); [|exact Hk].
    destruct (Re.greedy p (pred 0) (option_map pred hi) s (seg ++ [c]) k);
      [discriminate | exact Hk].
  - cbn [forallb] in Hp. apply andb_prop in Hp as [Hc Hp].
    cbn [app Re.greedy]. rewrite Hc.
    assert (Hm : Re.more hi = true).
    { destruct hi as [[|h]|]; cbn in *; try reflexivity. lia. }
    rewrite Hm. cbn [andb].
    assert (G : Re.greedy p (pred lo) (option_map pred hi)
                  (taken ++ rest) (seg ++ [c]) k <> None).
    { apply IH; auto.
      - cbn [length] in Hlo. lia.
      - destruct hi as [h|]; cbn in *; [lia | exact I].
      - now rewrite <- app_assoc. }
    destruct (Re.greedy p (pred lo) (option_map pred hi)
                (taken ++ rest) (seg ++ [c]) k); [discriminate | congruence].
Qed.

Lemma match_items_sound (items : list Re.item) (final : str -> bool) :
  forall (s : str) (segs : list str) (rest : str),
    Re.match_items items final s = Some (segs, rest) ->
    reads_as items final s segs rest.
Proof.
  induction items as [|it items IH]; intros s segs rest H.
  - cbn [Re.match_items] in H. destruct (final s) eqn:F; [|discriminate].
    injection H as <- <-. repeat split; auto.
  - cbn [Re.match_items] in H.
    apply greedy_sound in H as (taken & rest' & -> & Hp & Hlo & Hhi & Hk).
    cbn [app] in Hk.
    destruct (Re.match_items items final rest') as [[segs' r']|] eqn:M;
      [|discriminate].
    injection Hk as <- <-.
    destruct (IH _ _ _ M) as (-> & HF & Hfin).
    repeat split; auto.
    + cbn [concat]. now rewrite <- app_assoc.
    + constructor; [|exact HF]. repeat split; auto.
Qed.

Lemma match_items_complete (items : list Re.item) (final : str -> bool) :
  forall (s : str) (segs : list str) (rest : str),
    reads_as items final s segs rest ->
    Re.match_items items final s <> None.
Proof.
  induction items as [|it items IH]; intros s segs rest (-> & HF & Hfin).
  - inversion HF; subst. cbn [concat app Re.match_items].
    now rewrite Hfin.
  - inversion HF as [|? seg ? segs' (Hp & Hlo & Hhi) HF']; subst.
    cbn [Re.match_items concat]. rewrite <- app_assoc.
    apply greedy_complete; auto. cbn [app].
    specialize (IH (concat segs' ++ rest) segs' rest).
    destruct (Re.match_items items final (concat segs' ++ rest))
      as [[? ?]|]; [discriminate|].
    exfalso. apply IH; repeat split; auto.
Qed.

End PatternFacts.

Section PrefixNumber.
Import Py Postprocess Notions.

Lemma span_unique (p : ascii -> bool) (a : str) :
  forall (a' : str) (x x' : ascii) (r r' : str),
    a ++ x :: r = a' ++ x' :: r' ->
    forallb p a = true -> forallb p a' = true ->
    p x = false -> p x' = false ->
    a = a' /\ x :: r = x' :: r'.
Proof.
  induction a as [|y a IH]; intros a' x x' r r' E Ha Ha' Hx Hx'.
  - destruct a' as [|y' a']; [now split|].
    cbn in E, Ha'. injection E as -> _.
    apply andb_prop in Ha' as [Hy _]. congruence.
  - destruct a' as [|y' a'].
    + cbn in E, Ha. injection E as -> _.
      apply andb_prop in Ha as [Hy _]. congruence.
    + cbn in E, Ha, Ha'. injection E as -> E.
      apply andb_prop in Ha as [_ Ha]. apply andb_prop in Ha' as [_ Ha'].
      destruct (IH _ _ _ _ _ E Ha Ha' Hx Hx') as [-> ->]. now split.
Qed.

Lemma zero_is_decimal (c : ascii) :
  Ascii.eqb "0" c = true -> isdecimal c = true.
Proof. intros H. apply Ascii.eqb_eq in H. now subst c. Qed.

Lemma decimal_value_zeros (z d : str) :
  forallb (Ascii.eqb "0") z = true ->
  decimal_value (z ++ d) = decimal_value d.
Proof.
  intros H. unfold decimal_value. rewrite fold_left_app. do 2 f_equal.
  induction z as [|c z IH]; [reflexivity|].
  cbn [forallb] in H. apply andb_prop in H as [Hc Hz].
  apply Ascii.eqb_eq in Hc. subst c. cbn. now apply IH.
Qed.

Lemma space_is_separator (c : ascii) :
  isspace c = true -> Re.separator c = true.
Proof. intros H. unfold Re.separator. rewrite H. apply orb_true_r. Qed.

Lemma separator_not_plain (c : ascii) :
  Re.separator c = true -> isdecimal c = false.
Proof.
  destruct c as [[|] [|] [|] [|] [|] [|] [|] [|]];
    vm_compute; intros H; try discriminate H; reflexivity.
Qed.

Lemma decimal_not_space (c : ascii) :
  isdecimal c = true -> isspace c = false.
Proof.
  destruct c as [[|] [|] [|] [|] [|] [|] [|] [|]];
    vm_compute; intros H; try discriminate H; reflexivity.
Qed.

(** The readings of a name by [TRACK_PREFIX_RE] are the prefix forms. *)
Lemma reading_prefix_form (name : str) (segs : list str) (rest : str) :
  reads_as TRACK_PREFIX_RE Re.at_end name segs rest ->
  prefix_form name (decimal_value (nth 2 segs []))
  /\ nth 2 segs [] <> [] /\ forallb isdecimal (nth 2 segs []) = true
  /\ length (nth 2 segs []) <= max_str_digits.
Proof.
  intros (E & HF & Hend). unfold TRACK_PREFIX_RE in HF.
  inversion HF as [|? ws ? l1 (Hws & _ & _) F1]; subst; clear HF.
  inversion F1 as [|? zs ? l2 (Hzs & _ & _) F2]; subst; clear F1.
  inversion F2 as [|? d ? l3 (Hd & Hd1 & Hd3) F3]; subst; clear F2.
  inversion F3 as [|? ws2 ? l4 (Hws2 & _ & _) F4]; subst; clear F3.
  inversion F4 as [|? sp ? l5 (Hsp & Hsp1 & _) F5]; subst; clear F4.
  inversion F5 as [|? ws3 ? l6 (Hws3 & _ & _) F6]; subst; clear F5.
  inversion F6 as [|? body ? l7 (Hb & Hb1 & _) F7]; subst; clear F6.
  inversion F7; subst; clear F7.
  cbn [Re.cls Re.lo Re.hi Re.star Re.plus] in *. cbn [nth].
  split; [|split; [destruct d; [cbn in Hd1; lia | discriminate]
                  |split; [exact Hd|]]].
  2:{ pose proof max_str_digits_pos as P.
      assert (3 <= max_str_digits) by (apply Nat.leb_le; reflexivity). lia. }
  exists ws, zs, d, (ws2 ++ sp ++ ws3), (body ++ rest).
  repeat split; auto.
  - cbn [concat]. repeat rewrite <- app_assoc. reflexivity.
  - destruct sp; [cbn in Hsp1; lia|].
    intros N. apply app_eq_nil in N as [_ N]. discriminate N.
  - rewrite !forallb_app, Hsp.
    rewrite (forallb_impl _ _ _ space_is_separator Hws2).
    rewrite (forallb_impl _ _ _ space_is_separator Hws3). reflexivity.
  - exists body, rest. repeat split; auto.
    destruct body; [cbn in Hb1; lia | discriminate].
Qed.

Lemma prefix_form_reading (name : str) (n : Z) :
  prefix_form name n ->
  exists segs rest, reads_as TRACK_PREFIX_RE Re.at_end name segs rest.
Proof.
  intros (ws & zs & d & sp & rest & -> & Hws & Hzs & Hd & [Hd1 Hd3]
          & Hsp & Hsep & (body & tail & -> & Hb & Hdot & Hend) & _).
  exists [ws; zs; d; []; sp; []; body], tail.
  split; [|split; [|exact Hend]].
  - cbn [concat]. rewrite app_nil_r. cbn [app].
    repeat rewrite <- app_assoc. reflexivity.
  - assert (L1 : 1 <= length sp) by (destruct sp; [congruence | cbn; lia]).
    assert (L2 : 1 <= length body)
      by (destruct body; [congruence | cbn; lia]).
    unfold TRACK_PREFIX_RE, Re.star, Re.plus.
    repeat (apply Forall2_cons;
            [unfold fits; cbn [Re.cls Re.lo Re.hi forallb length];
             repeat split; auto; lia |]).
    apply Forall2_nil.
Qed.

(** Two prefix forms of one name give one number. *)
Lemma prefix_form_unique (name : str) (n m : Z) :
  prefix_form name n -> prefix_form name m -> n = m.
Proof.
  intros (ws & zs & d & sp & rest & E & Hws & Hzs & Hd & [Hd1 _]
          & Hsp & Hsep & _ & <-).
  intros (ws' & zs' & d' & sp' & rest' & E' & Hws' & Hzs' & Hd' & [Hd1' _]
          & Hsp' & Hsep' & _ & <-).
  rewrite E in E'. clear E name.
  assert (HD : forallb isdecimal (zs ++ d) = true).
  { rewrite forallb_app, Hd, (forallb_impl _ _ _ zero_is_decimal Hzs).
    reflexivity. }
  assert (HD' : forallb isdecimal (zs' ++ d') = true).
  { rewrite forallb_app, Hd', (forallb_impl _ _ _ zero_is_decimal Hzs').
    reflexivity. }
  rewrite <- (decimal_value_zeros zs d Hzs),
          <- (decimal_value_zeros zs' d' Hzs').
  destruct (zs ++ d) as [|x D] eqn:ED.
  { apply app_eq_nil in ED as [_ ->]. cbn in Hd1. lia. }
  destruct (zs' ++ d') as [|x' D'] eqn:ED'.
  { apply app_eq_nil in ED' as [_ ->]. cbn in Hd1'. lia. }
  assert (E1 : ws ++ x :: (D ++ sp ++ rest) = ws' ++ x' :: (D' ++ sp' ++ rest')).
  { change (x :: D ++ sp ++ rest) with ((x :: D) ++ sp ++ rest).
    change (x' :: D' ++ sp' ++ rest') with ((x' :: D') ++ sp' ++ rest').
    rewrite <- ED, <- ED'. repeat rewrite <- app_assoc. exact E'. }
  cbn [forallb] in HD, HD'.
  apply andb_prop in HD as [Hx HD]. apply andb_prop in HD' as [Hx' HD'].
  destruct (span_unique isspace _ _ _ _ _ _ E1 Hws Hws'
              (decimal_not_space _ Hx) (decimal_not_space _ Hx')) as [_ E2].
  destruct sp as [|y sp]; [congruence|].
  destruct sp' as [|y' sp']; [congruence|].
  cbn [forallb] in Hsep, Hsep'.
  apply andb_prop in Hsep as [Hy _]. apply andb_prop in Hsep' as [Hy' _].
  change (x :: D ++ (y :: sp) ++ rest)
    with ((x :: D) ++ y :: (sp ++ rest)) in E2.
  change (x' :: D' ++ (y' :: sp') ++ rest')
    with ((x' :: D') ++ y' :: (sp' ++ rest')) in E2.
  destruct (span_unique isdecimal _ _ _ _ _ _ E2) as [E3 _];
    cbn [forallb]; rewrite ?Hx, ?Hx', ?HD, ?HD';
    auto using separator_not_plain.
  now rewrite E3.
Qed.

(** [int(m.group(1))] is [n] exactly for the names of prefix form [n]. *)
Lemma prefix_number_spec (name : str) (n : Z) :
  prefix_number name = Some n <-> prefix_form name n.
Proof.
  unfold prefix_number. split.
  - destruct (Re.match_items TRACK_PREFIX_RE Re.at_end name)
      as [[segs rest]|] eqn:M; [|discriminate].
    apply match_items_sound, reading_prefix_form in M as (Hf & Hne & Hd & Hl).
    rewrite (int_decimal _ Hne Hd Hl). now intros [= <-].
  - intros Hf. destruct (prefix_form_reading name n Hf) as (segs0 & rest0 & R).
    apply match_items_complete in R.
    destruct (Re.match_items TRACK_PREFIX_RE Re.at_end name)
      as [[segs rest]|] eqn:M; [|congruence].
    apply match_items_sound, reading_prefix_form in M as (Hf' & Hne & Hd & Hl).
    rewrite (int_decimal _ Hne Hd Hl). f_equal.
    exact (prefix_form_unique name _ _ Hf' Hf).
Qed.

Lemma number_matches_spec (n : Z) (name : str) :
  number_matches n name = true <-> prefix_form name n.
Proof.
  unfold number_matches. rewrite <- prefix_number_spec.
  destruct (prefix_number name) as [z|].
  - rewrite Z.eqb_eq. split; congruence.
  - split; discriminate.
Qed.

Lemma number_matches_false (n : Z) (name : str) :
  number_matches n name = false <-> ~ prefix_form name n.
Proof.
  rewrite <- number_matches_spec. destruct (number_matches n name);
    split; congruence.
Qed.



(** With a single candidate, every way through the matcher returns it. *)
Lemma find_track_file_singleton (glob : str -> str -> list str)
  (dir pattern c : str) (n : Z) :
  glob dir pattern = [c] ->
  find_track_file glob dir n pattern = Some c.
Proof.
  intros E. unfold find_track_file. rewrite E. cbn [find].
  destruct (number_matches n c); [reflexivity|].
  destruct (contains (format_02d n) c); reflexivity.
Qed.

End PrefixNumber.

Section TrackFileMatcher.
Import Py Postprocess Notions.




(** C6: the fallback of [find_track_file] tests the number of listed
    files, and tests it twice, where the comment above it reads: exactly
    one file and only one track.  In a directory that lists a single
    file every track number is given that file, whatever its name; so
    for the file [only.wav], whose name carries no number, and a sheet of
    two tracks, the file goes to track 1 and is returned again for
    track 2, where the claim has no match returned. *)
Theorem singleton_fallback :
  (forall (c dir pattern : str) (n : Z),
      find_track_file (fun _ _ => [c]) dir n pattern = Some c)
  /\ prefix_number (lit "only.wav") = None
  /\ contains (format_02d 1) (lit "only.wav") = false
  /\ contains (format_02d 2) (lit "only.wav") = false
  /\ parse_cue [lit "TRACK 01 AUDIO"; lit "TRACK 02 AUDIO"]
     = Ok (Cue (Album None None [] None)
               [Track 1 None None None; Track 2 None None None])
  /\ process (fun _ _ => [lit "only.wav"])
       [lit "TRACK 01 AUDIO"; lit "TRACK 02 AUDIO"]
       (lit "album") (lit "tracks") (lit "*.*") (lit "m4a")
     = Ok [Convert 1 (lit "only.wav") (lit "only.m4a");
           Convert 2 (lit "only.wav") (lit "only.m4a")].
Proof.
  split.
  - intros c dir pattern n. now apply find_track_file_singleton.
  - repeat split.
Qed.

(** C8: the two examples hold: the leading number and its separator
    are removed, and sanitizing leaves the rest as it is.  But for the
    file [01 - ?.wav] of track 1 the name left after the extension is
    dropped is [?], which sanitizing empties after the test for an empty
    name has been made: the title is not substituted and the file
    written is named [.m4a]. *)
Theorem normalizer_examples_and_empty_name :
  base_title 1 (lit "01 - Foo.wav") = lit "Foo.wav"
  /\ sanitize_filename (lit "Foo.wav") = lit "Foo.wav"
  /\ base_title 1 (lit "1_Song Title.flac") = lit "Song Title.flac"
  /\ sanitize_filename (lit "Song Title.flac") = lit "Song Title.flac"
  /\ out_name 1 (lit "Foo Title") (lit "01 - Foo.wav") (lit "m4a")
     = lit "Foo.m4a"
  /\ out_name 1 (lit "Question") (lit "01 - .") (lit "m4a")
     = lit "Question.m4a"
  /\ base_title 1 (lit "01 - ?.wav") = lit "?.wav"
  /\ Pathlib.stem (lit "?.wav") = lit "?"
  /\ sanitize_filename (lit "?") = []
  /\ out_name 1 (lit "Question") (lit "01 - ?.wav") (lit "m4a") = lit ".m4a".
Proof. repeat split. Qed.

End TrackFileMatcher.

Section SheetParserTolerance.
Import Py Postprocess Notions.

Lemma dropwhile_snoc (p : ascii -> bool) (l : str) (c : ascii) :
  p c = false -> dropwhile p (l ++ [c]) = dropwhile p l ++ [c].
Proof.
  intros H. induction l as [|x l IH]; cbn [app dropwhile].
  - now rewrite H.
  - destruct (p x); [exact IH | reflexivity].
Qed.

(** A stripped text does not begin with a stripped character. *)
Lemma strip_by_head (p : ascii -> bool) (s : str) (c : ascii) (r : str) :
  strip_by p s = c :: r -> p c = false.
Proof.
  unfold strip_by, rstrip_by, lstrip_by.
  assert (H : forall t, dropwhile p t = [] \/
                        exists x u, dropwhile p t = x :: u /\ p x = false).
  { induction t as [|x t IH]; [now left|]. cbn [dropwhile].
    destruct (p x) eqn:E; [exact IH|]. right. now exists x, t. }
  destruct (H s) as [->|(x & u & -> & Hx)].
  - discriminate.
  - cbn [rev]. rewrite dropwhile_snoc by exact Hx.
    rewrite rev_app_distr. cbn [rev app]. now intros [= <- _].
Qed.

Lemma split_ws_nonempty (k : nat) (c : ascii) (s : str) :
  isspace c = false -> split_ws k (c :: s) <> [].
Proof.
  intros H. unfold split_ws. cbn [split_ws_go]. rewrite H.
  destruct k; [discriminate|].
  generalize [c] as w. generalize (S k) as j.
  induction s as [|x s IH]; intros j w; cbn [split_ws_go]; [discriminate|].
  destruct (isspace x); [discriminate | apply IH].
Qed.

Lemma track_key_tests (k : str) :
  str_eqb k (lit "TRACK") = true ->
  str_eqb k (lit "PERFORMER") = false /\ str_eqb k (lit "TITLE") = false
  /\ str_eqb k (lit "FILE") = false.
Proof. intros H. apply str_eqb_eq in H. subst k. repeat split. Qed.

Lemma file_key_tests (k : str) :
  str_eqb k (lit "FILE") = true ->
  str_eqb k (lit "PERFORMER") = false /\ str_eqb k (lit "TITLE") = false.
Proof. intros H. apply str_eqb_eq in H. subst k. repeat split. Qed.

Lemma is_ok_cons {A : Type} (r : result (list A)) (x : A) :
  is_ok (bind r (fun l => Ok (x :: l))) = is_ok r.
Proof. now destruct r. Qed.

Lemma whitespace_plain (c : ascii) :
  Shlex.whitespace c = true ->
  Ascii.eqb c backslash = false /\ Ascii.eqb c squote = false
  /\ Ascii.eqb c dquote = false /\ isspace c = true.
Proof.
  destruct c as [[|] [|] [|] [|] [|] [|] [|] [|]];
    vm_compute; intros H; try discriminate H; repeat split.
Qed.

(** The tokenizer ends without error exactly when the reading of the
    quotations does: the two run through corresponding states. *)
Lemma tokens_closed (s : str) :
  forall (tok : str) (quoted : bool),
    is_ok (Shlex.tokens Shlex.Blank tok quoted s) = quoting_closed Outside s
    /\ is_ok (Shlex.tokens Shlex.Word tok quoted s) = quoting_closed Outside s
    /\ is_ok (Shlex.tokens (Shlex.InQuote squote) tok quoted s)
       = quoting_closed InSingle s
    /\ is_ok (Shlex.tokens (Shlex.InQuote dquote) tok quoted s)
       = quoting_closed InDouble s
    /\ is_ok (Shlex.tokens (Shlex.Escaped None) tok quoted s)
       = match s with [] => false | _ :: s' => quoting_closed Outside s' end
    /\ is_ok (Shlex.tokens (Shlex.Escaped (Some dquote)) tok quoted s)
       = match s with [] => false | _ :: s' => quoting_closed InDouble s' end.
Proof.
  induction s as [|c s IH]; intros tok quoted; [repeat split|].
  assert (Outer : forall tok1 tok2 tok3 quoted,
             is_ok (if Shlex.escape c
                    then Shlex.tokens (Shlex.Escaped None) tok1 quoted s
                    else if Shlex.quotes c
                         then Shlex.tokens (Shlex.InQuote c) tok2 quoted s
                         else Shlex.tokens Shlex.Word tok3 quoted s)
             = quoting_closed Outside (c :: s)).
  { intros tok1 tok2 tok3 quoted'. cbn [quoting_closed].
    unfold Shlex.escape, Shlex.quotes.
    destruct (Ascii.eqb c backslash) eqn:Eb.
    { now destruct (IH tok1 quoted') as (_ & _ & _ & _ & -> & _). }
    destruct (Ascii.eqb c squote) eqn:Es.
    { apply Ascii.eqb_eq in Es. subst c. cbn [orb].
      now destruct (IH tok2 quoted') as (_ & _ & -> & _). }
    destruct (Ascii.eqb c dquote) eqn:Ed.
    { apply Ascii.eqb_eq in Ed. subst c. cbn [orb].
      now destruct (IH tok2 quoted') as (_ & _ & _ & -> & _). }
    cbn [orb]. now destruct (IH tok3 quoted') as (_ & -> & _). }
  split; [|split; [|split; [|split; [|split]]]].
  - cbn [Shlex.tokens]. destruct (Shlex.whitespace c) eqn:W.
    + destruct (whitespace_plain c W) as (Eb & Es & Ed & _).
      cbn [quoting_closed]. rewrite Eb, Es, Ed.
      destruct (Shlex.emits tok quoted); [rewrite is_ok_cons|].
      * now destruct (IH [] false) as (-> & _).
      * now destruct (IH tok quoted) as (-> & _).
    + apply Outer.
  - cbn [Shlex.tokens]. destruct (Shlex.whitespace c) eqn:W.
    + destruct (whitespace_plain c W) as (Eb & Es & Ed & _).
      cbn [quoting_closed]. rewrite Eb, Es, Ed.
      destruct (Shlex.emits tok quoted); [rewrite is_ok_cons|].
      * now destruct (IH [] false) as (-> & _).
      * now destruct (IH tok quoted) as (-> & _).
    + rewrite <- (Outer tok tok (tok ++ [c]) quoted).
      destruct (Shlex.quotes c) eqn:Eq, (Shlex.escape c) eqn:Ee;
        try reflexivity.
      exfalso. unfold Shlex.escape, Shlex.quotes in *.
      apply Ascii.eqb_eq in Ee. subst c. discriminate Eq.
  - cbn [Shlex.tokens quoting_closed].
    destruct (Ascii.eqb c squote).
    + now destruct (IH tok true) as (_ & -> & _).
    + change (Shlex.escapedquotes squote) with false.
      rewrite andb_false_r.
      now destruct (IH (tok ++ [c]) true) as (_ & _ & -> & _).
  - cbn [Shlex.tokens quoting_closed].
    destruct (Ascii.eqb c dquote).
    + now destruct (IH tok true) as (_ & -> & _).
    + change (Shlex.escapedquotes dquote) with true.
      rewrite andb_true_r. unfold Shlex.escape.
      destruct (Ascii.eqb c backslash).
      * now destruct (IH tok true) as (_ & _ & _ & _ & _ & ->).
      * now destruct (IH (tok ++ [c]) true) as (_ & _ & _ & -> & _).
  - cbn [Shlex.tokens].
    now destruct (IH (tok ++ [c]) quoted) as (_ & -> & _).
  - cbn [Shlex.tokens].
    match goal with
    | |- is_ok (Shlex.tokens _ ?t _ _) = _ =>
        now destruct (IH t quoted) as (_ & _ & _ & -> & _)
    end.
Qed.

(** [shlex.split] succeeds exactly on the lines that leave no quotation
    open and no backslash dangling. *)
Lemma shlex_split_closed (s : str) :
  is_ok (Shlex.split s) = quoting_closed Outside s.
Proof. unfold Shlex.split. now destruct (tokens_closed s [] false). Qed.

(** The tokenizer raises nothing but [ValueError]. *)
Lemma tokens_raise (s : str) :
  forall (st : Shlex.lex_state) (tok : str) (quoted : bool) (e : exn),
    Shlex.tokens st tok quoted s = Raise e -> e = ValueError.
Proof.
  assert (B : forall (r : result (list str)) (t : str) (e : exn),
             (forall e', r = Raise e' -> e' = ValueError) ->
             bind r (fun l => Ok (t :: l)) = Raise e -> e = ValueError).
  { intros [l|e'] t e H E; [discriminate E|].
    cbn in E. injection E as <-. now apply H. }
  induction s as [|c s IH]; intros st tok quoted e H.
  - destruct st; cbn in H; congruence.
  - destruct st as [| |q|[q|]]; cbn [Shlex.tokens] in H.
    + destruct (Shlex.whitespace c).
      * destruct (Shlex.emits tok quoted); [|now apply IH in H].
        apply B in H; [exact H|]. intros e' E. now apply IH in E.
      * destruct (Shlex.escape c); [now apply IH in H|].
        destruct (Shlex.quotes c); now apply IH in H.
    + destruct (Shlex.whitespace c).
      * destruct (Shlex.emits tok quoted); [|now apply IH in H].
        apply B in H; [exact H|]. intros e' E. now apply IH in E.
      * destruct (Shlex.quotes c); [now apply IH in H|].
        destruct (Shlex.escape c); now apply IH in H.
    + destruct (Ascii.eqb c q); [now apply IH in H|].
      destruct (Shlex.escape c && Shlex.escapedquotes q); now apply IH in H.
    + now apply IH in H.
    + now apply IH in H.
Qed.

(** A token under way is not lost. *)
Lemma tokens_pending (s : str) :
  forall (tok : str) (quoted : bool),
    (Shlex.emits tok quoted = true ->
     Shlex.tokens Shlex.Blank tok quoted s <> Ok []
     /\ Shlex.tokens Shlex.Word tok quoted s <> Ok [])
    /\ (forall q, Shlex.tokens (Shlex.InQuote q) tok quoted s <> Ok [])
    /\ (forall es, Shlex.tokens (Shlex.Escaped es) tok quoted s <> Ok []).
Proof.
  assert (Snoc : forall (t : str) (c : ascii) (q : bool),
             Shlex.emits (t ++ [c]) q = true).
  { intros t c q. now destruct t. }
  assert (Quoted : forall t : str, Shlex.emits t true = true).
  { intros t. now destruct t. }
  assert (Cons : forall (r : result (list str)) (t : str),
             bind r (fun l => Ok (t :: l)) <> Ok []).
  { intros [l|e] t; discriminate. }
  induction s as [|c s IH]; intros tok quoted.
  - cbn [Shlex.tokens]. split; [|split; intros; discriminate].
    intros E. unfold Shlex.finish.
    destruct tok; [cbn in E; rewrite E|]; split; discriminate.
  - split; [|split].
    + intros E. cbn [Shlex.tokens]. rewrite E.
      destruct (Shlex.whitespace c); [split; apply Cons|].
      destruct (Shlex.escape c), (Shlex.quotes c); split;
        try apply (proj1 (proj2 (IH _ _)));
        try apply (proj2 (proj2 (IH _ _)));
        try (apply (proj1 (IH _ _)); now rewrite ?Snoc).
    + intros q. cbn [Shlex.tokens].
      destruct (Ascii.eqb c q).
      * apply (proj1 (IH _ _)). apply Quoted.
      * destruct (Shlex.escape c && Shlex.escapedquotes q).
        -- apply (proj2 (proj2 (IH _ _))).
        -- apply (proj1 (proj2 (IH _ _))).
    + intros [q|]; cbn [Shlex.tokens].
      * apply (proj1 (proj2 (IH _ _))).
      * apply (proj1 (IH _ _)). apply Snoc.
Qed.

(** A line that begins with a character of a word has a first field. *)
Lemma shlex_split_nonempty (c : ascii) (s : str) :
  Shlex.whitespace c = false -> Shlex.split (c :: s) <> Ok [].
Proof.
  intros W. unfold Shlex.split. cbn [Shlex.tokens]. rewrite W.
  destruct (Shlex.escape c), (Shlex.quotes c);
    try apply (proj1 (proj2 (tokens_pending s _ _)));
    try apply (proj2 (proj2 (tokens_pending s _ _)));
    now apply (proj1 (tokens_pending s _ _)).
Qed.

(** Groups of digits joined by single underscores are the body of an
    integer literal. *)
Lemma int_body_groups (s : str) :
  forall (cur : str) (acc : N),
    forallb isdecimal cur = true ->
    forallb digit_group (split_go (lit "_") 0 cur s) = true ->
    exists n, int_body (negb (str_eqb cur [])) acc s = Some n.
Proof.
  change (lit "_") with ["_"].
  induction s as [|c s IH]; intros cur acc Hcur H.
  - cbn [split_go forallb] in H. rewrite andb_true_r in H.
    unfold digit_group in H. apply andb_prop in H as [H _].
    assert (E : str_eqb cur [] = false).
    { apply str_eqb_neq. intros ->. discriminate H. }
    rewrite E. cbn. now eexists.
  - cbn [split_go startswith] in H. rewrite andb_true_r in H.
    destruct (Ascii.eqb "_" c) eqn:E.
    + apply Ascii.eqb_eq in E. subst c. cbn [length Nat.sub forallb] in H.
      apply andb_prop in H as [Hg H].
      unfold digit_group in Hg. apply andb_prop in Hg as [Hg _].
      assert (E : str_eqb cur [] = false).
      { apply str_eqb_neq. intros ->. discriminate Hg. }
      rewrite E. cbn [negb int_body].
      change (isdecimal "_") with false. cbv iota.
      change (Ascii.eqb "_" "_" && true) with true. cbv iota.
      apply (IH [] acc eq_refl H).
    + destruct (split_go_cur ["_"] 0 (c :: cur) s) as (h & t & _ & E2).
      pose proof H as H'. rewrite E2 in H'. cbn [forallb] in H'.
      apply andb_prop in H' as [Hg _].
      unfold digit_group in Hg. apply andb_prop in Hg as [_ Hg].
      rewrite forallb_app, forallb_rev in Hg.
      apply andb_prop in Hg as [Hg _].
      pose proof Hg as Hg'. cbn [forallb] in Hg'.
      apply andb_prop in Hg' as [Hc _].
      cbn [int_body]. rewrite Hc.
      destruct (IH (c :: cur) (10 * acc + digit_val c)%N Hg H) as [n En].
      assert (N : str_eqb (c :: cur) [] = false) by now apply str_eqb_neq.
      rewrite N in En. exists n. exact En.
Qed.

(** [int] converts the text of an integer. *)
Lemma integer_literal_int (s : str) :
  integer_literal s = true -> exists z, int s = Ok z.
Proof.
  unfold integer_literal, int. intros H.
  apply andb_prop in H as [Hg Hl]. apply Nat.leb_le in Hl.
  set (t := strip_by int_space s) in *.
  assert (G : forall body,
             forallb digit_group (split (lit "_") body) = true ->
             length (filter isdecimal body) <= max_str_digits ->
             forall neg : bool,
             exists z,
               match int_body false 0 body with
               | Some n =>
                   if (max_str_digits <? length (filter isdecimal body))%nat
                   then Raise ValueError
                   else Ok (if neg then (- Z.of_N n)%Z else Z.of_N n)
               | None => Raise ValueError
               end = Ok z).
  { intros body Hb Lb neg.
    destruct (int_body_groups body [] 0%N eq_refl Hb) as [n En].
    change (negb (str_eqb [] [])) with false in En. rewrite En.
    destruct (max_str_digits <? length (filter isdecimal body))%nat eqn:E.
    - apply Nat.ltb_lt in E. lia.
    - now eexists. }
  destruct t as [|c r]; [exact (G [] Hg Hl false)|].
  destruct (Ascii.eqb c "-"); [exact (G r Hg Hl true)|].
  destruct (Ascii.eqb c "+"); [exact (G r Hg Hl false)|].
  exact (G (c :: r) Hg Hl false).
Qed.

Lemma search_later (items : list Re.item) (final : str -> bool) (a s : str) :
  Re.match_items items final s <> None ->
  Re.search items final (a ++ s) <> None.
Proof.
  intros H. induction a as [|x a IH]; cbn [app].
  - destruct s; cbn [Re.search];
      destruct (Re.match_items items final _); congruence.
  - cbn [Re.search].
    destruct (Re.match_items items final (x :: a ++ s)); [discriminate|].
    exact IH.
Qed.

(** The search for a quoted name finds one where the line holds one. *)
Lemma quoted_name_found (line : str) :
  holds_quoted_name line -> exists g, quoted_name line = Some g.
Proof.
  intros (a & b & c & -> & Hne & Hb). unfold quoted_name.
  assert (M : Re.match_items
                [Re.one dquote;
                 Re.plus (fun c => negb (Ascii.eqb c dquote));
                 Re.one dquote]
                (fun _ => true) (dquote :: b ++ dquote :: c) <> None).
  { apply (match_items_complete _ _ _ [[dquote]; b; [dquote]] c).
    split; [|split; [|reflexivity]].
    - cbn [concat app]. now rewrite <- app_assoc.
    - assert (L : 1 <= length b) by (destruct b; [congruence | cbn; lia]).
      repeat apply Forall2_cons; try apply Forall2_nil;
        unfold fits; cbn [Re.one Re.plus Re.cls Re.lo Re.hi forallb length];
        rewrite ?Ascii.eqb_refl; repeat split; auto. }
  pose proof (search_later _ _ a _ M) as S.
  destruct (Re.search _ _ (a ++ dquote :: b ++ dquote :: c)) as [[segs r]|];
    [now eexists | congruence].
Qed.

Lemma cue_line_tolerated (raw : str) :
  tolerated raw ->
  forall st, exists st', cue_line st raw = Ok st'.
Proof.
  intros H st. unfold tolerated in H. cbv zeta in H. unfold cue_line.
  destruct (strip raw) as [|c s] eqn:Es.
  { change (str_eqb [] []) with true. cbv iota. now eexists. }
  assert (N : str_eqb (c :: s) [] = false) by now apply str_eqb_neq.
  rewrite N. destruct H as [H|[Hq Hk]]; [discriminate H|].
  pose proof (strip_by_head _ _ _ _ Es) as Hc.
  assert (T : exists p0 rest, tokenize (c :: s) = Ok (p0 :: rest)).
  { unfold tokenize in *. destruct (mem_char dquote (c :: s)).
    - pose proof (shlex_split_closed (c :: s)) as C.
      rewrite (Hq eq_refl) in C.
      assert (W : Shlex.whitespace c = false).
      { destruct (Shlex.whitespace c) eqn:W; [|reflexivity].
        destruct (whitespace_plain c W) as (_ & _ & _ & Sp). congruence. }
      pose proof (shlex_split_nonempty c s W) as Ne.
      destruct (Shlex.split (c :: s)) as [[|p0 rest]|]; try discriminate C;
        [congruence | now eexists; eexists].
    - pose proof (split_ws_nonempty 2 c s Hc) as Ne.
      destruct (split_ws 2 (c :: s)) as [|p0 rest]; [congruence|].
      now eexists; eexists. }
  destruct T as (p0 & rest & T). rewrite T.
  destruct (Hk _ T) as [KT KF]. cbn [hd] in KT, KF.
  cbn [bind index nth_error].
  destruct (str_eqb (upper p0) (lit "REM")) eqn:ER.
  { destruct rest as [|p1 [|p2 r]]; now eexists. }
  destruct (str_eqb (upper p0) (lit "TRACK")) eqn:ET.
  { destruct (track_key_tests _ ET) as (E1 & E2 & E3).
    rewrite E1, E2, E3. apply str_eqb_eq in ET.
    destruct (KT ET) as (p1 & Ep & Hi). unfold index. rewrite Ep.
    cbn [bind]. destruct (integer_literal_int p1 Hi) as [z ->].
    destruct (st_current st); now eexists. }
  destruct (str_eqb (upper p0) (lit "FILE")) eqn:EF.
  { destruct (file_key_tests _ EF) as (E1 & E2). rewrite E1, E2.
    apply str_eqb_eq in EF.
    assert (G : exists f,
               match quoted_name (c :: s) with
               | Some g => Ok g
               | None => bind (index (p0 :: rest) 1)
                           (fun p1 => Ok (strip_char dquote p1))
               end = Ok f).
    { destruct (KF EF) as [L|Q].
      - destruct (quoted_name (c :: s)); [now eexists|].
        destruct rest; [cbn in L; lia | unfold index; now eexists].
      - destruct (quoted_name_found _ Q) as [g ->]. now eexists. }
    destruct G as [f G].
    destruct (st_current st); rewrite G; now eexists. }
  destruct (st_current st);
    destruct (str_eqb (upper p0) (lit "PERFORMER"));
    destruct (str_eqb (upper p0) (lit "TITLE"));
    destruct (str_eqb (upper p0) (lit "INDEX"));
    now eexists.
Qed.

Lemma cue_lines_tolerated (raws : list str) :
  Forall tolerated raws ->
  forall st, exists st', cue_lines st raws = Ok st'.
Proof.
  induction 1 as [|raw raws H1 H2 IH]; intros st; [now eexists|].
  destruct (cue_line_tolerated raw H1 st) as [st1 E1].
  cbn [cue_lines]. rewrite E1. cbn [bind]. now apply IH.
Qed.

(** C4, as stated, fails: a line with a quotation left open makes the
    parse raise [ValueError], and so does a [TRACK] line without a
    number; a [TRACK] line without a second field raises
    [IndexError]. *)
Lemma open_quotation_counterexample :
  parse_cue [lit "TITLE " ++ [dquote] ++ lit "Unfinished"] = Raise ValueError
  /\ parse_cue [lit "TRACK one AUDIO"] = Raise ValueError
  /\ parse_cue [lit "TRACK"] = Raise IndexError.
Proof. repeat split. Qed.

(** C4, amended: [parse_cue] returns a result for every sequence of
    tolerated lines: blank lines, and lines that, if they hold a double
    quote, leave no quotation open and no backslash dangling, and whose
    fields have, after [TRACK], the text of an integer of at most 4300
    digits and, after [FILE], a second field or a quoted name on the
    line.  A line that holds a double quote and leaves a quotation open
    or a backslash dangling makes the parse raise [ValueError].  Blank
    lines, lines with an unknown first keyword and [REM] lines of fewer
    than three fields leave the state as it is; and a line without a
    double quote whose keyword is neither [TRACK] nor [FILE] is always
    tolerated. *)
Theorem parse_cue_tolerant :
  (forall raws,
      Forall tolerated raws -> exists c, parse_cue raws = Ok c)
  /\ (forall st raw,
         mem_char dquote (strip raw) = true ->
         quoting_closed Outside (strip raw) = false ->
         cue_line st raw = Raise ValueError)
  /\ (forall st raw, strip raw = [] -> cue_line st raw = Ok st)
  /\ (forall st raw p0 rest,
         strip raw <> [] ->
         tokenize (strip raw) = Ok (p0 :: rest) ->
         known_key (upper p0) = false ->
         cue_line st raw = Ok st)
  /\ (forall st raw p0 rest,
         strip raw <> [] ->
         tokenize (strip raw) = Ok (p0 :: rest) ->
         upper p0 = lit "REM" -> length rest < 2 ->
         cue_line st raw = Ok st)
  /\ (forall raw,
         mem_char dquote (strip raw) = false ->
         upper (hd [] (split_ws 2 (strip raw))) <> lit "TRACK" ->
         upper (hd [] (split_ws 2 (strip raw))) <> lit "FILE" ->
         tolerated raw).
Proof.
  split; [|split; [|split; [|split; [|split]]]].
  - intros raws H. unfold parse_cue.
    destruct (cue_lines_tolerated raws H cue_start) as [st E].
    rewrite E. cbn [bind]. now eexists.
  - intros st raw Hq Hc. unfold cue_line.
    destruct (str_eqb (strip raw) []) eqn:E.
    { apply str_eqb_eq in E. rewrite E in Hq. discriminate Hq. }
    unfold tokenize. rewrite Hq.
    pose proof (shlex_split_closed (strip raw)) as C. rewrite Hc in C.
    destruct (Shlex.split (strip raw)) as [parts|e] eqn:R;
      [discriminate C|].
    cbn [bind]. f_equal. exact (tokens_raise _ _ _ _ _ R).
  - intros st raw E. unfold cue_line. now rewrite E.
  - intros st raw p0 rest Hne Ht Hk. unfold cue_line.
    apply str_eqb_neq in Hne. rewrite Hne, Ht. cbn [bind index nth_error].
    unfold known_key in Hk. cbn [existsb] in Hk.
    repeat (apply orb_false_iff in Hk as [? Hk]).
    repeat match goal with H : str_eqb _ _ = false |- _ => rewrite H end.
    now destruct (st_current st).
  - intros st raw p0 rest Hne Ht Hk Hl. unfold cue_line.
    apply str_eqb_neq in Hne. rewrite Hne, Ht. cbn [bind index nth_error].
    rewrite Hk. change (str_eqb (lit "REM") (lit "REM")) with true. cbv iota.
    destruct rest as [|p1 [|p2 r]]; cbn in Hl; try reflexivity. lia.
  - intros raw Hq HT HF. unfold tolerated. cbv zeta. right.
    split; [rewrite Hq; discriminate|].
    intros parts E. unfold tokenize in E. rewrite Hq in E.
    injection E as <-. split; intros K; congruence.
Qed.

Lemma parse_cue_tolerant_witness :
  exists c,
    parse_cue
      [lit "REM"; lit "   "; lit "CATALOG 123";
       lit "TITLE " ++ [dquote] ++ lit "Say " ++ [backslash; dquote]
         ++ lit "Hi" ++ [backslash; dquote; dquote];
       lit "FILE " ++ [dquote] ++ lit "side a.wav" ++ [dquote] ++ lit " WAVE";
       lit "TRACK 07 AUDIO"; lit "  FLAGS DCP"] = Ok c.
Proof.
  apply (proj1 parse_cue_tolerant).
  repeat apply Forall_cons; try apply Forall_nil;
    try (left; reflexivity);
    right; (split; [intros _; reflexivity|]);
    intros parts E; vm_compute in E; injection E as <-;
    (split; intros K; try discriminate K).
  - right. exists (lit "FILE "), (lit "side a.wav"), (lit " WAVE").
    repeat split. discriminate.
  - exists (lit "07"). split; reflexivity.
Defined.

End SheetParserTolerance.

Section ReadingLines.
Import Py CueGenerator Notions.

Lemma universal_newlines_plain (s : str) :
  forallb (fun c => negb (Ascii.eqb c creturn)) s = true ->
  universal_newlines s = s.
Proof.
  induction s as [|c s IH]; [reflexivity|].
  cbn [forallb universal_newlines]. intros H.
  apply andb_prop in H as [Hc Hs]. apply negb_true_iff in Hc.
  rewrite Hc. f_equal. now apply IH.
Qed.

Lemma readlines_go_line (cur l rest : str) :
  no_newline l = true ->
  readlines_go cur (l ++ newline :: rest)
  = (cur ++ l ++ [newline]) :: readlines_go [] rest.
Proof.
  revert cur. induction l as [|c l IH]; intros cur H.
  - cbn [app readlines_go]. now rewrite Ascii.eqb_refl.
  - cbn [no_newline forallb] in H. apply andb_prop in H as [Hc Hl].
    apply negb_true_iff in Hc.
    cbn [app readlines_go]. rewrite Hc, (IH _ Hl).
    now rewrite <- app_assoc.
Qed.

Lemma readlines_go_unlines (ls : list str) :
  Forall (fun l => no_newline l = true) ls ->
  readlines_go [] (unlines ls) = map (fun l => l ++ [newline]) ls.
Proof.
  induction 1 as [|l ls Hl Hls IH]; [reflexivity|].
  cbn [unlines flat_map map]. rewrite <- app_assoc. cbn [app].
  rewrite (readlines_go_line [] l _ Hl). cbn [app]. f_equal. exact IH.
Qed.

End ReadingLines.

Section StripFacts.
Import Py.

Lemma dropwhile_app_all (p : ascii -> bool) (pre s : str) :
  forallb p pre = true -> dropwhile p (pre ++ s) = dropwhile p s.
Proof.
  induction pre as [|c pre IH]; [reflexivity|].
  cbn [forallb app dropwhile]. intros H. apply andb_prop in H as [Hc Hp].
  rewrite Hc. now apply IH.
Qed.

Lemma dropwhile_all (p : ascii -> bool) (s : str) :
  forallb p s = true -> dropwhile p s = [].
Proof.
  intros H. rewrite <- (app_nil_r s). now rewrite dropwhile_app_all.
Qed.

Lemma dropwhile_head (p : ascii -> bool) (s : str) (d : ascii) :
  s <> [] -> p (hd d s) = false -> dropwhile p s = s.
Proof.
  destruct s as [|c s]; [congruence|]. cbn. now intros _ ->.
Qed.

Lemma hd_rev_last (s : str) (d : ascii) : hd d (rev s) = last s d.
Proof.
  induction s as [|c s IH]; [reflexivity|].
  cbn [rev]. destruct s as [|c' s]; [reflexivity|].
  change (last (c :: c' :: s) d) with (last (c' :: s) d).
  rewrite <- IH. cbn [rev]. destruct (rev s); reflexivity.
Qed.

(** Stripping removes exactly the strippable margins. *)
Lemma strip_by_core (p : ascii -> bool) (pre body post : str) (d : ascii) :
  forallb p pre = true -> forallb p post = true ->
  body <> [] -> p (hd d body) = false -> p (last body d) = false ->
  strip_by p (pre ++ body ++ post) = body.
Proof.
  intros Hpre Hpost Hne Hh Hl. unfold strip_by, lstrip_by, rstrip_by.
  rewrite dropwhile_app_all by exact Hpre.
  rewrite (dropwhile_head p (body ++ post) d).
  2:{ destruct body; [congruence | discriminate]. }
  2:{ destruct body; [congruence | exact Hh]. }
  rewrite rev_app_distr, dropwhile_app_all by now rewrite forallb_rev.
  rewrite (dropwhile_head p (rev body) d).
  - apply rev_involutive.
  - intros E. apply (f_equal (@rev ascii)) in E.
    rewrite rev_involutive in E. now apply Hne.
  - now rewrite hd_rev_last.
Qed.

Lemma strip_by_all (p : ascii -> bool) (s : str) :
  forallb p s = true -> strip_by p s = [].
Proof.
  intros H. unfold strip_by, lstrip_by, rstrip_by.
  now rewrite (dropwhile_all p s H).
Qed.

Lemma forallb_hd_last (q : ascii -> bool) (s : str) (d : ascii) :
  s <> [] -> forallb q s = true ->
  q (hd d s) = true /\ q (last s d) = true.
Proof.
  intros Hne H. rewrite forallb_forall in H. split; apply H.
  - destruct s; [congruence | now left].
  - destruct (exists_last Hne) as (i & l & ->).
    rewrite last_last. apply in_or_app. right. now left.
Qed.


End StripFacts.

Section SheetLines.
Import Py CueGenerator Postprocess Notions.














Lemma split_go_char (c : ascii) (a : str) :
  forallb (fun x => negb (Ascii.eqb c x)) a = true ->
  forall cur b,
    split_go [c] 0 cur (a ++ c :: b)
    = (rev cur ++ a) :: split_go [c] 0 [] b.
Proof.
  induction a as [|x a IH]; intros H cur b.
  - cbn [app split_go startswith]. rewrite Ascii.eqb_refl. cbn [andb length].
    now rewrite app_nil_r.
  - cbn [forallb] in H. apply andb_prop in H as [Hx Ha].
    apply negb_true_iff in Hx.
    cbn [app split_go startswith]. rewrite Hx. cbn [andb].
    rewrite (IH Ha). cbn [rev]. now rewrite <- app_assoc.
Qed.







End SheetLines.

Section RoundTrip.
Import Py CueGenerator Postprocess Notions.

Lemma cue_lines_app (st : cue_state) (a b : list str) :
  cue_lines st (a ++ b)
  = bind (cue_lines st a) (fun st' => cue_lines st' b).
Proof.
  revert st. induction a as [|l a IH]; intros st; [reflexivity|].
  cbn [app cue_lines].
  destruct (cue_line st l); cbn [bind]; [apply IH | reflexivity].
Qed.









Lemma inline_lines_text (ls : list str) :
  Forall (fun l => forallb inline_char l = true) ls ->
  Forall (fun l => no_newline l = true) ls
  /\ forallb (fun c => negb (Ascii.eqb c creturn)) (unlines ls) = true.
Proof.
  induction 1 as [|l ls Hl Hls [IH1 IH2]]; [split; [constructor | reflexivity]|].
  split.
  - constructor; [|exact IH1]. eapply forallb_impl; [|exact Hl].
    intros c Hc. unfold inline_char in Hc. now apply andb_prop in Hc as [-> _].
  - cbn [unlines flat_map]. rewrite !forallb_app. fold (unlines ls).
    rewrite IH2. cbn [forallb].
    rewrite (forallb_impl inline_char _ l); [reflexivity| |exact Hl].
    intros c Hc. unfold inline_char in Hc. now apply andb_prop in Hc as [_ ->].
Qed.





End RoundTrip.

(* ================================================================== *)
(** * Further properties of the generator *)
(* ================================================================== *)

Section SplitMore.
Import Py.

(** The first occurrence of the separator ends the first field. *)
Lemma split_go_first_occurrence (sep a rest : str) :
  sep <> [] ->
  contains sep (a ++ removelast sep) = false ->
  forall cur,
    split_go sep 0 cur (a ++ sep ++ rest)
    = (rev cur ++ a) :: split_go sep 0 [] rest.
Proof.
  intros Hne. induction a as [|c a IH]; intros H cur.
  - cbn [app]. rewrite split_go_match by exact Hne. now rewrite app_nil_r.
  - cbn [app contains] in H. apply orb_false_iff in H as [H1 H2].
    cbn [app]. rewrite split_go_step.
    + rewrite (IH H2). cbn [rev]. now rewrite <- app_assoc.
    + destruct (startswith sep (c :: a ++ sep ++ rest)) eqn:Hst;
        [|reflexivity].
      exfalso.
      assert (E : c :: a ++ sep ++ rest
                  = (c :: a ++ removelast sep) ++ [last sep " "] ++ rest).
      { cbn [app]. f_equal. rewrite <- (app_assoc a). f_equal.
        change (removelast sep ++ last sep " " :: rest)
          with (removelast sep ++ [last sep " "] ++ rest).
        rewrite app_assoc. f_equal. now apply app_removelast_last. }
      rewrite E in Hst. apply startswith_app_long in Hst.
      * congruence.
      * cbn [length]. rewrite length_app.
        assert (L : length sep = S (length (removelast sep))).
        { rewrite (app_removelast_last " " Hne) at 1.
          rewrite length_app. cbn. lia. }
        lia.
Qed.

Lemma split_first_occurrence (sep a rest : str) :
  sep <> [] ->
  contains sep (a ++ removelast sep) = false ->
  split sep (a ++ sep ++ rest) = a :: split sep rest.
Proof.
  intros Hne H. unfold split.
  now rewrite (split_go_first_occurrence sep a rest Hne H []).
Qed.

Lemma contains_char (c : ascii) (s : str) :
  forallb (fun x => negb (Ascii.eqb c x)) s = true -> contains [c] s = false.
Proof.
  induction s as [|x s IH]; [reflexivity|].
  cbn [forallb contains startswith]. intros H.
  apply andb_prop in H as [Hx Hs]. apply negb_true_iff in Hx.
  now rewrite Hx, (IH Hs).
Qed.

(** Fields of a split on one character hold the characters of the text
    other than that character. *)
Lemma split_char_fields (c : ascii) (q : ascii -> bool) (s : str) :
  (forall x, In x s -> Ascii.eqb c x = false -> q x = true) ->
  forall cur, forallb q cur = true ->
    Forall (fun f => forallb q f = true) (split_go [c] 0 cur s).
Proof.
  induction s as [|x s IH]; intros H cur Hcur.
  - cbn. constructor; [|constructor]. now rewrite forallb_rev.
  - cbn [split_go startswith]. rewrite andb_true_r.
    destruct (Ascii.eqb c x) eqn:E.
    + constructor; [now rewrite forallb_rev|].
      apply IH; [|reflexivity]. intros y Hy. apply H. now right.
    + apply IH.
      * intros y Hy. apply H. now right.
      * cbn [forallb]. rewrite Hcur, andb_true_r.
        apply H; [now left | exact E].
Qed.

Lemma split_go_snoc_char (c : ascii) (e : str) :
  forallb (fun x => negb (Ascii.eqb c x)) e = true ->
  forall s cur,
    split_go [c] 0 cur (s ++ c :: e) = split_go [c] 0 cur s ++ [e].
Proof.
  intros He. induction s as [|x s IH]; intros cur.
  - cbn [app split_go startswith]. rewrite Ascii.eqb_refl. cbn [andb length].
    rewrite split_go_absent by now apply contains_char. reflexivity.
  - cbn [app split_go startswith]. rewrite andb_true_r.
    destruct (Ascii.eqb c x); cbn [length Nat.sub]; now rewrite IH.
Qed.

(** Joining the fields gives the text back. *)
Lemma join_split_go (c : ascii) (s : str) :
  forall cur, join [c] (split_go [c] 0 cur s) = rev cur ++ s.
Proof.
  induction s as [|x s IH]; intros cur.
  - cbn. now rewrite app_nil_r.
  - cbn [split_go startswith]. rewrite andb_true_r.
    destruct (Ascii.eqb c x) eqn:E.
    + apply Ascii.eqb_eq in E. subst x. cbn [length Nat.sub].
      destruct (split_go_cur [c] 0 [] s) as (h & t & E1 & _).
      pose proof (IH []) as J. rewrite E1 in *.
      change (join [c] (rev cur :: h :: t))
        with (rev cur ++ [c] ++ join [c] (h :: t)).
      rewrite J. reflexivity.
    + rewrite IH. cbn [rev]. now rewrite <- app_assoc.
Qed.

End SplitMore.

Section GeneratorMore.
Import Py CueGenerator Notions Survey.

Lemma parse_lines_consumed (flag : bool) (contents : list str) :
  forall st,
    parse_lines flag st contents
    = parse_lines flag st (filter consumed contents).
Proof.
  induction contents as [|line rest IH]; intros st; [reflexivity|].
  cbn [filter]. unfold consumed at 1.
  destruct (is_title_line line) eqn:Et; cbn [orb].
  - cbn [parse_lines]. destruct (parse_line flag st line); cbn [bind];
      [apply IH | reflexivity].
  - destruct (is_track_entry line) eqn:Ee.
    + cbn [parse_lines]. destruct (parse_line flag st line); cbn [bind];
        [apply IH | reflexivity].
    + cbn [parse_lines]. rewrite (parse_line_ignored _ _ _ Et Ee).
      cbn [bind]. apply IH.
Qed.

(** X1: the text [parse_input_file] returns, or the error it raises,
    depends only on the title lines and the track entries: every other
    line (blank lines, comments, [REM] directives) can be removed without
    changing the outcome. *)
Theorem passed_over_lines_do_not_matter :
  forall (flag : bool) (contents : list str),
    parse_input_file flag contents
    = parse_input_file flag (filter consumed contents).
Proof.
  intros flag contents. unfold parse_input_file.
  now rewrite parse_lines_consumed.
Qed.

Lemma is_timestamp_no_space (ts : str) :
  is_timestamp ts = true ->
  forallb (fun x => negb (Ascii.eqb " " x)) ts = true.
Proof.
  apply forallb_impl. intros c H.
  destruct (Ascii.eqb " " c) eqn:E; [|reflexivity].
  apply Ascii.eqb_eq in E. subst c. discriminate H.
Qed.

Lemma first_substring_token (ts rest : str) :
  is_timestamp ts = true -> first_substring (ts ++ " " :: rest) = ts.
Proof.
  intros H. unfold first_substring, split. change (lit " ") with [" "].
  rewrite split_go_char by now apply is_timestamp_no_space. reflexivity.
Qed.

Lemma entry_is_track_entry (ts rest : str) :
  is_timestamp ts = true -> is_track_entry (ts ++ " " :: rest) = true.
Proof.
  intros H. unfold is_track_entry.
  rewrite timestamp_not_title_line
    by now rewrite first_substring_token.
  rewrite first_substring_token, H by exact H.
  destruct (str_eqb (ts ++ " " :: rest) []) eqn:E; [|reflexivity].
  apply str_eqb_eq in E. destruct ts; discriminate E.
Qed.

(** The first free text of an entry: what follows the last colon of
    the part before the separator, less three characters. *)
Lemma get_string1_shape (h f rest : str) :
  contains (lit " - ") (h ++ ":" :: f) = false ->
  forallb (fun x => negb (Ascii.eqb ":" x)) f = true ->
  get_string1 (h ++ ":" :: f) = skipn 3 f
  /\ (contains (lit " - ") ((h ++ ":" :: f) ++ lit " -") = false ->
      get_string1 ((h ++ ":" :: f) ++ lit " - " ++ rest) = skipn 3 f).
Proof.
  intros Hs Hf.
  assert (L : last_field (split (lit ":") (h ++ ":" :: f)) = f).
  { change (h ++ ":" :: f) with (h ++ lit ":" ++ f).
    apply split_last_occurrence; [discriminate | reflexivity|].
    now apply contains_char. }
  split.
  - unfold get_string1, slice_from.
    rewrite (split_absent (lit " - ") _ Hs).
    cbn [hd]. now rewrite L.
  - intros H. unfold get_string1, slice_from.
    rewrite (split_first_occurrence (lit " - ") (h ++ ":" :: f) rest
               ltac:(discriminate) H).
    cbn [hd]. now rewrite L.
Qed.

(** An integer literal of [n] digits denotes a number below the [n]-th
    power of ten. *)
Lemma int_body_bound (s : str) :
  forall (b : bool) (acc n : N),
    int_body b acc s = Some n ->
    (n < (acc + 1) * 10 ^ N.of_nat (length (filter isdecimal s)))%N.
Proof.
  induction s as [|c s IH]; intros b acc n H.
  - cbn in H. destruct b; [|discriminate]. injection H as <-. cbn. lia.
  - cbn [int_body] in H. cbn [filter].
    destruct (isdecimal c) eqn:Hc.
    + apply IH in H. cbn [length].
      rewrite Nat2N.inj_succ, N.pow_succ_r'.
      assert (Hv : (digit_val c < 10)%N).
      { unfold isdecimal in Hc. apply andb_prop in Hc as [H1 H2].
        apply N.leb_le in H1, H2. unfold digit_val. lia. }
      eapply N.lt_le_trans; [exact H|].
      rewrite N.mul_assoc. apply N.mul_le_mono_r. lia.
    + destruct (Ascii.eqb c "_" && b); [|discriminate]. now apply IH in H.
Qed.

(** What [int] returns can be written back by [str]. *)
Lemma int_within (s : str) (z : Z) :
  int s = Ok z -> within_limit z = true.
Proof.
  unfold int.
  assert (G : forall (body : str) (neg : bool),
             match int_body false 0 body with
             | Some n =>
                 if (max_str_digits <? length (filter isdecimal body))%nat
                 then Raise ValueError
                 else Ok (if neg then (- Z.of_N n)%Z else Z.of_N n)
             | None => Raise ValueError
             end = Ok z -> within_limit z = true).
  { intros body neg H.
    destruct (int_body false 0 body) as [n|] eqn:E; [|discriminate].
    destruct (max_str_digits <? length (filter isdecimal body))%nat eqn:L;
      [discriminate|].
    apply Nat.ltb_ge in L. apply int_body_bound in E.
    pose proof (pow_limit_mono _ L) as P.
    assert (B : (Z.of_N n < 10 ^ Z.of_nat (length (filter isdecimal body)))%Z).
    { rewrite <- nat_N_Z. change 10%Z with (Z.of_N 10).
      rewrite <- N2Z.inj_pow. lia. }
    injection H as <-. apply within_limit_spec. destruct neg; lia. }
  destruct (strip_by int_space s) as [|c r]; [apply (G [] false)|].
  destruct (Ascii.eqb c "-"); [apply (G r true)|].
  destruct (Ascii.eqb c "+"); [apply (G r false) | apply (G (c :: r) false)].
Qed.

(** The seconds of a converted timestamp are the value of its last
    field. *)
Lemma seconds_within (tok : str) (m sec : Z) :
  get_min_sec_from_timestamp tok = Ok (m, sec) -> within_limit sec = true.
Proof.
  unfold get_min_sec_from_timestamp.
  destruct (split (lit ":") tok) as [|f0 [|f1 [|f2 [|f3 l]]]];
    try discriminate.
  - destruct (int f0) as [a|]; [|discriminate].
    destruct (int f1) as [b|] eqn:E; [|discriminate].
    cbn [bind]. intros [= _ <-]. exact (int_within _ _ E).
  - destruct (int f0) as [a|]; [|discriminate].
    destruct (int f1) as [b|]; [|discriminate].
    destruct (int f2) as [c|] eqn:E; [|discriminate].
    cbn [bind]. intros [= _ <-]. exact (int_within _ _ E).
Qed.

(** X2: a track entry [TS FIRST - SECOND] whose timestamp converts and
    ends in a two-character seconds field, whose first text holds no
    colon and whose texts hold no further separator, is written, when
    the counter and the minutes have at most 4300 digits, as one track
    block of four lines: the [TRACK] line with the counter, the [TITLE]
    and [PERFORMER] lines, by default performer [FIRST] and title
    [SECOND] and the other way round when the mode flag is off, and the
    [INDEX 01] line with the minutes and seconds of the timestamp; the
    numbers are padded with zeros to two characters.  The counter goes
    up by one. *)
Theorem entry_block :
  forall (flag : bool) (k : Z) (text h : str) (d1 d2 : ascii)
         (first second : str) (m sec : Z),
    is_timestamp (h ++ [":"; d1; d2]) = true ->
    Ascii.eqb ":" d1 = false -> Ascii.eqb ":" d2 = false ->
    get_min_sec_from_timestamp (h ++ [":"; d1; d2]) = Ok (m, sec) ->
    within_limit k = true -> within_limit m = true ->
    forallb (fun x => negb (Ascii.eqb ":" x)) first = true ->
    contains (lit " - ") ((h ++ [":"; d1; d2]) ++ " " :: first ++ lit " -")
    = false ->
    contains (lit " - ") second = false ->
    parse_line flag (k, text)
      ((h ++ [":"; d1; d2]) ++ " " :: first ++ lit " - " ++ second)
    = Ok ((k + 1)%Z,
          text
          ++ (lit "  TRACK " ++ zfill 2 (str_of_Z k) ++ lit " AUDIO"
                ++ [newline])
          ++ (lit "    TITLE " ++ [dquote]
                ++ (if flag then second else first) ++ [dquote] ++ [newline])
          ++ (lit "    PERFORMER " ++ [dquote]
                ++ (if flag then first else second) ++ [dquote] ++ [newline])
          ++ (lit "    INDEX 01 " ++ zfill 2 (str_of_Z m) ++ lit ":"
                ++ zfill 2 (str_of_Z sec) ++ [newline])).
Proof.
  intros flag k text h d1 d2 first second m sec Hts H1 H2 Hg Wk Wm
         Hf Hsep Hsec.
  pose proof (seconds_within _ _ _ Hg) as Ws.
  set (ts := h ++ [":"; d1; d2]) in *.
  set (a := h ++ ":" :: d1 :: d2 :: " " :: first).
  assert (Ea : forall X, ts ++ " " :: first ++ X = a ++ X).
  { intros X. unfold ts, a. repeat rewrite <- app_assoc. reflexivity. }
  rewrite Ea in Hsep.
  assert (Ha : contains (lit " - ") a = false).
  { destruct (contains (lit " - ") a) eqn:C; [|reflexivity].
    apply (contains_app_l _ _ (lit " -")) in C. congruence. }
  assert (Hfa : forallb (fun x => negb (Ascii.eqb ":" x))
                  (d1 :: d2 :: " " :: first) = true).
  { cbn [forallb]. now rewrite H1, H2, Hf. }
  assert (Hfs : first_substring (ts ++ " " :: first ++ lit " - " ++ second)
                = ts) by now apply first_substring_token.
  rewrite (parse_line_block flag k text _ m sec); auto.
  2:{ now apply entry_is_track_entry. }
  2:{ now rewrite Hfs. }
  rewrite Ea.
  destruct (get_string1_shape h (d1 :: d2 :: " " :: first) second Ha Hfa)
    as [_ G].
  fold a in G. rewrite (G Hsep). cbn [skipn].
  unfold get_string2.
  rewrite (split_first_occurrence (lit " - ") a second
             ltac:(discriminate) Hsep).
  rewrite (split_absent _ _ Hsec).
  unfold track_block, track_header, index_time.
  repeat rewrite <- app_assoc. reflexivity.
Qed.

Lemma entry_block_witness :
  parse_line false (2%Z, []) (lit "03:15 Track Two - Artist B")
  = Ok (3%Z,
        lit "  TRACK 02 AUDIO" ++ [newline]
        ++ lit "    TITLE " ++ [dquote] ++ lit "Track Two" ++ [dquote]
        ++ [newline]
        ++ lit "    PERFORMER " ++ [dquote] ++ lit "Artist B" ++ [dquote]
        ++ [newline]
        ++ lit "    INDEX 01 03:15" ++ [newline]).
Proof.
  pose proof (entry_block false 2%Z [] (lit "03") "1" "5"
                (lit "Track Two") (lit "Artist B") 3%Z 15%Z
                eq_refl eq_refl eq_refl eq_refl
                ltac:(vm_compute; reflexivity) ltac:(vm_compute; reflexivity)
                eq_refl eq_refl eq_refl) as H.
  exact H.
Defined.

(** X3: two edges of the same code.  An entry without the separator
    gets the text [UNKNOWN] as its second text; and when the seconds
    field of the timestamp has one character only, the first text loses
    its first character, because three characters are always dropped
    after the last colon. *)
Theorem entry_edges :
  (forall (h : str) (d1 d2 : ascii) (first : str),
      Ascii.eqb ":" d1 = false -> Ascii.eqb ":" d2 = false ->
      forallb (fun x => negb (Ascii.eqb ":" x)) first = true ->
      contains (lit " - ") (h ++ [":"; d1; d2] ++ " " :: first) = false ->
      get_string1 (h ++ [":"; d1; d2] ++ " " :: first) = first
      /\ get_string2 (h ++ [":"; d1; d2] ++ " " :: first) = lit "UNKNOWN")
  /\ (forall (h : str) (d1 : ascii) (first second : str),
      Ascii.eqb ":" d1 = false ->
      forallb (fun x => negb (Ascii.eqb ":" x)) first = true ->
      contains (lit " - ") ((h ++ [":"; d1] ++ " " :: first) ++ lit " -")
      = false ->
      get_string1 ((h ++ [":"; d1] ++ " " :: first) ++ lit " - " ++ second)
      = tl first).
Proof.
  split.
  - intros h d1 d2 first H1 H2 Hf Hs. split.
    + change (h ++ [":"; d1; d2] ++ " " :: first)
        with (h ++ ":" :: (d1 :: d2 :: " " :: first)) in *.
      destruct (get_string1_shape h (d1 :: d2 :: " " :: first) [] Hs) as [G _].
      * cbn [forallb]. now rewrite H1, H2, Hf.
      * exact G.
    + unfold get_string2. now rewrite (split_absent _ _ Hs).
  - intros h d1 first second H1 Hf Hs.
    change (h ++ [":"; d1] ++ " " :: first)
      with (h ++ ":" :: (d1 :: " " :: first)) in *.
    destruct (get_string1_shape h (d1 :: " " :: first) second) as [_ G].
    + destruct (contains (lit " - ") (h ++ ":" :: d1 :: " " :: first))
        eqn:C; [|reflexivity].
      apply (contains_app_l _ _ (lit " -")) in C. congruence.
    + cbn [forallb]. now rewrite H1, Hf.
    + rewrite (G Hs). destruct first; reflexivity.
Qed.

Lemma entry_edges_witness :
  get_string1 ((lit "1" ++ [":"; "5"] ++ " " :: lit "Artist")
               ++ lit " - " ++ lit "Song")
  = lit "rtist".
Proof.
  exact (proj2 entry_edges (lit "1") "5" (lit "Artist") (lit "Song")
           eq_refl eq_refl eq_refl).
Defined.

End GeneratorMore.

Section GeneratorFiles.
Import Py CueGenerator Notions Survey.

Lemma isdigit_plain (c : ascii) :
  isdigit c = true ->
  int_space c = false /\ Ascii.eqb c "-" = false /\ Ascii.eqb c "+" = false.
Proof.
  destruct c as [[|] [|] [|] [|] [|] [|] [|] [|]];
    vm_compute; intros H; try discriminate H; repeat split.
Qed.

Lemma int_of_digits_nonneg (f : str) (z : Z) :
  forallb isdigit f = true -> int f = Ok z -> (0 <= z)%Z.
Proof.
  intros Hd. unfold int.
  rewrite strip_by_none.
  2:{ eapply forallb_impl; [|exact Hd]. intros c Hc.
      now destruct (isdigit_plain c Hc) as (-> & _). }
  destruct f as [|c f].
  - cbn. discriminate.
  - cbn [forallb] in Hd. apply andb_prop in Hd as [Hc _].
    destruct (isdigit_plain c Hc) as (_ & -> & ->).
    destruct (int_body false 0 (c :: f)); [|discriminate].
    destruct (max_str_digits <? length (filter isdecimal (c :: f)))%nat;
      [discriminate|].
    intros [= <-]. lia.
Qed.

Lemma timestamp_fields_are_digits (tok : str) :
  is_timestamp tok = true ->
  Forall (fun f => forallb isdigit f = true) (split (lit ":") tok).
Proof.
  intros H. unfold split. change (lit ":") with [":"].
  apply split_char_fields; [|reflexivity].
  intros x Hx E. unfold is_timestamp in H. rewrite forallb_forall in H.
  specialize (H x Hx). rewrite Ascii.eqb_sym, E, orb_false_r in H. exact H.
Qed.

(** X4: the minutes and seconds [get_min_sec_from_timestamp] returns
    for a timestamp-like text are never negative. *)
Theorem timestamp_nonnegative :
  forall (tok : str) (m sec : Z),
    is_timestamp tok = true ->
    get_min_sec_from_timestamp tok = Ok (m, sec) ->
    (0 <= m)%Z /\ (0 <= sec)%Z.
Proof.
  intros tok m sec Hts. pose proof (timestamp_fields_are_digits tok Hts) as F.
  unfold get_min_sec_from_timestamp.
  destruct (split (lit ":") tok) as [|f0 [|f1 [|f2 [|f3 l]]]];
    try discriminate.
  - inversion F as [|? ? D0 F1]; subst. inversion F1 as [|? ? D1 _]; subst.
    destruct (int f0) as [a|] eqn:E0; [|discriminate].
    destruct (int f1) as [b|] eqn:E1; [|discriminate].
    cbn [bind]. intros [= <- <-].
    split; eauto using int_of_digits_nonneg.
  - inversion F as [|? ? D0 F1]; subst. inversion F1 as [|? ? D1 F2]; subst.
    inversion F2 as [|? ? D2 _]; subst.
    destruct (int f0) as [a|] eqn:E0; [|discriminate].
    destruct (int f1) as [b|] eqn:E1; [|discriminate].
    destruct (int f2) as [c|] eqn:E2; [|discriminate].
    cbn [bind]. intros [= <- <-].
    pose proof (int_of_digits_nonneg _ _ D0 E0).
    pose proof (int_of_digits_nonneg _ _ D1 E1).
    pose proof (int_of_digits_nonneg _ _ D2 E2). lia.
Qed.

Lemma timestamp_nonnegative_witness :
  is_timestamp (lit "1:03:15") = true
  /\ get_min_sec_from_timestamp (lit "1:03:15") = Ok (63%Z, 15%Z)
  /\ (0 <= 63)%Z /\ (0 <= 15)%Z.
Proof.
  split; [reflexivity|]. split; [reflexivity|].
  exact (timestamp_nonnegative (lit "1:03:15") 63%Z 15%Z eq_refl eq_refl).
Defined.

(** X5: the output path replaces the last extension of the input path
    by [.cue]; an input path without any dot loses its whole name and
    gives the path [.cue]. *)
Theorem output_path_extension :
  (forall stem ext : str,
      forallb (fun x => negb (Ascii.eqb "." x)) ext = true ->
      construct_output_file_path (stem ++ "." :: ext) = stem ++ lit ".cue")
  /\ (forall path : str,
      forallb (fun x => negb (Ascii.eqb "." x)) path = true ->
      construct_output_file_path path = lit ".cue").
Proof.
  split.
  - intros stem ext He. unfold construct_output_file_path, split.
    change (lit ".") with ["."].
    rewrite (split_go_snoc_char "." ext He), removelast_last.
    now rewrite join_split_go.
  - intros path Hp. unfold construct_output_file_path.
    change (lit ".") with ["."].
    rewrite split_absent by now apply contains_char. reflexivity.
Qed.

Lemma output_path_extension_witness :
  construct_output_file_path (lit "a.b/track.list" ++ "." :: lit "txt")
  = lit "a.b/track.list" ++ lit ".cue".
Proof.
  exact (proj1 output_path_extension (lit "a.b/track.list") (lit "txt")
           eq_refl).
Defined.

Lemma universal_newlines_no_return (s : str) :
  forallb (fun c => negb (Ascii.eqb c creturn)) (universal_newlines s) = true.
Proof.
  assert (G : forall n s, length s <= n ->
              forallb (fun c => negb (Ascii.eqb c creturn))
                      (universal_newlines s) = true).
  { induction n as [|n IH]; intros t L.
    - destruct t; [reflexivity | cbn in L; lia].
    - destruct t as [|c t]; [reflexivity|].
      cbn [universal_newlines]. cbn [length] in L.
      destruct (Ascii.eqb c creturn) eqn:E.
      + cbn [forallb]. change (negb (Ascii.eqb newline creturn)) with true.
        cbn [andb]. destruct t as [|d t]; [reflexivity|].
        cbn [length] in L.
        destruct (Ascii.eqb d newline); apply IH; cbn [length]; lia.
      + cbn [forallb]. rewrite E. cbn [negb andb]. apply IH. lia. }
  now apply (G (length s)).
Qed.

Lemma readlines_go_chars (P : ascii -> Prop) (s : str) :
  Forall P s -> forall cur, Forall P cur ->
  Forall (Forall P) (readlines_go cur s).
Proof.
  induction 1 as [|c s Hc Hs IH]; intros cur Hcur.
  - cbn. destruct cur; repeat constructor; now inversion Hcur.
  - cbn [readlines_go].
    assert (H' : Forall P (cur ++ [c])).
    { apply Forall_app. split; [exact Hcur | now constructor]. }
    destruct (Ascii.eqb c newline).
    + constructor; [exact H' | apply IH; constructor].
    + now apply IH.
Qed.

Lemma remove_newline_line (l : str) :
  no_newline l = true -> remove_char newline (l ++ [newline]) = l.
Proof.
  intros H. unfold remove_char. rewrite filter_app. cbn [filter].
  rewrite Ascii.eqb_refl. cbn [negb]. rewrite app_nil_r.
  apply forallb_filter_id. eapply forallb_impl; [|exact H].
  intros c Hc. now rewrite Ascii.eqb_sym.
Qed.

Lemma lines_of_text_inline (text line : str) :
  In line (lines_of_text text) -> forallb inline_char line = true.
Proof.
  intros HIn. unfold lines_of_text, readlines in HIn.
  apply in_map_iff in HIn as (raw & <- & Hraw).
  pose proof (universal_newlines_no_return text) as Hcr.
  rewrite forallb_forall in Hcr.
  assert (F : Forall (fun c => Ascii.eqb c creturn = false)
                (universal_newlines text)).
  { apply Forall_forall. intros c Hc. now apply negb_true_iff, Hcr. }
  pose proof (readlines_go_chars _ _ F [] (Forall_nil _)) as FF.
  rewrite Forall_forall in FF. specialize (FF raw Hraw).
  rewrite Forall_forall in FF.
  apply forallb_forall. intros c Hc. unfold remove_char in Hc.
  apply filter_In in Hc as [Hc Hn]. unfold inline_char.
  rewrite (FF c Hc), Ascii.eqb_sym. now rewrite Hn.
Qed.

Lemma lines_of_text_unlines (ls : list str) :
  Forall (fun l => forallb inline_char l = true) ls ->
  lines_of_text (unlines ls) = ls.
Proof.
  intros Hls. destruct (inline_lines_text ls Hls) as [Hnl Hcr].
  unfold lines_of_text, readlines.
  rewrite (universal_newlines_plain _ Hcr), (readlines_go_unlines _ Hnl).
  rewrite map_map. rewrite <- (map_id ls) at 2.
  apply map_ext_in. intros l Hl. apply remove_newline_line.
  rewrite Forall_forall in Hnl. now apply Hnl.
Qed.

(** X6: the lines [read_input_file] hands to the parser never hold a
    line feed or a carriage return, whatever the file contains; and a
    file made of lines each ended by a line feed reads back as these
    lines. *)
Theorem input_lines_are_single_lines :
  (forall (text line : str),
      In line (lines_of_text text) -> forallb inline_char line = true)
  /\ (forall ls : list str,
      Forall (fun l => forallb inline_char l = true) ls ->
      lines_of_text (unlines ls) = ls).
Proof.
  split; [exact lines_of_text_inline | exact lines_of_text_unlines].
Qed.

Lemma input_lines_are_single_lines_witness :
  lines_of_text (unlines sample_lines) = sample_lines.
Proof.
  apply (proj2 input_lines_are_single_lines sample_lines).
  repeat constructor.
Defined.



(** X8: whatever its argument and the files present, the script ends
    with status 0 or 1, and the only file it ever creates or changes is
    the output path of its argument: run without an argument it changes
    no file at all. *)
Theorem main_touches_only_output :
  forall (argv1 : option str) (w : world),
    (snd (main argv1 w) = 0%Z \/ snd (main argv1 w) = 1%Z)
    /\ forall p,
         files (fst (main argv1 w)) p <> files w p ->
         exists path,
           argv1 = Some path /\ p = construct_output_file_path path.
Proof.
  intros argv1 w. unfold main, get_tracklist_input_file, read_input_file.
  destruct argv1 as [path|]; cbv beta iota zeta.
  2:{ split; [now right|]. intros p H. now contradiction H. }
  destruct (exists_path path w); cbv beta iota zeta.
  2:{ split; [now right|]. intros p H. now contradiction H. }
  destruct (files w path) as [text|] eqn:Hf; cbv beta iota zeta.
  2:{ split; [now right|]. intros p H. now contradiction H. }
  destruct (parse_input_file (negb (contains (lit "_title_artist.") path))
              (lines_of_text text)) as [sheet|e].
  2:{ split; [now right|]. intros p H. now contradiction H. }
  unfold write_file. cbn [print directories files stdout].
  destruct (directories w (construct_output_file_path path)).
  { split; [now right|]. intros p H. now contradiction H. }
  split; [now left|]. intros p H.
  exists path. split; [reflexivity|].
  cbn [fst files] in H.
  destruct (str_eqb p (construct_output_file_path path)) eqn:E.
  - now apply str_eqb_eq.
  - now contradiction H.
Qed.

(** X18: the ways the script gives up before it reads anything.  Run
    without an argument it prints that the path is missing; with a path
    that names nothing it prints that the file cannot be found; with a
    path that exists but cannot be opened, a directory, the search
    succeeds and it is the reading that fails.  Each time the error is
    all that is printed, no file changes and the status is 1. *)
Theorem main_gives_up :
  forall w : world,
    main None w
    = (print (PrintError (Exception (lit "Missing file path as argument!")))
             w, 1%Z)
    /\ (forall path,
           files w path = None -> directories w path = false ->
           main (Some path) w
           = (print (PrintError (Exception (lit "Can't find input file :(")))
                    w, 1%Z))
    /\ (forall path,
           files w path = None -> directories w path = true ->
           get_tracklist_input_file (Some path) w = Ok path
           /\ main (Some path) w = (print (PrintError OSError) w, 1%Z)).
Proof.
  intros w. split; [reflexivity|]. split.
  - intros path Hf Hd.
    unfold main, get_tracklist_input_file, exists_path. now rewrite Hf, Hd.
  - intros path Hf Hd.
    assert (G : get_tracklist_input_file (Some path) w = Ok path).
    { unfold get_tracklist_input_file, exists_path. now rewrite Hf, Hd. }
    split; [exact G|].
    unfold main. rewrite G. cbv beta iota zeta.
    unfold read_input_file. now rewrite Hf.
Qed.

Lemma main_gives_up_witness :
  main (Some (lit "album")) good_world
  = (print (PrintError OSError) good_world, 1%Z).
Proof.
  exact (proj2 (proj2 (proj2 (main_gives_up good_world)) (lit "album")
                  eq_refl eq_refl)).
Defined.

Lemma main_touches_only_output_witness :
  files (fst (main (Some sample_path) good_world))
        (construct_output_file_path sample_path)
  <> files good_world (construct_output_file_path sample_path)
  /\ exists path,
       Some sample_path = Some path
       /\ construct_output_file_path sample_path
          = construct_output_file_path path.
Proof.
  assert (H : files (fst (main (Some sample_path) good_world))
                    (construct_output_file_path sample_path)
              <> files good_world (construct_output_file_path sample_path)).
  { vm_compute. discriminate. }
  split; [exact H|].
  exact (proj2 (main_touches_only_output (Some sample_path) good_world)
           (construct_output_file_path sample_path) H).
Defined.

End GeneratorFiles.

(* ================================================================== *)
(** * Further properties of the post-processor *)
(* ================================================================== *)

Section SheetParserMore.
Import Py Postprocess Notions Survey.

Lemma rem_key_tests (k : str) :
  str_eqb k (lit "REM") = true -> str_eqb k (lit "TRACK") = false.
Proof. intros H. apply str_eqb_eq in H. now subst k. Qed.

Lemma closed_numbers_current (a a' : album_info) (ts : list track_info)
  (t t' : track_info) :
  number t' = number t ->
  map number (closed_tracks (CueState a' ts (Some t')))
  = map number (closed_tracks (CueState a ts (Some t))).
Proof.
  intros H. unfold closed_tracks. cbn [st_tracks st_current].
  rewrite !map_app. cbn [map]. now rewrite H.
Qed.

(** Each line adds the number it declares, if any, and nothing else. *)
Lemma cue_line_numbers (st st' : cue_state) (raw : str) :
  cue_line st raw = Ok st' ->
  map number (closed_tracks st')
  = map number (closed_tracks st)
    ++ match declared_number raw with Some z => [z] | None => [] end.
Proof.
  intros H. unfold declared_number, line_fields. unfold cue_line in H.
  destruct (str_eqb (strip raw) []).
  { injection H as <-. now rewrite app_nil_r. }
  destruct (tokenize (strip raw)) as [[|p0 rest]|]; try discriminate H.
  cbn [bind index nth_error] in H.
  destruct st as [a ts cur]. cbn [st_album st_tracks st_current] in H.
  destruct (str_eqb (upper p0) (lit "TRACK")) eqn:ET.
  - destruct (track_key_tests _ ET) as (E1 & E2 & E3).
    destruct (str_eqb (upper p0) (lit "REM")) eqn:ER.
    { apply rem_key_tests in ER. congruence. }
    rewrite E1, E2, E3 in H.
    destruct rest as [|p1 rest].
    { unfold index in H. destruct cur; discriminate H. }
    unfold index in H. cbn [nth_error bind] in H.
    destruct (int p1) as [num|]; [|destruct cur; discriminate H].
    destruct cur; cbn [bind] in H; injection H as <-;
      unfold closed_tracks; cbn [st_tracks st_current];
      rewrite ?map_app, ?app_nil_r; reflexivity.
  - assert (D : match rest with
                | p1 :: _ =>
                    if false
                    then match int p1 with Ok z => Some z | Raise _ => None end
                    else None
                | [] => @None Z
                end = None) by (destruct rest; reflexivity).
    rewrite D, app_nil_r. clear D.
    destruct (str_eqb (upper p0) (lit "REM")).
    { destruct rest as [|p1 [|p2 r]]; injection H as <-; reflexivity. }
    destruct cur as [t|].
    + destruct (str_eqb (upper p0) (lit "FILE")).
      { destruct (quoted_name (strip raw)).
        - cbn [bind] in H. injection H as <-. reflexivity.
        - unfold index in H. destruct rest; cbn [nth_error bind] in H;
            [discriminate H|]. injection H as <-. reflexivity. }
      destruct (str_eqb (upper p0) (lit "PERFORMER")).
      { injection H as <-. now apply closed_numbers_current. }
      destruct (str_eqb (upper p0) (lit "TITLE")).
      { injection H as <-. now apply closed_numbers_current. }
      destruct (str_eqb (upper p0) (lit "INDEX")).
      { injection H as <-. now apply closed_numbers_current. }
      injection H as <-. reflexivity.
    + destruct (str_eqb (upper p0) (lit "PERFORMER")).
      { injection H as <-. reflexivity. }
      destruct (str_eqb (upper p0) (lit "TITLE")).
      { injection H as <-. reflexivity. }
      destruct (str_eqb (upper p0) (lit "FILE")).
      { destruct (quoted_name (strip raw)).
        - cbn [bind] in H. injection H as <-. reflexivity.
        - unfold index in H. destruct rest; cbn [nth_error bind] in H;
            [discriminate H|]. injection H as <-. reflexivity. }
      injection H as <-. reflexivity.
Qed.

Lemma cue_lines_numbers (raws : list str) :
  forall st st',
    cue_lines st raws = Ok st' ->
    map number (closed_tracks st')
    = map number (closed_tracks st) ++ declared_numbers raws.
Proof.
  induction raws as [|raw raws IH]; intros st st' H.
  - injection H as <-. now rewrite app_nil_r.
  - cbn [cue_lines] in H.
    destruct (cue_line st raw) as [st1|] eqn:E; [|discriminate H].
    cbn [bind] in H. rewrite (IH _ _ H), (cue_line_numbers _ _ _ E).
    rewrite <- app_assoc. f_equal. cbn [declared_numbers].
    destruct (declared_number raw); reflexivity.
Qed.

Lemma parse_cue_tracks (raws : list str) (c : cue) :
  parse_cue raws = Ok c ->
  exists st, cue_lines cue_start raws = Ok st
             /\ album c = st_album st /\ tracks c = closed_tracks st.
Proof.
  unfold parse_cue. destruct (cue_lines cue_start raws) as [st|];
    [|discriminate].
  cbn [bind]. intros [= <-]. exists st. split; [reflexivity|].
  split; [reflexivity|]. unfold closed_tracks. cbn [tracks].
  destruct (st_current st); [reflexivity | now rewrite app_nil_r].
Qed.

(** X9: a sheet that parses yields one track per [TRACK] line, in the
    order of the lines and with the numbers the lines declare, whatever
    these numbers are: they are not renumbered, sorted or checked for
    duplicates. *)
Theorem parsed_numbers_are_declared :
  forall (raws : list str) (c : cue),
    parse_cue raws = Ok c ->
    map number (tracks c) = declared_numbers raws.
Proof.
  intros raws c H. destruct (parse_cue_tracks raws c H) as (st & E & _ & ->).
  now rewrite (cue_lines_numbers raws _ _ E).
Qed.

Lemma parsed_numbers_are_declared_witness :
  parse_cue [lit "TRACK 07 AUDIO"; lit "FLAGS DCP"; lit "track 7 audio";
             lit "TRACK -3 AUDIO"]
  = Ok (Cue (Album None None [] None)
            [Track 7 None None None; Track 7 None None None;
             Track (-3) None None None])
  /\ map number [Track 7 None None None; Track 7 None None None;
                 Track (-3) None None None] = [7; 7; -3]%Z.
Proof.
  split; [reflexivity|].
  exact (parsed_numbers_are_declared
           [lit "TRACK 07 AUDIO"; lit "FLAGS DCP"; lit "track 7 audio";
            lit "TRACK -3 AUDIO"] _ eq_refl).
Defined.

Lemma declared_numbers_within (raws : list str) :
  Forall (fun z => within_limit z = true) (declared_numbers raws).
Proof.
  induction raws as [|raw raws IH]; [constructor|].
  cbn [declared_numbers].
  destruct (declared_number raw) as [z|] eqn:E; [|exact IH].
  constructor; [|exact IH].
  unfold declared_number in E.
  destruct (line_fields raw) as [[|p0 [|p1 rest]]|]; try discriminate E.
  destruct (str_eqb (upper p0) (lit "TRACK")); [|discriminate E].
  destruct (int p1) as [z'|] eqn:Ei; [|discriminate E].
  injection E as <-. exact (int_within _ _ Ei).
Qed.

(** X19: every track number [parse_cue] returns has at most 4300
    digits, since [int] made it: [str] and the formatting of the number,
    on which the search for the file, the default title and the two
    substitutions of [process] rely, cannot fail for it. *)
Theorem parsed_numbers_within_limit :
  forall (raws : list str) (c : cue) (t : track_info),
    parse_cue raws = Ok c ->
    In t (tracks c) ->
    (Z.abs (number t) < 10 ^ 4300)%Z
    /\ str_of_int (number t) = Ok (str_of_Z (number t)).
Proof.
  intros raws c t H Ht.
  destruct (parse_cue_tracks raws c H) as (st & E & _ & Etr).
  pose proof (cue_lines_numbers raws _ _ E) as N.
  cbn [closed_tracks cue_start st_tracks st_current app map] in N.
  assert (W : within_limit (number t) = true).
  { pose proof (declared_numbers_within raws) as F.
    rewrite Forall_forall in F. apply F. rewrite <- N, <- Etr.
    now apply in_map. }
  split; [|now apply str_of_int_ok].
  apply within_limit_spec in W. exact W.
Qed.

Lemma parsed_numbers_within_limit_witness :
  (Z.abs (-3) < 10 ^ 4300)%Z
  /\ str_of_int (-3) = Ok (lit "-3").
Proof.
  exact (parsed_numbers_within_limit
           [lit "TRACK 07 AUDIO"; lit "TRACK -3 AUDIO"]
           (Cue (Album None None [] None)
                [Track 7 None None None; Track (-3) None None None])
           (Track (-3) None None None)
           eq_refl (or_intror (or_introl eq_refl))).
Defined.

(** Once a track is open it stays so, and the album's title and
    performer are out of reach. *)
Lemma cue_line_open (st st' : cue_state) (raw : str) :
  st_current st <> None ->
  cue_line st raw = Ok st' ->
  st_current st' <> None
  /\ album_TITLE (st_album st') = album_TITLE (st_album st)
  /\ album_PERFORMER (st_album st') = album_PERFORMER (st_album st).
Proof.
  intros Hc H. unfold cue_line in H.
  destruct (str_eqb (strip raw) []).
  { injection H as <-. auto. }
  destruct (tokenize (strip raw)) as [[|p0 rest]|]; try discriminate H.
  cbn [bind index nth_error] in H.
  destruct st as [a ts [t|]]; [|cbn in Hc; congruence].
  cbn [st_album st_tracks st_current] in *.
  destruct (str_eqb (upper p0) (lit "REM")).
  { destruct rest as [|p1 [|p2 r]]; injection H as <-; cbn; auto. }
  destruct (str_eqb (upper p0) (lit "FILE")).
  { destruct (quoted_name (strip raw)).
    - cbn [bind] in H. injection H as <-. cbn. repeat split. discriminate.
    - unfold index in H. destruct rest; cbn [nth_error bind] in H;
        [discriminate H|]. injection H as <-. cbn. repeat split. discriminate. }
  destruct (str_eqb (upper p0) (lit "TRACK")).
  { unfold index in H. destruct rest as [|p1 rest]; [discriminate H|].
    cbn [nth_error bind] in H. destruct (int p1); [|discriminate H].
    cbn [bind] in H. injection H as <-. cbn. repeat split. discriminate. }
  destruct (str_eqb (upper p0) (lit "PERFORMER")).
  { injection H as <-. cbn. repeat split. discriminate. }
  destruct (str_eqb (upper p0) (lit "TITLE")).
  { injection H as <-. cbn. repeat split. discriminate. }
  destruct (str_eqb (upper p0) (lit "INDEX")).
  { injection H as <-. cbn. repeat split. discriminate. }
  injection H as <-. cbn. repeat split. discriminate.
Qed.

Lemma cue_lines_open (raws : list str) :
  forall st st',
    st_current st <> None ->
    cue_lines st raws = Ok st' ->
    st_current st' <> None
    /\ album_TITLE (st_album st') = album_TITLE (st_album st)
    /\ album_PERFORMER (st_album st') = album_PERFORMER (st_album st).
Proof.
  induction raws as [|raw raws IH]; intros st st' Hc H.
  - injection H as <-. auto.
  - cbn [cue_lines] in H.
    destruct (cue_line st raw) as [st1|] eqn:E; [|discriminate H].
    cbn [bind] in H.
    destruct (cue_line_open _ _ _ Hc E) as (Hc1 & T1 & P1).
    destruct (IH _ _ Hc1 H) as (Hc2 & T2 & P2).
    repeat split; congruence.
Qed.

(** X10: once a [TRACK] line has been read, no later line changes the
    album's title or performer: the album keeps what the lines before
    the first track gave it, and [TITLE] and [PERFORMER] lines met after
    that go to the track that is open. *)
Theorem album_fields_frozen_by_first_track :
  forall (pre post : list str) (st : cue_state) (c : cue),
    cue_lines cue_start pre = Ok st ->
    st_current st <> None ->
    parse_cue (pre ++ post) = Ok c ->
    album_TITLE (album c) = album_TITLE (st_album st)
    /\ album_PERFORMER (album c) = album_PERFORMER (st_album st).
Proof.
  intros pre post st c Hpre Hc H.
  destruct (parse_cue_tracks _ _ H) as (st' & E & -> & _).
  rewrite cue_lines_app, Hpre in E. cbn [bind] in E.
  now destruct (cue_lines_open post _ _ Hc E) as (_ & T & P).
Qed.

Lemma album_fields_frozen_by_first_track_witness :
  album_TITLE
    (album (Cue (Album None (Some (lit "Album")) [] None)
                [Track 1 (Some (lit "Late")) None None]))
  = Some (lit "Album")
  /\ album_PERFORMER
       (album (Cue (Album None (Some (lit "Album")) [] None)
                   [Track 1 (Some (lit "Late")) None None]))
     = None.
Proof.
  exact (album_fields_frozen_by_first_track
           [lit "TITLE Album"; lit "TRACK 01 AUDIO"] [lit "TITLE Late"]
           (CueState (Album None (Some (lit "Album")) [] None) []
                     (Some (Track 1 None None None)))
           (Cue (Album None (Some (lit "Album")) [] None)
                [Track 1 (Some (lit "Late")) None None])
           eq_refl ltac:(discriminate) eq_refl).
Defined.

Lemma dict_get_set_same (k v : str) (d : list (str * str)) :
  dict_get k (dict_set k v d) = Some v.
Proof.
  induction d as [|[k' v'] d IH]; cbn [dict_set dict_get].
  - now rewrite str_eqb_refl.
  - destruct (str_eqb k' k) eqn:E; cbn [dict_get].
    + now rewrite str_eqb_refl.
    + now rewrite E.
Qed.

Lemma dict_get_set_other (k k0 v : str) (d : list (str * str)) :
  k0 <> k -> dict_get k0 (dict_set k v d) = dict_get k0 d.
Proof.
  intros Hne. induction d as [|[k' v'] d IH]; cbn [dict_set dict_get].
  - destruct (str_eqb k k0) eqn:E; [|reflexivity].
    apply str_eqb_eq in E. congruence.
  - destruct (str_eqb k' k) eqn:E; cbn [dict_get].
    + apply str_eqb_eq in E. subst k'.
      destruct (str_eqb k k0) eqn:E'; [|reflexivity].
      apply str_eqb_eq in E'. congruence.
    + destruct (str_eqb k' k0); [reflexivity | exact IH].
Qed.

(** X11: a [REM] line of three fields or more stores its third field,
    stripped of double quotes, under its second field taken as it is
    written (the key is not put in capitals); a value stored before
    under that key is replaced, the other remarks and everything else in
    the sheet stay as they were. *)
Theorem rem_line_stores_remark :
  forall (st : cue_state) (raw p0 p1 p2 : str) (rest : list str),
    line_fields raw = Some (p0 :: p1 :: p2 :: rest) ->
    upper p0 = lit "REM" ->
    exists st',
      cue_line st raw = Ok st'
      /\ dict_get p1 (album_REM (st_album st')) = Some (strip_char dquote p2)
      /\ (forall k, k <> p1 ->
            dict_get k (album_REM (st_album st'))
            = dict_get k (album_REM (st_album st)))
      /\ album_TITLE (st_album st') = album_TITLE (st_album st)
      /\ album_PERFORMER (st_album st') = album_PERFORMER (st_album st)
      /\ album_FILE (st_album st') = album_FILE (st_album st)
      /\ st_tracks st' = st_tracks st
      /\ st_current st' = st_current st.
Proof.
  intros st raw p0 p1 p2 rest Hf Hk. unfold line_fields in Hf.
  unfold cue_line.
  destruct (str_eqb (strip raw) []); [discriminate Hf|].
  destruct (tokenize (strip raw)) as [parts|]; [|discriminate Hf].
  injection Hf as ->. cbn [bind index nth_error]. rewrite Hk.
  change (str_eqb (lit "REM") (lit "REM")) with true. cbv iota.
  eexists. split; [reflexivity|]. cbn [st_album st_tracks st_current
    album_REM album_TITLE album_PERFORMER album_FILE].
  repeat split.
  - apply dict_get_set_same.
  - intros k Hne. now apply dict_get_set_other.
Qed.

Lemma rem_line_stores_remark_witness :
  line_fields (lit "rem Genre " ++ [dquote] ++ lit "Post Punk" ++ [dquote])
  = Some [lit "rem"; lit "Genre"; lit "Post Punk"]
  /\ exists st',
      cue_line cue_start
        (lit "rem Genre " ++ [dquote] ++ lit "Post Punk" ++ [dquote])
      = Ok st'
      /\ dict_get (lit "Genre") (album_REM (st_album st'))
         = Some (lit "Post Punk").
Proof.
  split; [reflexivity|].
  destruct (rem_line_stores_remark cue_start
              (lit "rem Genre " ++ [dquote] ++ lit "Post Punk" ++ [dquote])
              (lit "rem") (lit "Genre") (lit "Post Punk") []
              eq_refl eq_refl) as (st' & E & G & _).
  exists st'. split; [exact E | exact G].
Defined.

End SheetParserMore.

Section MatcherMore.
Import Py Postprocess Notions Survey.

(** X12: the matcher only ever returns an entry of the directory
    listing; when it returns none, no entry has the prefix form of the
    track number, no entry contains the padded number, and the listing
    does not consist of a single entry. *)
Theorem found_file_is_listed :
  forall (glob : str -> str -> list str) (dir pattern : str) (n : Z),
    (forall c, find_track_file glob dir n pattern = Some c ->
               In c (glob dir pattern))
    /\ (find_track_file glob dir n pattern = None ->
        (forall x, In x (glob dir pattern) ->
                   ~ prefix_form x n
                   /\ contains (format_02d n) x = false)
        /\ length (glob dir pattern) <> 1).
Proof.
  intros glob dir pattern n. unfold find_track_file. split.
  - intros c H.
    destruct (find (number_matches n) (glob dir pattern)) as [x|] eqn:F1.
    { injection H as <-. now apply find_some in F1 as [F1 _]. }
    destruct (find (contains (format_02d n)) (glob dir pattern))
      as [x|] eqn:F2.
    { injection H as <-. now apply find_some in F2 as [F2 _]. }
    destruct (glob dir pattern) as [|y [|y' l]]; cbn in H; try discriminate.
    injection H as <-. now left.
  - intros H.
    destruct (find (number_matches n) (glob dir pattern)) as [x|] eqn:F1;
      [discriminate|].
    destruct (find (contains (format_02d n)) (glob dir pattern))
      as [x|] eqn:F2; [discriminate|].
    split.
    + intros x Hx. split.
      * apply number_matches_false. exact (find_none _ _ F1 x Hx).
      * exact (find_none _ _ F2 x Hx).
    + destruct (glob dir pattern) as [|y [|y' l]]; cbn in *;
        try discriminate; lia.
Qed.

Lemma found_file_is_listed_witness :
  In (lit "01-intro.wav") [lit "02 - Song.wav"; lit "01-intro.wav"].
Proof.
  exact (proj1 (found_file_is_listed
                  (fun _ _ => [lit "02 - Song.wav"; lit "01-intro.wav"])
                  (lit "tracks") (lit "*.wav") 1%Z)
           (lit "01-intro.wav") eq_refl).
Defined.

Lemma digit_val_decimal (c : ascii) :
  isdecimal c = true -> (digit_val c <= 9)%N.
Proof.
  unfold isdecimal, digit_val. intros H. apply andb_prop in H as [H1 H2].
  apply N.leb_le in H1, H2. lia.
Qed.

(** X13: the leading number [TRACK_PREFIX_RE] reads off a file name
    lies between 0 and 999, however many digits the name begins with. *)
Theorem prefix_number_range :
  forall (name : str) (n : Z),
    prefix_number name = Some n -> (0 <= n <= 999)%Z.
Proof.
  intros name n H. apply prefix_number_spec in H.
  destruct H as (ws & zs & d & sp & rest & _ & _ & _ & Hd & [L1 L3] & _
                 & _ & _ & <-).
  unfold decimal_value.
  destruct d as [|a [|b [|c [|x d]]]]; cbn [length] in L1, L3; try lia;
    cbn [forallb] in Hd;
    repeat (apply andb_prop in Hd as [?Hc Hd]);
    repeat match goal with
           | Hx : isdecimal _ = true |- _ => apply digit_val_decimal in Hx
           end;
    cbn [fold_left]; lia.
Qed.

Lemma prefix_number_range_witness :
  prefix_number (lit " 0042_b.flac") = Some 42%Z /\ (0 <= 42 <= 999)%Z.
Proof.
  split; [reflexivity|].
  exact (prefix_number_range (lit " 0042_b.flac") 42%Z eq_refl).
Defined.

Lemma dropwhile_suffix_chars (P : ascii -> Prop) (p : ascii -> bool) (s : str) :
  Forall P s -> Forall P (dropwhile p s).
Proof.
  induction 1 as [|c s Hc Hs IH]; [constructor|].
  cbn [dropwhile]. destruct (p c); [exact IH | now constructor].
Qed.

Lemma strip_by_chars (P : ascii -> Prop) (p : ascii -> bool) (s : str) :
  Forall P s -> Forall P (strip_by p s).
Proof.
  intros H. unfold strip_by, rstrip_by, lstrip_by.
  apply Forall_rev, dropwhile_suffix_chars, Forall_rev.
  now apply dropwhile_suffix_chars.
Qed.

Lemma dropwhile_stops (p : ascii -> bool) (s : str) (c : ascii) (r : str) :
  dropwhile p s = c :: r -> p c = false.
Proof.
  induction s as [|x s IH]; [discriminate|].
  cbn [dropwhile]. destruct (p x) eqn:E; [exact IH|].
  now intros [= <- _].
Qed.

(** A stripped text does not end with a stripped character. *)
Lemma strip_by_last (p : ascii -> bool) (s i : str) (l : ascii) :
  strip_by p s = i ++ [l] -> p l = false.
Proof.
  unfold strip_by, rstrip_by. intros H.
  apply (f_equal (@rev ascii)) in H.
  rewrite rev_involutive, rev_app_distr in H. cbn [rev app] in H.
  exact (dropwhile_stops _ _ _ _ H).
Qed.

Lemma strip_by_idempotent (p : ascii -> bool) (s : str) :
  strip_by p (strip_by p s) = strip_by p s.
Proof.
  destruct (strip_by p s) as [|c r] eqn:E; [reflexivity|].
  pose proof (strip_by_core p [] (c :: r) [] " " eq_refl eq_refl
                ltac:(discriminate)) as C.
  rewrite app_nil_r in C. cbn [app hd] in C. apply C.
  - exact (strip_by_head _ _ _ _ E).
  - destruct (@exists_last _ (c :: r) ltac:(discriminate)) as (i & l & El).
    rewrite El, last_last. rewrite El in E.
    exact (strip_by_last _ _ _ _ E).
Qed.

(** X14: [sanitize_filename] returns a text free of the characters it
    deletes, with no white space at either end, and sanitizing a second
    time changes nothing. *)
Theorem sanitize_filename_clean :
  forall name : str,
    forallb (fun c => negb (problematic c)) (sanitize_filename name) = true
    /\ (forall c r, sanitize_filename name = c :: r -> isspace c = false)
    /\ (forall i l, sanitize_filename name = i ++ [l] -> isspace l = false)
    /\ sanitize_filename (sanitize_filename name) = sanitize_filename name.
Proof.
  intros name. unfold sanitize_filename, strip.
  set (kept := filter (fun c => negb (problematic c)) name).
  assert (K : Forall (fun c => negb (problematic c) = true)
                (strip_by isspace kept)).
  { apply strip_by_chars, Forall_forall. intros c Hc.
    unfold kept in Hc. now apply filter_In in Hc as [_ Hc]. }
  split; [|split; [|split]].
  - apply forallb_forall. now apply Forall_forall.
  - intros c r. apply strip_by_head.
  - intros i l. apply strip_by_last.
  - rewrite forallb_filter_id.
    + apply strip_by_idempotent.
    + apply forallb_forall. now apply Forall_forall.
Qed.

Lemma sanitize_filename_clean_witness :
  sanitize_filename (lit " AC/DC: Live? ") = lit "ACDC Live"
  /\ isspace "A" = false /\ isspace "e" = false.
Proof.
  split; [reflexivity|]. split.
  - exact (proj1 (proj2 (sanitize_filename_clean (lit " AC/DC: Live? ")))
             "A" (lit "CDC Live") eq_refl).
  - exact (proj1 (proj2 (proj2 (sanitize_filename_clean
                                  (lit " AC/DC: Live? "))))
             (lit "ACDC Liv") "e" eq_refl).
Defined.

End MatcherMore.

Section NormalizerMore.
Import Py Postprocess Commands Notions Survey.

(** A repetition whose run cannot be extended, and after which the rest
    of the pattern matches, takes the whole run. *)
Lemma greedy_maximal {A : Type} (p : ascii -> bool) (taken : str) :
  forall (rest : str) (lo : nat) (hi : option nat) (seg : str)
         (k : str -> str -> option A) (r : A),
    forallb p taken = true ->
    lo <= length taken ->
    match hi with Some h => length taken <= h | None => True end ->
    match rest with [] => True | c :: _ => p c = false end
    \/ hi = Some (length taken) ->
    k (seg ++ taken) rest = Some r ->
    Re.greedy p lo hi (taken ++ rest) seg k = Some r.
Proof.
  induction taken as [|c taken IH]; intros rest lo hi seg k r Hp Hlo Hhi Hst Hk.
  - rewrite app_nil_r in Hk. cbn [length] in Hlo.
    assert (lo = 0) as -> by lia. cbn [app].
    destruct rest as [|x rest]; cbn [Re.greedy]; [exact Hk|].
    assert (E : p x && Re.more hi = false).
    { destruct Hst as [Hx| ->]; [now rewrite Hx | apply andb_false_r]. }
    now rewrite E.
  - cbn [forallb] in Hp. apply andb_prop in Hp as [Hc Hp].
    cbn [app Re.greedy]. rewrite Hc.
    assert (Hm : Re.more hi = true).
    { destruct hi as [[|h]|]; cbn in *; try reflexivity. lia. }
    rewrite Hm. cbn [andb].
    rewrite (IH rest (pred lo) (option_map pred hi) (seg ++ [c]) k r);
      auto.
    + cbn [length] in Hlo. lia.
    + destruct hi as [h|]; cbn in *; [lia | exact I].
    + destruct Hst as [Hx| ->]; [now left | now right].
    + now rewrite <- app_assoc.
Qed.

Lemma match_items_rep (it : Re.item) (items : list Re.item)
  (final : str -> bool) (taken rest : str) (segs : list str) (r : str) :
  forallb (Re.cls it) taken = true ->
  Re.lo it <= length taken ->
  match Re.hi it with Some h => length taken <= h | None => True end ->
  match rest with [] => True | c :: _ => Re.cls it c = false end
  \/ Re.hi it = Some (length taken) ->
  Re.match_items items final rest = Some (segs, r) ->
  Re.match_items (it :: items) final (taken ++ rest)
  = Some (taken :: segs, r).
Proof.
  intros Hp Hlo Hhi Hst Hm. cbn [Re.match_items].
  apply greedy_maximal; auto. cbn [app]. now rewrite Hm.
Qed.

Lemma match_items_literal (D : str) (items : list Re.item)
  (final : str -> bool) (rest : str) (segs : list str) (r : str) :
  Re.match_items items final rest = Some (segs, r) ->
  Re.match_items (Re.literal D ++ items) final (D ++ rest)
  = Some (map (fun c => [c]) D ++ segs, r).
Proof.
  intros Hm. induction D as [|c D IH]; [exact Hm|].
  cbn [Re.literal map app].
  change (c :: D ++ rest) with ([c] ++ (D ++ rest)).
  apply match_items_rep; cbn; auto.
  now rewrite Ascii.eqb_refl.
Qed.

Lemma to_digits_head (f : nat) :
  forall (n : N) (acc : str),
    (0 < n)%N -> (n < 2 ^ N.of_nat f)%N ->
    exists d r, to_digits f n acc = digit_char d :: r /\ (0 < d < 10)%N.
Proof.
  induction f as [|f IH]; intros n acc Hn Hf.
  - change (2 ^ N.of_nat 0)%N with 1%N in Hf. lia.
  - cbn [to_digits].
    pose proof (N.div_mod n 10 ltac:(discriminate)) as Hdm.
    pose proof (N.mod_lt n 10 ltac:(discriminate)) as Hm.
    destruct (n / 10 =? 0)%N eqn:E.
    + apply N.eqb_eq in E. exists (n mod 10)%N, acc. split; [reflexivity|].
      lia.
    + apply N.eqb_neq in E. apply IH; [lia|].
      apply N.Div0.div_lt_upper_bound.
      rewrite Nat2N.inj_succ, N.pow_succ_r' in Hf. lia.
Qed.

Lemma str_of_Z_head (tn : Z) :
  (0 < tn)%Z ->
  exists d r, str_of_Z tn = d :: r
              /\ isdecimal d = true /\ Ascii.eqb "0" d = false
              /\ forallb isdecimal (d :: r) = true.
Proof.
  intros H. rewrite str_of_Z_nonneg by lia.
  pose proof (str_of_N_decimal (Z.to_N tn)) as Hd.
  destruct (to_digits_head (S (N.to_nat (N.log2 (Z.to_N tn))))
              (Z.to_N tn) []) as (d & r & E & Hr).
  - lia.
  - rewrite Nat2N.inj_succ, N2Nat.id. apply N.log2_spec. lia.
  - unfold str_of_N in *. rewrite E in *. exists (digit_char d), r.
    split; [reflexivity|]. split; [|split; [|exact Hd]].
    + apply isdecimal_digit_char. lia.
    + destruct (Ascii.eqb "0" (digit_char d)) eqn:E0; [|reflexivity].
      apply Ascii.eqb_eq in E0.
      assert (C : code (digit_char d) = 48%N) by now rewrite <- E0.
      rewrite code_digit_char in C by lia. lia.
Qed.

Lemma not_decimal_not_char (d c : ascii) :
  isdecimal d = true -> isdecimal c = false -> Ascii.eqb d c = false.
Proof.
  intros Hd Hc. destruct (Ascii.eqb d c) eqn:E; [|reflexivity].
  apply Ascii.eqb_eq in E. congruence.
Qed.

(** Without a number in front there is nothing for the second pattern
    to delete. *)
Lemma no_number_no_match (d : ascii) (D : str) (tail : list Re.item)
  (final : str -> bool) (rest : str) :
  isdecimal d = true ->
  match rest with
  | [] => True
  | c :: _ => isspace c = false /\ isdecimal c = false
  end ->
  Re.match_items
    ([Re.star isspace; Re.star (Ascii.eqb "0")] ++ Re.literal (d :: D) ++ tail)
    final rest = None.
Proof.
  intros Hd Hrest.
  cbn [app Re.literal map Re.match_items Re.star Re.one Re.cls Re.lo Re.hi].
  destruct rest as [|c rest].
  - reflexivity.
  - destruct Hrest as [Hs Hc]. cbn [Re.greedy]. rewrite Hs. cbn [andb].
    rewrite (not_decimal_not_char "0" c eq_refl Hc). cbn [andb].
    rewrite (not_decimal_not_char d c Hd Hc). reflexivity.
Qed.

(** The two substitutions of [process] on a numbered file name. *)
Lemma base_title_numbered :
  forall (tn : Z) (ws zeros sp1 : str) (s : ascii) (seps2 rest : str),
    (0 < tn)%Z ->
    forallb isspace ws = true ->
    forallb (Ascii.eqb "0") zeros = true ->
    forallb isspace sp1 = true ->
    Re.separator s = true -> isspace s = false ->
    forallb Re.separator seps2 = true ->
    match rest with
    | [] => True
    | c :: _ => Re.separator c = false /\ isdecimal c = false
    end ->
    base_title tn (ws ++ zeros ++ str_of_Z tn ++ sp1 ++ s :: seps2 ++ rest)
    = rest.
Proof.
  intros tn ws zeros sp1 s seps2 rest Htn Hws Hz Hsp1 Hs Hs' Hseps Hrest.
  destruct (str_of_Z_head tn Htn) as (d & D & ED & Hd & Hd0 & HD).
  unfold base_title.
  assert (E1 : strip_number_and_separator tn
                 (ws ++ zeros ++ str_of_Z tn ++ sp1 ++ s :: seps2 ++ rest)
               = rest).
  { unfold strip_number_and_separator, Re.sub_prefix. cbn [app].
    assert (M4 : Re.match_items [Re.plus Re.separator] (fun _ => true)
                   ((s :: seps2) ++ rest) = Some ([s :: seps2], rest)).
    { apply match_items_rep; cbn [Re.plus Re.cls Re.lo Re.hi forallb length];
        auto; try lia.
      - now rewrite Hs, Hseps.
      - left. destruct rest as [|c rest]; [exact I | now destruct Hrest]. }
    assert (M3 : Re.match_items [Re.star isspace; Re.plus Re.separator]
                   (fun _ => true) (sp1 ++ (s :: seps2) ++ rest)
                 = Some ([sp1; s :: seps2], rest)).
    { apply match_items_rep; cbn [Re.star Re.cls Re.lo Re.hi]; auto; lia. }
    pose proof (match_items_literal (str_of_Z tn) _ _ _ _ _ M3) as M2.
    assert (M1 : Re.match_items
                   (Re.star (Ascii.eqb "0")
                      :: Re.literal (str_of_Z tn)
                         ++ [Re.star isspace; Re.plus Re.separator])
                   (fun _ => true)
                   (zeros ++ str_of_Z tn ++ sp1 ++ (s :: seps2) ++ rest)
                 = Some (zeros :: map (fun c => [c]) (str_of_Z tn)
                                  ++ [sp1; s :: seps2], rest)).
    { apply match_items_rep; cbn [Re.star Re.cls Re.lo Re.hi]; auto; try lia.
      left. rewrite ED. cbn [app]. exact Hd0. }
    assert (M0 : Re.match_items
                   (Re.star isspace
                      :: Re.star (Ascii.eqb "0")
                      :: Re.literal (str_of_Z tn)
                         ++ [Re.star isspace; Re.plus Re.separator])
                   (fun _ => true)
                   (ws ++ zeros ++ str_of_Z tn ++ sp1 ++ (s :: seps2) ++ rest)
                 = Some (ws :: zeros :: map (fun c => [c]) (str_of_Z tn)
                                  ++ [sp1; s :: seps2], rest)).
    { apply match_items_rep; cbn [Re.star Re.cls Re.lo Re.hi]; auto; try lia.
      left. destruct zeros as [|z zeros].
      - rewrite ED. cbn [app]. now apply decimal_not_space.
      - cbn [app]. cbn [forallb] in Hz. apply andb_prop in Hz as [Hz0 _].
        apply Ascii.eqb_eq in Hz0. subst z. reflexivity. }
    cbn [app] in M0. change str with (list ascii) in *.
    rewrite M0. reflexivity. }
  rewrite E1. unfold strip_number_and_space, Re.sub_prefix. rewrite ED.
  rewrite no_number_no_match; auto.
  destruct rest as [|c rest]; [exact I|]. destruct Hrest as [Hc1 Hc2].
  split; [|exact Hc2].
  destruct (isspace c) eqn:E; [|reflexivity].
  apply space_is_separator in E. congruence.
Qed.

(** X15: for a file name made of optional white space, optional zeros,
    the track number (a positive one), a run of separators that begins,
    after optional white space, with a hyphen, underscore or dot, and a
    rest that begins with neither a separator nor a digit, the two
    substitutions leave exactly the rest. *)
Theorem base_title_strips_number :
  forall (tn : Z) (ws zeros sp1 : str) (s : ascii) (seps2 rest : str),
    (0 < tn)%Z ->
    forallb isspace ws = true ->
    forallb (Ascii.eqb "0") zeros = true ->
    forallb isspace sp1 = true ->
    Re.separator s = true -> isspace s = false ->
    forallb Re.separator seps2 = true ->
    match rest with
    | [] => True
    | c :: _ => Re.separator c = false /\ isdecimal c = false
    end ->
    base_title tn (ws ++ zeros ++ str_of_Z tn ++ sp1 ++ s :: seps2 ++ rest)
    = rest.
Proof.
  intros. now apply base_title_numbered.
Qed.

Lemma base_title_strips_number_witness :
  base_title 7 (lit " " ++ lit "00" ++ str_of_Z 7 ++ lit " " ++ "-"
                  :: lit " " ++ lit "Seven Nation.wav")
  = lit "Seven Nation.wav".
Proof.
  apply (base_title_strips_number 7%Z (lit " ") (lit "00") (lit " ") "-"
           (lit " ") (lit "Seven Nation.wav")); try reflexivity.
  split; reflexivity.
Defined.

Lemma fold_add_tag (tags : tag_dict) :
  forall cmd, fold_left add_tag tags cmd = cmd ++ metadata_args tags.
Proof.
  induction tags as [|[key [value|]] tags IH]; intros cmd.
  - cbn. now rewrite app_nil_r.
  - cbn [fold_left]. rewrite IH. unfold add_tag. cbn [fst snd].
    unfold metadata_args. cbn [valued flat_map fst snd].
    now rewrite <- app_assoc.
  - cbn [fold_left]. rewrite IH. reflexivity.
Qed.

(** X16: the transcoder command is [ffmpeg -y -i] and the input path,
    then [-metadata key=value] for each tag that has a value, in the
    order of the tags (a tag without value leaves no trace), then the
    codec options and, last, the output path; it has seven arguments
    plus two per valued tag.  The command built by hand after a failed
    copy is the one [build_ffmpeg_command] gives with [copy_audio]
    off. *)
Theorem ffmpeg_command_shape :
  forall (input_path output_path : str) (tags : tag_dict) (copy_audio : bool),
    build_ffmpeg_command input_path output_path tags copy_audio
    = [lit "ffmpeg"; lit "-y"; lit "-i"; input_path]
      ++ metadata_args tags
      ++ (if copy_audio then [lit "-c"; lit "copy"]
          else [lit "-c:a"; lit "alac"])
      ++ [output_path]
    /\ last (build_ffmpeg_command input_path output_path tags copy_audio) []
       = output_path
    /\ length (build_ffmpeg_command input_path output_path tags copy_audio)
       = 7 + 2 * length (valued tags)
    /\ fallback_command input_path output_path tags
       = build_ffmpeg_command input_path output_path tags false.
Proof.
  intros i o tags copy.
  assert (E : build_ffmpeg_command i o tags copy
              = [lit "ffmpeg"; lit "-y"; lit "-i"; i]
                ++ metadata_args tags
                ++ (if copy then [lit "-c"; lit "copy"]
                    else [lit "-c:a"; lit "alac"])
                ++ [o]).
  { unfold build_ffmpeg_command. cbv zeta. rewrite fold_add_tag.
    destruct copy; now rewrite <- !app_assoc. }
  assert (L : forall t, length (metadata_args t) = 2 * length (valued t)).
  { intros t. unfold metadata_args.
    induction (valued t) as [|kv l IH]; [reflexivity|].
    cbn [flat_map length app]. rewrite IH. lia. }
  split; [exact E|]. split; [|split].
  - unfold build_ffmpeg_command. cbv zeta. apply last_last.
  - rewrite E. rewrite !length_app, L. destruct copy; cbn [length]; lia.
  - unfold fallback_command, build_ffmpeg_command. cbv zeta.
    rewrite <- app_assoc. reflexivity.
Qed.

End NormalizerMore.

Section OutputNameMore.
Import Py Postprocess Notions Survey.

Lemma rfind_dot_none (s : str) :
  forall i, forallb (fun c => negb (Ascii.eqb c ".")) s = true ->
            Pathlib.rfind_dot i s = None.
Proof.
  induction s as [|c s IH]; intros i H; [reflexivity|].
  cbn [forallb] in H. apply andb_prop in H as [Hc Hs].
  cbn [Pathlib.rfind_dot]. rewrite (IH _ Hs).
  now destruct (Ascii.eqb c ".").
Qed.

Lemma rfind_dot_last (t ext : str) :
  forall i, forallb (fun c => negb (Ascii.eqb c ".")) ext = true ->
            Pathlib.rfind_dot i (t ++ "." :: ext) = Some (i + length t).
Proof.
  induction t as [|c t IH]; intros i H.
  - cbn [app Pathlib.rfind_dot length]. rewrite (rfind_dot_none _ _ H).
    cbn. now rewrite Nat.add_0_r.
  - cbn [app Pathlib.rfind_dot length]. rewrite (IH _ H).
    f_equal. lia.
Qed.

(** The stem of [title.ext], for a last extension [ext] that is not
    empty. *)
Lemma stem_title_ext (title ext : str) :
  title <> [] -> ext <> [] ->
  forallb (fun c => negb (Ascii.eqb c ".")) ext = true ->
  Pathlib.stem (title ++ "." :: ext) = title.
Proof.
  intros Ht He Hd. unfold Pathlib.stem, Pathlib.name.
  assert (N1 : str_eqb (title ++ "." :: ext) [] = false).
  { apply str_eqb_neq. destruct title; discriminate. }
  assert (N2 : str_eqb (title ++ "." :: ext) (lit ".") = false).
  { apply str_eqb_neq. intros E. apply (f_equal (@length ascii)) in E.
    rewrite length_app in E.
    destruct title; [congruence|]. destruct ext; [congruence|].
    cbn in E. lia. }
  rewrite N1, N2. cbn [orb]. unfold Pathlib.split_at_suffix.
  rewrite (rfind_dot_last _ _ 0 Hd). cbn [Nat.add].
  assert (L1 : (0 <? length title)%nat = true).
  { apply Nat.ltb_lt. destruct title; [congruence | cbn; lia]. }
  assert (L2 : (length title <? length (title ++ "." :: ext) - 1)%nat = true).
  { apply Nat.ltb_lt. rewrite length_app. cbn [length].
    destruct ext; [congruence | cbn [length]; lia]. }
  rewrite L1, L2. cbn [andb fst].
  now rewrite firstn_app, Nat.sub_diag, firstn_all, app_nil_r.
Qed.

Lemma sanitize_filename_plain (d : ascii) (title : str) :
  forallb (fun c => negb (problematic c)) title = true ->
  isspace (hd d title) = false -> isspace (last title d) = false ->
  sanitize_filename title = title.
Proof.
  intros Hp Hh Hl. unfold sanitize_filename, strip.
  rewrite forallb_filter_id by exact Hp.
  destruct title as [|c r]; [reflexivity|].
  pose proof (strip_by_core isspace [] (c :: r) [] d eq_refl eq_refl
                ltac:(discriminate) Hh Hl) as C.
  now rewrite app_nil_r in C.
Qed.

(** A name without a slash that is neither empty nor a lone dot is
    accepted by [with_name]. *)
Lemma with_name_plain (name : str) :
  name <> [] -> name <> lit "." ->
  forallb (fun x => negb (Ascii.eqb "/" x)) name = true ->
  Pathlib.with_name name = Ok name.
Proof.
  intros Hne Hdot Hs. unfold Pathlib.with_name.
  apply str_eqb_neq in Hne as N1. rewrite N1.
  destruct (forallb_hd_last _ name " " Hne Hs) as [Hh Hl].
  apply negb_true_iff in Hh, Hl.
  assert (S1 : startswith (lit "/") name = false).
  { destruct name as [|x name]; [reflexivity|]. cbn in *. now rewrite Hh. }
  rewrite S1, (Ascii.eqb_sym _ "/"), Hl. cbn [orb].
  change (lit "/") with ["/"]. rewrite (split_absent ["/"] name).
  2:{ now apply contains_char. }
  cbn [filter]. unfold Pathlib.proper_component.
  apply str_eqb_neq in Hdot. rewrite N1, Hdot. reflexivity.
Qed.

(** X17: take a found file named by optional white space, optional
    zeros, the track number (a positive one), optional white space, one
    or more separators of which the first is a hyphen, underscore or dot,
    and then [title.ext], where [title] begins with neither a separator
    nor a digit, holds none of the characters [sanitize_filename] deletes
    and does not end in white space, and [ext] is the last extension,
    not empty, without dot or slash.  With an output format that is not
    empty and holds no slash, the name computed for the output, which
    [with_name] accepts, is [title] and the format, a dot put in front of
    the format unless it begins with one, whatever the title of the track
    in the sheet.  A found file whose name is only the number and the
    separators gets the sanitized title of the track for name, before
    the format. *)
Theorem out_name_of_numbered_file :
  forall (tn : Z) (ttitle ws zeros sp1 : str) (s : ascii) (seps2 : str)
         (c : ascii) (r ext : str) (f : ascii) (fs : str),
    (0 < tn)%Z ->
    forallb isspace ws = true ->
    forallb (Ascii.eqb "0") zeros = true ->
    forallb isspace sp1 = true ->
    Re.separator s = true -> isspace s = false ->
    forallb Re.separator seps2 = true ->
    Re.separator c = false -> isdecimal c = false ->
    forallb (fun x => negb (problematic x)) (c :: r) = true ->
    isspace (last (c :: r) c) = false ->
    ext <> [] ->
    forallb (fun x => negb (Ascii.eqb x ".")) ext = true ->
    forallb (fun x => negb (Ascii.eqb x "/")) ext = true ->
    forallb (fun x => negb (Ascii.eqb "/" x)) (f :: fs) = true ->
    out_name tn ttitle
      (ws ++ zeros ++ str_of_Z tn ++ sp1 ++ s :: seps2
          ++ (c :: r) ++ "." :: ext)
      (f :: fs)
    = (c :: r) ++ (if Ascii.eqb "." f then f :: fs else "." :: f :: fs)
    /\ Pathlib.with_name
         (out_name tn ttitle
            (ws ++ zeros ++ str_of_Z tn ++ sp1 ++ s :: seps2
                ++ (c :: r) ++ "." :: ext)
            (f :: fs))
       = Ok ((c :: r) ++ (if Ascii.eqb "." f then f :: fs
                          else "." :: f :: fs))
    /\ out_name tn ttitle
         (ws ++ zeros ++ str_of_Z tn ++ sp1 ++ s :: seps2 ++ []) (f :: fs)
       = sanitize_filename ttitle
         ++ (if Ascii.eqb "." f then f :: fs else "." :: f :: fs).
Proof.
  intros tn ttitle ws zeros sp1 s seps2 c r ext f fs
         Htn Hws Hz Hsp1 Hs Hs' Hseps Hc Hc' Hp Hl He Hd _ Hfmt.
  assert (X : forall name, out_ext (f :: fs) name
              = if Ascii.eqb "." f then f :: fs else "." :: f :: fs).
  { intros name. unfold out_ext. cbn [lit String.list_ascii_of_string
      startswith]. rewrite andb_true_r. now destruct (Ascii.eqb "." f). }
  assert (B1 : base_title tn
                 (ws ++ zeros ++ str_of_Z tn ++ sp1 ++ s :: seps2
                     ++ (c :: r) ++ "." :: ext)
               = (c :: r) ++ "." :: ext).
  { apply base_title_numbered; auto. cbn [app]. now split. }
  assert (B2 : base_title tn
                 (ws ++ zeros ++ str_of_Z tn ++ sp1 ++ s :: seps2 ++ [])
               = []).
  { apply base_title_numbered; auto. }
  assert (O1 : out_name tn ttitle
                 (ws ++ zeros ++ str_of_Z tn ++ sp1 ++ s :: seps2
                     ++ (c :: r) ++ "." :: ext)
                 (f :: fs)
               = (c :: r) ++ (if Ascii.eqb "." f then f :: fs
                              else "." :: f :: fs)).
  { unfold out_name; cbv zeta; rewrite X; f_equal.
    rewrite B1. rewrite stem_title_ext by (auto; discriminate).
    apply (sanitize_filename_plain c); auto.
    cbn [hd]. destruct (isspace c) eqn:E; [|reflexivity].
    apply space_is_separator in E. congruence. }
  split; [exact O1|]. split.
  - rewrite O1. apply with_name_plain.
    + discriminate.
    + cbn [app lit String.list_ascii_of_string]. intros [= E _].
      subst c. discriminate Hc.
    + rewrite forallb_app. apply andb_true_intro. split.
      * eapply forallb_impl; [|exact Hp]. intros x Hx.
        destruct (Ascii.eqb "/" x) eqn:E; [|reflexivity].
        apply Ascii.eqb_eq in E. subst x. discriminate Hx.
      * destruct (Ascii.eqb "." f); [exact Hfmt|].
        cbn [forallb]. exact Hfmt.
  - unfold out_name; cbv zeta; rewrite X; f_equal.
    rewrite B2. cbn. now destruct ttitle.
Qed.

Lemma out_name_of_numbered_file_witness :
  out_name 3 (lit "Un:titled ")
    ([] ++ lit "0" ++ str_of_Z 3 ++ lit " " ++ "-" :: lit " "
        ++ lit "Mr. Blue Sky" ++ "." :: lit "wav")
    (lit "m4a")
  = lit "Mr. Blue Sky.m4a"
  /\ Pathlib.with_name
       (out_name 3 (lit "Un:titled ")
          ([] ++ lit "0" ++ str_of_Z 3 ++ lit " " ++ "-" :: lit " "
              ++ lit "Mr. Blue Sky" ++ "." :: lit "wav")
          (lit "m4a"))
     = Ok (lit "Mr. Blue Sky.m4a")
  /\ out_name 3 (lit "Un:titled ")
       ([] ++ lit "0" ++ str_of_Z 3 ++ lit " " ++ "-" :: lit " " ++ [])
       (lit "m4a")
     = lit "Untitled.m4a".
Proof.
  apply (out_name_of_numbered_file 3%Z (lit "Un:titled ") [] (lit "0")
           (lit " ") "-" (lit " ") "M" (lit "r. Blue Sky") (lit "wav")
           "m" (lit "4a")); try reflexivity.
  discriminate.
Defined.

End OutputNameMore.
